(** * Aneurysm_Workflow_FSI: pre-processing pipeline, AVF problem file and
      post-processing utilities

    Shallow embedding of
    - [src/fsipy/automatedPostprocessing/postprocessing_mesh/separate_domain.py]
    - [postprocessing_h5py/create_spectrogram_from_components.py]
    - [src/fsipy/simulations/avf.py]
    - [src/fsipy/automatedPreprocessing/automated_preprocessing.py]

    Arrays are lists, node and cell indices are [nat], integer markers are
    [Z], numpy [float64] data is [float] where only IEEE arithmetic and
    comparisons are used, and [R] in the boundary-condition expressions,
    which call [cos], [sqrt] and [pi]. *)

From Stdlib Require Import ZArith List Lia Floats Sorted Reals Lra.
From stdpp Require Import gmap strings list pretty.

(* ===================================================================== *)
(** * separate_domain.py                                                  *)
(* ===================================================================== *)

Module SeparateDomain.

Section Separate.

(** A row of [mesh/coordinates]; the code only moves rows around. *)
Context {coordinate : Type}.

(** [(domains_values == domain_id).nonzero()]: the indices, in increasing
    order, of the cells whose marker equals [domain_id]. *)
Fixpoint nonzero_eq_from (i : nat) (domains_values : list nat) (domain_id : nat)
  : list nat :=
  match domains_values with
  | [] => []
  | v :: rest =>
      if Nat.eqb v domain_id
      then i :: nonzero_eq_from (S i) rest domain_id
      else nonzero_eq_from (S i) rest domain_id
  end.

Definition nonzero_eq (domains_values : list nat) (domain_id : nat) : list nat :=
  nonzero_eq_from 0 domains_values domain_id.

(** [a[index, :]] with an integer index array: one row per index, and an
    [IndexError] ([None]) when an index is out of range. *)
Definition take_rows {A : Type} (a : list A) (index : list nat) : option (list A) :=
  mapM (fun i => a !! i) index.

(** [np.unique] of the flattened array: the sorted list of the distinct
    values. *)
Fixpoint insert_unique (x : nat) (l : list nat) : list nat :=
  match l with
  | [] => [x]
  | y :: l' =>
      if Nat.ltb x y then x :: l
      else if Nat.eqb x y then l
      else y :: insert_unique x l'
  end.

Definition np_unique (topology : list (list nat)) : list nat :=
  foldr insert_unique [] (concat topology).

(** [np.where(topology == old, new, topology)]. *)
Definition np_where_eq (topology : list (list nat)) (old new : nat)
  : list (list nat) :=
  map (map (fun v => if Nat.eqb v old then new else v)) topology.

(** The loop
    [for node_id in range(len(ids)): topology = np.where(topology == ids[node_id], node_id, topology)]. *)
Definition fix_topology (ids : list nat) (topology : list (list nat))
  : list (list nat) :=
  fold_left (fun topo node_id => np_where_eq topo (nth node_id ids 0) node_id)
            (seq 0 (length ids)) topology.

(** What is stored in the [mesh/coordinates] and [mesh/topology] datasets of
    one output file. *)
Record domain_mesh := {
  mesh_coordinates : list coordinate;
  mesh_topology : list (list nat)
}.

(** Body of the second loop of [separate_domain] for one [domain_id].
    numpy gives [domain_topology[index, :]] a leading axis of length one
    (the index is the one-element tuple returned by [nonzero]); the h5py
    assignment [topology_array[...] = ...] drops it again, so the rows are
    kept as a plain two-dimensional array here. *)
Definition separate_one (domains_values : list nat)
    (domain_topology : list (list nat)) (domain_coordinates : list coordinate)
    (domain_id : nat) : option domain_mesh :=
  let domain_of_interest_index := nonzero_eq domains_values domain_id in
  domain_of_interest_topology ← take_rows domain_topology domain_of_interest_index;
  let domain_of_interest_ids := np_unique domain_of_interest_topology in
  domain_of_interest_coordinates ← take_rows domain_coordinates domain_of_interest_ids;
  Some {| mesh_coordinates := domain_of_interest_coordinates;
          mesh_topology := fix_topology domain_of_interest_ids domain_of_interest_topology |}.

(** [separate_domain]: the fluid file, then the solid file; an exception in
    the first leaves the second unwritten. *)
Definition separate_domain (domains_values : list nat)
    (domain_topology : list (list nat)) (domain_coordinates : list coordinate)
    (fluid_domain_id solid_domain_id : nat)
  : option (list (string * domain_mesh)) :=
  mapM (fun '(domain_id, domain_name) =>
          m ← separate_one domains_values domain_topology domain_coordinates domain_id;
          Some (domain_name, m))
       [(fluid_domain_id, "fluid"%string); (solid_domain_id, "solid"%string)].

(** ** Reference description of the result *)

(** The cells of the domain: rows of the topology whose marker is
    [domain_id], in their original order. *)
Fixpoint cells_of (domains_values : list nat) (domain_topology : list (list nat))
    (domain_id : nat) : list (list nat) :=
  match domains_values, domain_topology with
  | v :: vs, cell :: cells =>
      if Nat.eqb v domain_id
      then cell :: cells_of vs cells domain_id
      else cells_of vs cells domain_id
  | _, _ => []
  end.

(** Position of [v] in [ids] (the length of [ids] when absent). *)
Fixpoint rank (ids : list nat) (v : nat) : nat :=
  match ids with
  | [] => 0
  | y :: ids' => if Nat.eqb v y then 0 else S (rank ids' v)
  end.

(** The mesh is well formed: one marker per cell and every node of a cell
    has a coordinate row. *)
Definition well_formed (domains_values : list nat)
    (domain_topology : list (list nat)) (domain_coordinates : list coordinate)
  : Prop :=
  length domains_values = length domain_topology ∧
  Forall (Forall (fun v => v < length domain_coordinates)) domain_topology.

(** [m] is the sub-mesh of the cells marked [domain_id], renumbered by the
    order-preserving bijection from the used node ids onto [0 .. n-1]. *)
Definition renumbered_submesh (domains_values : list nat)
    (domain_topology : list (list nat)) (domain_coordinates : list coordinate)
    (domain_id : nat) (m : domain_mesh) : Prop :=
  let cells := cells_of domains_values domain_topology domain_id in
  ∃ ids : list nat,
    StronglySorted lt ids ∧
    (∀ v, In v ids ↔ ∃ cell, In cell cells ∧ In v cell) ∧
    mesh_topology m = map (map (rank ids)) cells ∧
    length (mesh_coordinates m) = length ids ∧
    (∀ i v, ids !! i = Some v →
            rank ids v = i ∧ mesh_coordinates m !! i = domain_coordinates !! v) ∧
    (∀ v w, In v ids → In w ids → (v < w ↔ rank ids v < rank ids w)) ∧
    (∀ v w, In v ids → In w ids → rank ids v = rank ids w → v = w).

End Separate.

Arguments domain_mesh : clear implicits.

End SeparateDomain.

(* ===================================================================== *)
(** * create_spectrogram_from_components.py                              *)
(* ===================================================================== *)

Module Spectrogram.

(** A two-dimensional [float64] array: a list of rows of binary64
    numbers. *)
Abbreviation array2 := (list (list float)).

(** The numbers of a CSV file, line by line, as [np.loadtxt] parses them;
    the header line is a comment and is not among them, a blank line has no
    numbers. *)
Abbreviation table := (list (list float)).

(** What [np.loadtxt] returns: with the default [ndmin=0] every axis of
    length one is squeezed away. *)
Inductive ndarray :=
| Array0 (v : float)
| Array1 (a : list float)
| Array2 (a : array2).

(** [np.loadtxt(path, delimiter=",")]: blank lines are skipped and lines
    with different numbers of values raise [ValueError]; a single row or a
    single column comes back as a one-dimensional array, a single number
    as a zero-dimensional one, and a file without data as an empty
    one-dimensional array. *)
Definition loadtxt (t : table) : option ndarray :=
  let rows := List.filter (fun row => negb (Nat.eqb (length row) 0)) t in
  match rows with
  | [] => Some (Array1 [])
  | first :: _ =>
      let cols := length first in
      if forallb (fun row => Nat.eqb (length row) cols) rows then
        if Nat.eqb (length rows) 1 || Nat.eqb cols 1 then
          match concat rows with
          | [v] => Some (Array0 v)
          | flat => Some (Array1 flat)
          end
        else Some (Array2 rows)
      else None
  end.

(** [a] has [rows] rows of [cols] entries. *)
Definition has_shape (a : array2) (rows cols : nat) : Prop :=
  length a = rows ∧ Forall (fun row => length row = cols) a.

(** [a[:, 0]]; an [IndexError] when the array has no column. *)
Definition first_column (a : array2) : option (list float) :=
  mapM (fun row => row !! 0) a.

(** [a[:, 1:]]. *)
Definition columns_from_1 (a : array2) : array2 := map (drop 1) a.

(** [u + v] on rows of equal length. *)
Fixpoint add_row (u v : list float) : option (list float) :=
  match u, v with
  | [], [] => Some []
  | a :: u', b :: v' => r ← add_row u' v'; Some ((a + b)%float :: r)
  | _, _ => None
  end.

(** [a + b] on arrays of equal shape. Arrays of different shapes are
    rejected: numpy would broadcast some of them, which the component
    spectrograms (all written by the same routine) never need. *)
Fixpoint np_add (a b : array2) : option array2 :=
  match a, b with
  | [], [] => Some []
  | u :: a', v :: b' => r ← add_row u v; rest ← np_add a' b'; Some (r :: rest)
  | _, _ => None
  end.

(** [a / k] for a scalar [k]. *)
Definition np_div (a : array2) (k : float) : array2 :=
  map (map (fun v => (v / k)%float)) a.

(** [a[:, 0]] on what [np.loadtxt] returned: an [IndexError] (too many
    indices) unless the array has two dimensions. *)
Definition column_0 (a : ndarray) : option (list float) :=
  match a with
  | Array2 a => first_column a
  | _ => None
  end.

(** [a[:, 1:]] on what [np.loadtxt] returned. *)
Definition columns_1 (a : ndarray) : option array2 :=
  match a with
  | Array2 a => Some (columns_from_1 a)
  | _ => None
  end.

(** What [create_spectrogram_composite] hands to [spec.plot_spectrogram]
    from the three CSV files: the frequency axis [freqs] and the power
    matrix [Pxx] (lines 57-66). *)
Definition create_spectrogram_composite (x_csv y_csv z_csv : table)
  : option (list float * array2) :=
  csv_x_data ← loadtxt x_csv;
  csv_y_data ← loadtxt y_csv;
  csv_z_data ← loadtxt z_csv;
  freqs ← column_0 csv_x_data;
  x ← columns_1 csv_x_data;
  y ← columns_1 csv_y_data;
  z ← columns_1 csv_z_data;
  xy ← np_add x y;
  xyz ← np_add xy z;
  let Pxx := np_div xyz 3%float in
  Some (freqs, Pxx).

(** Entry [(i, j)] of a two-dimensional array. *)
Definition entry (a : array2) (i j : nat) : option float :=
  row ← a !! i; row !! j.

End Spectrogram.

(* ===================================================================== *)
(** * avf.py                                                              *)
(* ===================================================================== *)

Module Avf.

Local Open Scope R_scope.

(** Points, normals and velocity values: three real components. *)
Definition vec3 : Type := R * R * R.

(** Python's [a < b] on floats. *)
Definition Rltb (a b : R) : bool := if Rlt_dec a b then true else false.

(** Python's [int(x)] on a float: truncation toward zero. *)
Definition py_int (x : R) : Z :=
  if Rlt_dec x 0 then (- Int_part (- x))%Z else Int_part x.

(** [a[i]] on a list or a one-dimensional numpy array: a negative index
    counts from the end and an index outside [-len, len) raises
    [IndexError] ([None]). *)
Definition py_index {A : Type} (a : list A) (i : Z) : option A :=
  if (0 <=? i)%Z then a !! Z.to_nat i
  else if (- Z.of_nat (length a) <=? i)%Z then a !! Z.to_nat (Z.of_nat (length a) + i)
  else None.

(** [len(a)] as a Python integer. *)
Definition len {A : Type} (a : list A) : Z := Z.of_nat (length a).

(** ** [get_mesh_domain_and_boundaries] *)

(** A point of the mesh as the code holds it: three binary64 numbers. *)
Definition point : Type := float * float * float.

(** The literals of lines 88-91, each the binary64 number nearest to the
    decimal written in the source. *)
#[local] Set Warnings "-inexact-float".
Definition sph_x : float := 0.33642%float.
Definition sph_y : float := 0.0873934%float.
Definition sph_z : float := 0.0369964%float.
Definition sph_rad : float := 0.02%float.
#[local] Set Warnings "inexact-float".

(** What the function reads from the dolfin mesh: the coordinates, which it
    never touches, and the midpoint of every facet in iteration order. *)
Record Mesh := {
  coordinates : list point;
  facet_midpoints : list point
}.

(** [sqrt((mid.x()-sph_x)**2 + (mid.y()-sph_y)**2 + (mid.z()-sph_z)**2)] in
    binary64, every operation rounded to nearest and the sum taken from
    left to right. Python's [d**2] calls the C library's [pow], taken here
    to return the correctly rounded square, the rounded product of [d] with
    itself. *)
Definition dist_sph_center (mid : point) : float :=
  let '(mid_x, mid_y, mid_z) := mid in
  let dx := (mid_x - sph_x)%float in
  let dy := (mid_y - sph_y)%float in
  let dz := (mid_z - sph_z)%float in
  PrimFloat.sqrt (dx * dx + dy * dy + dz * dz)%float.

(** [dist_sph_center > sph_rad] on binary64 numbers (false for a NaN). *)
Definition outside_sphere (mid : point) : bool :=
  PrimFloat.ltb sph_rad (dist_sph_center mid).

(** One of the four [if idx_facet == ids[k]: ... boundaries.array()[i] = rigid_id[k']]
    blocks. The lists are indexed exactly where Python indexes them. *)
Definition reassign_if (idx_facet : Z) (ids : list Z) (k : nat) (mid : point)
    (rigid_id : list Z) (k' : nat) (i : nat) (boundaries : list Z)
  : option (list Z) :=
  id ← ids !! k;
  if (idx_facet =? id)%Z then
    if outside_sphere mid then
      rigid ← rigid_id !! k'; Some (<[i := rigid]> boundaries)
    else Some boundaries
  else Some boundaries.

(** The body of the loop for facet number [i]. *)
Definition loop_body (fsi_id rigid_id outer_id : list Z) (mid : point) (i : nat)
    (boundaries : list Z) : option (list Z) :=
  idx_facet ← boundaries !! i;
  boundaries ← reassign_if idx_facet fsi_id 0 mid rigid_id 0 i boundaries;
  boundaries ← reassign_if idx_facet fsi_id 1 mid rigid_id 1 i boundaries;
  boundaries ← reassign_if idx_facet outer_id 0 mid rigid_id 0 i boundaries;
  reassign_if idx_facet outer_id 1 mid rigid_id 1 i boundaries.

(** [for submesh_facet in facets(mesh): ...; i += 1]. *)
Fixpoint facet_loop (fsi_id rigid_id outer_id : list Z) (facets : list point)
    (i : nat) (boundaries : list Z) : option (list Z) :=
  match facets with
  | [] => Some boundaries
  | mid :: rest =>
      boundaries ← loop_body fsi_id rigid_id outer_id mid i boundaries;
      facet_loop fsi_id rigid_id outer_id rest (S i) boundaries
  end.

(** The mesh, the domain markers and the facet markers as read from the
    HDF5 file go in; [(mesh, domains, boundaries)] comes out. *)
Definition get_mesh_domain_and_boundaries (mesh : Mesh) (domains boundaries : list Z)
    (fsi_id rigid_id outer_id : list Z) : option (Mesh * list Z * list Z) :=
  boundaries ← facet_loop fsi_id rigid_id outer_id (facet_midpoints mesh) 0%nat boundaries;
  Some (mesh, domains, boundaries).

(** ** [VelIn1Para] *)

Module VelIn1Para.

Record self := {
  t : R;
  dt : R;
  t_ramp : R;
  interp_PA : list R;
  number : Z;
  n : vec3;
  A : R;
  c : vec3;
  r : R
}.

(** [__init__]; the area [A] and the barycenter [c] are the values FEniCS
    assembles over the inlet. *)
Definition init (t dt vel_t_ramp : R) (n : vec3) (A : R) (c : vec3)
    (interp_PA : list R) : option self :=
  if Req_dec_T dt 0 then None
  else Some {| t := t; dt := dt; t_ramp := vel_t_ramp; interp_PA := interp_PA;
               number := py_int (t / dt); n := n; A := A; c := c;
               r := sqrt (A / PI) |}.

Definition update (s : self) (t' : R) : option self :=
  let s := {| t := t'; dt := dt s; t_ramp := t_ramp s; interp_PA := interp_PA s;
              number := number s; n := n s; A := A s; c := c s; r := r s |} in
  if (number s + 1 <? len (interp_PA s))%Z then
    if Req_dec_T (dt s) 0 then None
    else Some {| t := t s; dt := dt s; t_ramp := t_ramp s; interp_PA := interp_PA s;
                 number := py_int (t s / dt s); n := n s; A := A s; c := c s;
                 r := r s |}
  else Some s.

(** [eval]: the three entries written to [value]. *)
Definition eval (s : self) (x : vec3) : option vec3 :=
  let '(x0, x1, x2) := x in
  let '(c0, c1, c2) := c s in
  let '(n0, n1, n2) := n s in
  let r2 := (x0 - c0) ^ 2 + (x1 - c1) ^ 2 + (x2 - c2) ^ 2 in
  let fact_r := 1 - (r2 / r s ^ 2) in
  if Rltb (t s) (t_ramp s) && Rltb 0 (t_ramp s) then
    v ← py_index (interp_PA s) (number s);
    let fact := v * (-0.5 * cos ((PI / t_ramp s) * t s) + 0.5) in
    Some (- n0 * fact_r * fact, - n1 * fact_r * fact, - n2 * fact_r * fact)
  else
    v ← py_index (interp_PA s) (number s);
    Some (- n0 * v * fact_r, - n1 * v * fact_r, - n2 * v * fact_r).

End VelIn1Para.

(** ** [VelIn2Para] *)

Module VelIn2Para.

Record self := {
  t : R;
  dt : R;
  t_ramp : R;
  interp_DA : list R;
  number : Z;
  n : vec3;
  A : R;
  c : vec3;
  r : R
}.

Definition init (t dt vel_t_ramp : R) (n : vec3) (A : R) (c : vec3)
    (interp_DA : list R) : option self :=
  if Req_dec_T dt 0 then None
  else Some {| t := t; dt := dt; t_ramp := vel_t_ramp; interp_DA := interp_DA;
               number := py_int (t / dt); n := n; A := A; c := c;
               r := sqrt (A / PI) |}.

Definition update (s : self) (t' : R) : option self :=
  let s := {| t := t'; dt := dt s; t_ramp := t_ramp s; interp_DA := interp_DA s;
              number := number s; n := n s; A := A s; c := c s; r := r s |} in
  if (number s + 1 <? len (interp_DA s))%Z then
    if Req_dec_T (dt s) 0 then None
    else Some {| t := t s; dt := dt s; t_ramp := t_ramp s; interp_DA := interp_DA s;
                 number := py_int (t s / dt s); n := n s; A := A s; c := c s;
                 r := r s |}
  else Some s.

Definition eval (s : self) (x : vec3) : option vec3 :=
  let '(x0, x1, x2) := x in
  let '(c0, c1, c2) := c s in
  let '(n0, n1, n2) := n s in
  let r2 := (x0 - c0) ^ 2 + (x1 - c1) ^ 2 + (x2 - c2) ^ 2 in
  let fact_r := 1 - (r2 / r s ^ 2) in
  if Rltb (t s) (t_ramp s) && Rltb 0 (t_ramp s) then
    v ← py_index (interp_DA s) (number s);
    let fact := v * (-0.5 * cos ((PI / t_ramp s) * t s) + 0.5) in
    Some (- n0 * fact_r * fact, - n1 * fact_r * fact, - n2 * fact_r * fact)
  else
    v ← py_index (interp_DA s) (number s);
    Some (- n0 * v * fact_r, - n1 * v * fact_r, - n2 * v * fact_r).

End VelIn2Para.

(** ** [InnerP] *)

Module InnerP.

Record self := {
  t : R;
  dt : R;
  interp_P : list R;
  number : Z;
  p_t_ramp_start : R;
  p_t_ramp_end : R
}.

Definition init (t dt p_t_ramp_start p_t_ramp_end : R) (interp_P : list R)
  : option self :=
  if Req_dec_T dt 0 then None
  else Some {| t := t; dt := dt; interp_P := interp_P; number := py_int (t / dt);
               p_t_ramp_start := p_t_ramp_start; p_t_ramp_end := p_t_ramp_end |}.

Definition update (s : self) (t' : R) : option self :=
  let s := {| t := t'; dt := dt s; interp_P := interp_P s; number := number s;
              p_t_ramp_start := p_t_ramp_start s;
              p_t_ramp_end := p_t_ramp_end s |} in
  if (number s + 1 <? len (interp_P s))%Z then
    if Req_dec_T (dt s) 0 then None
    else Some {| t := t s; dt := dt s; interp_P := interp_P s;
                 number := py_int (t s / dt s);
                 p_t_ramp_start := p_t_ramp_start s;
                 p_t_ramp_end := p_t_ramp_end s |}
  else Some s.

(** [eval]: the entry written to [value[0]]; the point [x] is not used. *)
Definition eval (s : self) : option R :=
  if Rltb (t s) (p_t_ramp_start s) then Some 0
  else if Rltb (t s) (p_t_ramp_end s) then
    v ← py_index (interp_P s) (number s);
    Some (v * (-0.5 * cos ((PI / (p_t_ramp_end s - p_t_ramp_start s))
                           * (t s - p_t_ramp_start s)) + 0.5))
  else py_index (interp_P s) (number s).

End InnerP.

(** [pre_solve]: the three expressions are updated with the same time. *)
Definition pre_solve (t : R) (u_inflow_exp1 : VelIn1Para.self)
    (u_inflow_exp2 : VelIn2Para.self) (p_out_bc_val : InnerP.self)
  : option (VelIn1Para.self * VelIn2Para.self * InnerP.self) :=
  u_inflow_exp1 ← VelIn1Para.update u_inflow_exp1 t;
  u_inflow_exp2 ← VelIn2Para.update u_inflow_exp2 t;
  p_out_bc_val ← InnerP.update p_out_bc_val t;
  Some (u_inflow_exp1, u_inflow_exp2, p_out_bc_val).

(** ** The common interface of the three expressions

    Each class is a [UserExpression] holding a waveform, the index
    [number] into it and the time step, with an [update] method. *)
Class WaveformExpression (S : Type) := {
  wf_interp : S → list R;
  wf_number : S → Z;
  wf_dt : S → R;
  wf_update : S → R → option S;
  (** [eval] returns a value (raises no [IndexError]) at every point. *)
  wf_eval_returns : S → Prop
}.

#[export] Instance VelIn1Para_expression : WaveformExpression VelIn1Para.self := {|
  wf_interp := VelIn1Para.interp_PA;
  wf_number := VelIn1Para.number;
  wf_dt := VelIn1Para.dt;
  wf_update := VelIn1Para.update;
  wf_eval_returns := fun s => ∀ x, is_Some (VelIn1Para.eval s x)
|}.

#[export] Instance VelIn2Para_expression : WaveformExpression VelIn2Para.self := {|
  wf_interp := VelIn2Para.interp_DA;
  wf_number := VelIn2Para.number;
  wf_dt := VelIn2Para.dt;
  wf_update := VelIn2Para.update;
  wf_eval_returns := fun s => ∀ x, is_Some (VelIn2Para.eval s x)
|}.

#[export] Instance InnerP_expression : WaveformExpression InnerP.self := {|
  wf_interp := InnerP.interp_P;
  wf_number := InnerP.number;
  wf_dt := InnerP.dt;
  wf_update := InnerP.update;
  wf_eval_returns := fun s => is_Some (InnerP.eval s)
|}.

(** The solver calls [update] once per time step (through [pre_solve]);
    [simulate s ts] lists the states after each of the calls
    [update(t)], [t] in [ts]. *)
Fixpoint simulate {S : Type} `{WaveformExpression S} (s : S) (ts : list R)
  : option (list S) :=
  match ts with
  | [] => Some []
  | t :: ts' =>
      s' ← wf_update s t;
      rest ← simulate s' ts';
      Some (s' :: rest)
  end.

(** Successive calls never raise [int(t/dt)] more than one step past the
    current index. *)
Fixpoint paced {S : Type} `{WaveformExpression S} (s : S) (ts : list R) : Prop :=
  match ts with
  | [] => True
  | t :: ts' =>
      (py_int (t / wf_dt s) <= wf_number s + 1)%Z ∧
      ∀ s', wf_update s t = Some s' → paced s' ts'
  end.

(** ** The ramps as the specification words them *)

(** Velocity ramp: the sigmoid on [0 <= t < vel_t_ramp] when
    [vel_t_ramp > 0], one otherwise. *)
Definition velocity_ramp (vel_t_ramp t : R) : R :=
  if Rltb t 0 then 1
  else if Rltb t vel_t_ramp && Rltb 0 vel_t_ramp
       then -0.5 * cos (PI * t / vel_t_ramp) + 0.5
       else 1.

(** The velocity ramp as the code applies it: no lower bound on [t]. *)
Definition velocity_ramp_code (vel_t_ramp t : R) : R :=
  if Rltb t vel_t_ramp && Rltb 0 vel_t_ramp
  then -0.5 * cos (PI * t / vel_t_ramp) + 0.5
  else 1.

(** Pressure ramp: zero before the start, the sigmoid between start and
    end, one from the end on. *)
Definition pressure_ramp (p_t_ramp_start p_t_ramp_end t : R) : R :=
  if Rltb t p_t_ramp_start then 0
  else if Rltb t p_t_ramp_end
       then -0.5 * cos (PI * (t - p_t_ramp_start) / (p_t_ramp_end - p_t_ramp_start)) + 0.5
       else 1.

End Avf.

(* ===================================================================== *)
(** * automated_preprocessing.py                                          *)
(* ===================================================================== *)

Module Preprocessing.

(** ** Stages, operations and outcomes *)

(** The stages of the pipeline, in the order of the specification, between
    the preparation of the input ([Setup]) and the closing steps
    ([Finish]). *)
Inductive stage :=
| Setup
| Cleaning
| Capping
| CenterlineExtraction
| Smoothing
| FlowExtension
| DistanceField
| MeshGeneration
| BoundaryIds
| Finish.

Definition stage_index (s : stage) : nat :=
  match s with
  | Setup => 0
  | Cleaning => 1
  | Capping => 2
  | CenterlineExtraction => 3
  | Smoothing => 4
  | FlowExtension => 5
  | DistanceField => 6
  | MeshGeneration => 7
  | BoundaryIds => 8
  | Finish => 9
  end.

(** What the run does to the outside: a call into a library, named after
    the function called, or an access to a file. *)
Inductive operation :=
| Call (name : string)
| Read (path : string)
| Write (path : string)
| Remove (path : string).

(** An operation together with the stage whose code performs it. *)
Record event := Event { ev_stage : stage; ev_op : operation }.

Inductive exception :=
| RuntimeError
| KeyError
| NameError
| AssertionError
| OtherException.

(** How a piece of the script ends: it falls through with a value, calls
    [sys.exit], or lets an exception escape. *)
Inductive outcome (A : Type) :=
| Returned (a : A)
| Exited (status : Z)
| Raised (e : exception).

Arguments Returned {A} a.
Arguments Exited {A} status.
Arguments Raised {A} e.

(** The arguments of [run_pre_processing] ([verbose_print] only prints). *)
Record arguments := {
  input_model : string;
  smoothing_method : string;
  smoothing_factor : float;
  smoothing_iterations : Z;
  meshing_method : string;
  refine_region : bool;
  has_multiple_inlets : bool;
  add_flow_extensions : bool;
  visualize : bool;
  config_path : option string;
  coarsening_factor : float;
  inlet_flow_extension_length : float;
  outlet_flow_extension_length : float;
  number_of_sublayers_fluid : Z;
  number_of_sublayers_solid : Z;
  edge_length : option float;
  region_points : option (list float);
  compress_mesh : bool;
  scale_factor : option float;
  scale_factor_h5 : float;
  resampling_step : float;
  meshing_parameters : list float;
  remove_all : bool;
  solid_thickness : string;
  solid_thickness_parameters : list float;
  mesh_format : string;
  flow_rate_factor : float;
  solid_side_wall_id : Z;
  interface_fsi_id : Z;
  solid_outer_wall_id : Z;
  fluid_volume_id : Z;
  solid_volume_id : Z;
  mesh_generation_retries : Z;
  no_solid : bool
}.

(** The parameter dictionary kept in [<case>_info.json]. *)
Abbreviation parameters := (gmap string Z).

(** ** The libraries

    The geometry is computed by VMTK, morphman and VaMPy, and by helpers of
    [fsipy.automatedPreprocessing.preprocessing_common] that are not among
    the sources. They are parameters of the model: [polydata] is the type
    of VTK objects, and every function below returns what the library
    returns for the given arguments. *)
Class Externals := {
  polydata : Type;
  network : Type;
  (** [path.join(dir_path, case_name)] of lines 78-83. *)
  base_path_of : string → string;
  scale_surface : polydata → float → polydata;
  check_if_closed_surface : polydata → bool;
  get_uncapped_surface : polydata → polydata;
  vtk_clean_polydata : polydata → polydata;
  vtk_triangulate_surface : polydata → polydata;
  (** Deletes the offending cells in place and tells whether any was found. *)
  find_and_delete_nan_triangles : polydata → polydata * bool;
  clean_surface : polydata → polydata;
  vmtk_cap_polydata : polydata → polydata;
  (** Returns the inlet, the outlets and the entries it stores in the
      parameter file. *)
  get_centers_for_meshing :
    polydata → bool → parameters → bool → list float * list float * parameters;
  get_furtest_surface_point : list float → polydata → list float;
  (** The centerline computation behind [compute_centerlines]. *)
  vmtk_compute_centerlines : list float → list float → polydata → float → polydata;
  get_centerline_tolerance : polydata → float;
  get_regions_to_refine :
    polydata → option (list float) → parameters → list float * parameters;
  (** [extract_single_line(centerlines, line_id, start_id=..., end_id=...)]. *)
  extract_single_line : polydata → Z → option Z → option Z → polydata;
  GetNumberOfPoints : polydata → Z;
  GetNumberOfLines : polydata → Z;
  (** Lines 211-214: the distance from point [j] of [line] to the closest
      point of [centerlines]. *)
  distance_to_closest_point : polydata → polydata → Z → float;
  vtk_merge_polydata : list polydata → polydata;
  (** Line 232: the point at the given fraction of the region centerline. *)
  region_point : polydata → float → list float;
  (** Lines 233-234: the largest inscribed sphere radius along the region. *)
  max_radius : polydata → float;
  vmtk_compute_voronoi_diagram : polydata → polydata;
  smooth_voronoi_diagram : polydata → polydata → float → option polydata → polydata;
  create_new_surface : polydata → polydata;
  prepare_output_surface : polydata → polydata → polydata → polydata;
  compute_centers : polydata → list float * list float;
  vmtk_smooth_surface : polydata → string → Z → polydata;
  add_flow_extension : polydata → polydata → bool → float → option string → polydata;
  vmtk_compute_geometric_features : polydata → polydata;
  (** Lines 357-359: [n_id], where the Frenet tangent stops changing. *)
  frenet_tangent_id : polydata → Z;
  dist_sphere_constant :
    polydata → polydata → list (list float) → list float → option float → polydata;
  dist_sphere_curvature :
    polydata → polydata → list (list float) → list float → float → polydata;
  dist_sphere_diam :
    polydata → polydata → list (list float) → list float → float → polydata;
  dist_sphere_spheres : polydata → list float → polydata;
  distance_to_spheres_solid_thickness : polydata → list float → polydata;
  (** [generate_mesh] at its [k]-th call of the run: the volumetric mesh
      and the remeshed surface, or the exception it raises. *)
  generate_mesh :
    nat → polydata → Z → Z → string → list float → outcome (polydata * polydata);
  mesh_alternative : polydata → polydata;
  setup_model_network : polydata → list (list float) → bool → network * list float;
  compute_flow_rate : bool → list float → parameters → float → float;
  (** The boundary ids [find_boundaries] stores in the parameter file. *)
  find_boundaries : float → network → polydata → bool → parameters
}.

Section Pipeline.
Context `{Externals}.

(** What a file holds. *)
Inductive content :=
| Polydata (p : polydata)
| Json (d : parameters)
| Binary.

(** The state of the outside world: the files, the operations performed so
    far, and how often [generate_mesh] has been called. *)
Record world := World {
  files : gmap string content;
  log : list event;
  mesh_attempts : nat
}.

Definition M (A : Type) : Type := world → outcome A * world.

Definition ret {A : Type} (a : A) : M A := fun w => (Returned a, w).

Definition bind {A B : Type} (m : M A) (k : A → M B) : M B := fun w =>
  match m w with
  | (Returned a, w') => k a w'
  | (Exited status, w') => (Exited status, w')
  | (Raised e, w') => (Raised e, w')
  end.

Local Notation "'let*' x := m 'in' k" := (bind m (fun x => k))
  (at level 10, x name, m at level 100, k at level 200).
Local Notation "'let*' ' p := m 'in' k" :=
  (bind m (fun x => match x with p => k end))
  (at level 10, p pattern, m at level 100, k at level 200).
Local Notation "m ;;; k" := (bind m (fun _ => k))
  (at level 100, k at level 200, right associativity).

Definition sys_exit {A : Type} (status : Z) : M A := fun w => (Exited status, w).

Definition raise {A : Type} (e : exception) : M A := fun w => (Raised e, w).

Definition emit (s : stage) (op : operation) : M unit := fun w =>
  (Returned tt,
   {| files := files w; log := log w ++ [Event s op];
      mesh_attempts := mesh_attempts w |}).

(** A call into a library that returns [result]. *)
Definition call {A : Type} (s : stage) (name : string) (result : A) : M A :=
  emit s (Call name) ;;; ret result.

(** [path.isfile] and [path.exists]. *)
Definition isfile (path : string) : M bool := fun w =>
  (Returned (bool_decide (is_Some (files w !! path))), w).

Definition store (path : string) (c : content) : M unit := fun w =>
  (Returned tt,
   {| files := <[path := c]> (files w); log := log w;
      mesh_attempts := mesh_attempts w |}).

(** [read_polydata]: fails on a file that is missing or holds no VTK data. *)
Definition read_polydata (s : stage) (path : string) : M polydata :=
  emit s (Read path) ;;;
  fun w =>
    match files w !! path with
    | Some (Polydata p) => (Returned p, w)
    | _ => (Raised RuntimeError, w)
    end.

Definition write_polydata (s : stage) (p : polydata) (path : string) : M unit :=
  emit s (Write path) ;;; store path (Polydata p).

(** [os.remove]. *)
Definition remove (s : stage) (path : string) : M unit :=
  emit s (Remove path) ;;;
  fun w =>
    (Returned tt,
     {| files := delete path (files w); log := log w;
        mesh_attempts := mesh_attempts w |}).

(** A library routine that writes a file of its own format. *)
Definition write_binary (s : stage) (path : string) : M unit :=
  emit s (Write path) ;;; store path Binary.

(** [assert condition]. *)
Definition assert (condition : bool) : M unit :=
  if condition then ret tt else raise AssertionError.

Section Run.

Variable args : arguments.

(** *** Naming conventions (lines 83-106) *)

Definition base_path : string := base_path_of (input_model args).
Definition file_name_centerlines := base_path +:+ "_centerlines.vtp".
Definition file_name_refine_region_centerlines :=
  base_path +:+ "_refine_region_centerline.vtp".
Definition file_name_region_centerlines := base_path +:+ "_sac_centerline_{}.vtp".
Definition file_name_distance_to_sphere_diam :=
  base_path +:+ "_distance_to_sphere_diam.vtp".
Definition file_name_distance_to_sphere_const :=
  base_path +:+ "_distance_to_sphere_const.vtp".
Definition file_name_distance_to_sphere_curv :=
  base_path +:+ "_distance_to_sphere_curv.vtp".
Definition file_name_distance_to_sphere_spheres :=
  base_path +:+ "_distance_to_sphere_spheres.vtp".
Definition file_name_distance_to_sphere_solid_thickness :=
  base_path +:+ "_distance_to_sphere_solid_thickness.vtp".
Definition file_name_parameters := base_path +:+ "_info.json".
Definition file_name_probe_points := base_path +:+ "_probe_point.json".
Definition file_name_voronoi := base_path +:+ "_voronoi.vtp".
Definition file_name_voronoi_smooth := base_path +:+ "_voronoi_smooth.vtp".
Definition file_name_voronoi_surface := base_path +:+ "_voronoi_surface.vtp".
Definition file_name_surface_smooth := base_path +:+ "_smooth.vtp".
Definition file_name_model_flow_ext := base_path +:+ "_flowext.vtp".
Definition file_name_clipped_model := base_path +:+ "_clippedmodel.vtp".
Definition file_name_flow_centerlines := base_path +:+ "_flow_cl.vtp".
Definition file_name_surface_name := base_path +:+ "_remeshed_surface.vtp".
Definition file_name_xml_mesh := base_path +:+ ".xml".
Definition file_name_vtu_mesh := base_path +:+ ".vtu".
Definition file_name_hdf5_mesh := base_path +:+ ".h5".
Definition file_name_xdmf_mesh := base_path +:+ ".xdmf".
Definition file_name_edge_length_xdmf := base_path +:+ "_edge_length.xdmf".

(** [file_name_region_centerlines.format(i)]. *)
Definition file_name_region_centerline (i : nat) : string :=
  base_path +:+ "_sac_centerline_" +:+ pretty i +:+ ".vtp".

(** *** The parameter file *)

(** [get_parameters(base_path)]: the stored dictionary, empty when there is
    no parameter file. *)
Definition get_parameters (s : stage) : M parameters :=
  emit s (Call "get_parameters") ;;;
  fun w =>
    match files w !! file_name_parameters with
    | Some (Json d) => (Returned d, w)
    | _ => (Returned ∅, w)
    end.

(** [write_parameters(data, base_path)]: the entries of [data] are added to
    the stored dictionary. *)
Definition write_parameters (s : stage) (data : parameters) : M unit :=
  let* old := get_parameters s in
  emit s (Write file_name_parameters) ;;;
  store file_name_parameters (Json (data ∪ old)).

(** *** Removing files (lines 109-122 and 532-541) *)

(** [for file in files_to_remove: if path.exists(file): remove(file)]. *)
Fixpoint remove_existing (s : stage) (files_to_remove : list string) : M unit :=
  match files_to_remove with
  | [] => ret tt
  | file :: rest =>
      let* found := isfile file in
      (if found then remove s file else ret tt) ;;;
      remove_existing s rest
  end.

Definition files_to_remove_all : list string :=
  [file_name_centerlines; file_name_refine_region_centerlines;
   file_name_region_centerlines;
   file_name_distance_to_sphere_diam; file_name_distance_to_sphere_const;
   file_name_distance_to_sphere_curv;
   file_name_distance_to_sphere_spheres;
   file_name_distance_to_sphere_solid_thickness;
   file_name_parameters; file_name_probe_points;
   file_name_voronoi; file_name_voronoi_smooth; file_name_voronoi_surface;
   file_name_surface_smooth;
   file_name_model_flow_ext; file_name_clipped_model;
   file_name_flow_centerlines; file_name_surface_name;
   file_name_xml_mesh; file_name_vtu_mesh; file_name_hdf5_mesh;
   file_name_xdmf_mesh].

Definition remove_all_files : M unit :=
  if remove_all args then remove_existing Setup files_to_remove_all else ret tt.

Definition files_to_remove : list string :=
  [file_name_centerlines; file_name_refine_region_centerlines;
   file_name_region_centerlines;
   file_name_distance_to_sphere_diam; file_name_distance_to_sphere_const;
   file_name_distance_to_sphere_curv;
   file_name_voronoi; file_name_voronoi_smooth; file_name_voronoi_surface;
   file_name_surface_smooth;
   file_name_model_flow_ext; file_name_clipped_model;
   file_name_flow_centerlines; file_name_surface_name].

(** "Removing unused pre-processing files". *)
Definition remove_unused_files : M unit :=
  remove_existing Finish files_to_remove.

(** *** Loading, scaling and clipping (lines 124-146) *)

Definition load_model : M (polydata * float) :=
  let* surface := read_polydata Setup (input_model args) in
  match scale_factor args with
  | Some factor =>
      let* surface := call Setup "scale_surface" (scale_surface surface factor) in
      ret (surface, (resampling_step args * factor)%float)
  | None => ret (surface, resampling_step args)
  end.

(** Lines 137-146: the clipped model, computed or read back. *)
Definition uncap_surface (surface : polydata) : M polydata :=
  let* found := isfile file_name_clipped_model in
  if negb found then
    let* surface := call Setup "get_uncapped_surface" (get_uncapped_surface surface) in
    write_polydata Setup surface file_name_clipped_model ;;;
    ret surface
  else read_polydata Setup file_name_clipped_model.

Definition clip_model (surface : polydata) : M polydata :=
  let* is_capped :=
    call Setup "check_if_closed_surface" (check_if_closed_surface surface) in
  if is_capped then uncap_surface surface else ret surface.

(** *** Surface check (lines 148-165) *)

Definition check_surface (surface : polydata) : M (polydata * parameters) :=
  let* parameters := get_parameters Cleaning in
  if bool_decide (is_Some (parameters !! "check_surface")) then
    ret (surface, parameters)
  else
    let* surface := call Cleaning "vtk_clean_polydata" (vtk_clean_polydata surface) in
    let* surface :=
      call Cleaning "vtk_triangulate_surface" (vtk_triangulate_surface surface) in
    call Cleaning "print_surface_info" tt ;;;
    let* '(surface, _) :=
      call Cleaning "find_and_delete_nan_triangles"
           (find_and_delete_nan_triangles surface) in
    let* surface := call Cleaning "clean_surface" (clean_surface surface) in
    let* '(surface, foundNaN) :=
      call Cleaning "find_and_delete_nan_triangles"
           (find_and_delete_nan_triangles surface) in
    if foundNaN : bool then raise RuntimeError
    else
      let parameters := <["check_surface" := 1%Z]> parameters in
      write_parameters Cleaning parameters ;;;
      ret (surface, parameters).

(** *** Centerlines (lines 170-185) *)

(** [get_centers_for_meshing(surface, has_multiple_inlets, base_path, ...)]:
    the centers are kept in the parameter file. *)
Definition centers_for_meshing (s : stage) (surface : polydata)
    (use_flow_extensions : bool) : M (list float * list float) :=
  let* stored := get_parameters s in
  let '(inlet, outlets, found) :=
    get_centers_for_meshing surface (has_multiple_inlets args) stored
                            use_flow_extensions in
  emit s (Call "get_centers_for_meshing") ;;;
  write_parameters s found ;;;
  ret (inlet, outlets).

(** [compute_centerlines(source, target, path, capped_surface, resampling=...)]
    of morphman: centerlines found under [path] are read back, otherwise
    they are computed and written there. *)
Definition compute_centerlines (s : stage) (source target : list float)
    (path : string) (capped_surface : polydata) (resampling : float)
  : M polydata :=
  let* found := isfile path in
  if found then read_polydata s path
  else
    let* centerlines :=
      call s "compute_centerlines"
           (vmtk_compute_centerlines source target capped_surface resampling) in
    write_polydata s centerlines path ;;;
    ret centerlines.

(** The variables the later stages use. *)
Record centerline_data := {
  cd_capped_surface : polydata;
  cd_inlet : list float;
  cd_outlets : list float;
  cd_has_outlet : bool;
  cd_source : list float;
  cd_target : list float;
  cd_centerlines : polydata;
  cd_tol : float
}.

Definition get_centerlines (surface capped_surface : polydata)
    (resampling_step : float) : M centerline_data :=
  let* '(inlet, outlets) := centers_for_meshing CenterlineExtraction surface false in
  let has_outlet := negb (Nat.eqb (length outlets) 0) in
  let* outlets :=
    if negb has_outlet
    then call CenterlineExtraction "get_furtest_surface_point"
              (get_furtest_surface_point inlet surface)
    else ret outlets in
  let source := if has_multiple_inlets args then outlets else inlet in
  let target := if has_multiple_inlets args then inlet else outlets in
  let* centerlines :=
    compute_centerlines CenterlineExtraction source target file_name_centerlines
                        capped_surface resampling_step in
  let* tol :=
    call CenterlineExtraction "get_centerline_tolerance"
         (get_centerline_tolerance centerlines) in
  ret {| cd_capped_surface := capped_surface; cd_inlet := inlet;
         cd_outlets := outlets; cd_has_outlet := has_outlet;
         cd_source := source; cd_target := target;
         cd_centerlines := centerlines; cd_tol := tol |}.

(** *** Regions to refine (lines 187-234) *)

(** [for j in range(n - 1, 0, -1): ... if dist <= tol: break]: the value of
    [j] after the loop, starting from the value [j] had before it; [k]
    counts the indices still to visit, the next one being [k]. *)
Fixpoint find_start_id (line centerlines : polydata) (tol : float)
    (k : nat) (j : option Z) : option Z :=
  match k with
  | O => j
  | S k' =>
      let j := Z.of_nat k in
      if PrimFloat.leb (distance_to_closest_point line centerlines j) tol
      then Some j
      else find_start_id line centerlines tol k' (Some j)
  end.

(** The loop over the regions (lines 206-225); [j] is the loop variable of
    the inner loop, which Python keeps from one region to the next. *)
Fixpoint region_lines (centerline_region centerlines : polydata) (tol : float)
    (regions : list nat) (j : option Z) (refine_region_centerline : list polydata)
  : M (list polydata) :=
  match regions with
  | [] => ret refine_region_centerline
  | i :: rest =>
      let* found := isfile (file_name_region_centerline i) in
      if negb found then
        let* line :=
          call CenterlineExtraction "extract_single_line"
               (extract_single_line centerline_region (Z.of_nat i) None None) in
        let j := find_start_id line centerlines tol
                   (Z.to_nat (GetNumberOfPoints line - 1)) j in
        match j with
        | None => raise NameError
        | Some start_id =>
            let* tmp :=
              call CenterlineExtraction "extract_single_line"
                   (extract_single_line line 0 (Some start_id) None) in
            write_polydata CenterlineExtraction tmp (file_name_region_centerline i) ;;;
            region_lines centerline_region centerlines tol rest j
                         (refine_region_centerline ++ [tmp])
        end
      else
        let* tmp := read_polydata CenterlineExtraction (file_name_region_centerline i) in
        region_lines centerline_region centerlines tol rest j
                     (refine_region_centerline ++ [tmp])
  end.

Record region_data := {
  rd_region_centerlines : option polydata;
  rd_region_center : list (list float);
  rd_misr_max : list float
}.

Definition refine_regions (cd : centerline_data) (resampling_step : float)
  : M region_data :=
  if refine_region args then
    let* stored := get_parameters CenterlineExtraction in
    let '(regions, found) :=
      get_regions_to_refine (cd_capped_surface cd) (region_points args) stored in
    emit CenterlineExtraction (Call "get_regions_to_refine") ;;;
    write_parameters CenterlineExtraction found ;;;
    let* centerline_region :=
      compute_centerlines CenterlineExtraction (cd_source cd) regions
                          file_name_refine_region_centerlines
                          (cd_capped_surface cd) resampling_step in
    let* info := get_parameters CenterlineExtraction in
    match info !! "number_of_regions" with
    | None => raise KeyError
    | Some num_anu =>
        let* refine_region_centerline :=
          region_lines centerline_region (cd_centerlines cd) (cd_tol cd)
                       (seq 0 (Z.to_nat num_anu)) None [] in
        let* region_centerlines :=
          call CenterlineExtraction "vtk_merge_polydata"
               (vtk_merge_polydata refine_region_centerline) in
        let region_factor :=
          if has_multiple_inlets args then 0x1.ccccccccccccdp-1%float
          else 0.5%float in
        ret {| rd_region_centerlines := Some region_centerlines;
               rd_region_center :=
                 map (fun region => region_point region region_factor)
                     refine_region_centerline;
               rd_misr_max := map max_radius refine_region_centerline |}
    end
  else ret {| rd_region_centerlines := None; rd_region_center := [];
              rd_misr_max := [] |}.

(** *** Smoothing (lines 236-298) *)

Definition smooth_voronoi (surface : polydata) (cd : centerline_data)
    (rd : region_data) : M polydata :=
  let* found := isfile file_name_surface_smooth in
  if negb found then
    let* found_voronoi := isfile file_name_voronoi in
    let* voronoi :=
      if negb found_voronoi then
        let* voronoi :=
          call Smoothing "vmtk_compute_voronoi_diagram"
               (vmtk_compute_voronoi_diagram (cd_capped_surface cd)) in
        write_polydata Smoothing voronoi file_name_voronoi ;;;
        ret voronoi
      else read_polydata Smoothing file_name_voronoi in
    let* found_smooth := isfile file_name_voronoi_smooth in
    let* voronoi_smoothed :=
      if negb found_smooth then
        let* voronoi_smoothed :=
          call Smoothing "smooth_voronoi_diagram"
               (smooth_voronoi_diagram voronoi (cd_centerlines cd) (smoothing_factor args)
                                       (rd_region_centerlines rd)) in
        write_polydata Smoothing voronoi_smoothed file_name_voronoi_smooth ;;;
        ret voronoi_smoothed
      else read_polydata Smoothing file_name_voronoi_smooth in
    let* surface_smoothed :=
      call Smoothing "create_new_surface" (create_new_surface voronoi_smoothed) in
    let* surface_uncapped :=
      call Smoothing "prepare_output_surface"
           (prepare_output_surface surface_smoothed surface (cd_centerlines cd)) in
    let num_outlets := GetNumberOfLines (cd_centerlines cd) in
    let* '(_, outlets) :=
      call Smoothing "compute_centers" (compute_centers surface_uncapped) in
    let num_outlets_after := (Z.of_nat (length outlets) / 3)%Z in
    if negb (Z.eqb num_outlets num_outlets_after) then
      write_polydata Smoothing surface file_name_surface_smooth ;;;
      sys_exit (-1)
    else
      let surface := surface_uncapped in
      let* surface :=
        call Smoothing "vmtk_smooth_surface"
             (vmtk_smooth_surface surface "laplace" 200) in
      write_polydata Smoothing surface file_name_surface_smooth ;;;
      ret surface
  else read_polydata Smoothing file_name_surface_smooth.

(** Lines 288-295: Laplace or Taubin smoothing. *)
Definition smooth_laplace_taubin (surface : polydata) : M polydata :=
  let* found := isfile file_name_surface_smooth in
  if negb found then
    let* surface :=
      call Smoothing "vmtk_smooth_surface"
           (vmtk_smooth_surface surface (smoothing_method args)
                                (smoothing_iterations args)) in
    write_polydata Smoothing surface file_name_surface_smooth ;;;
    ret surface
  else read_polydata Smoothing file_name_surface_smooth.

Definition smooth_surface (surface : polydata) (cd : centerline_data)
    (rd : region_data) : M polydata :=
  if String.eqb (smoothing_method args) "voronoi" then smooth_voronoi surface cd rd
  else if String.eqb (smoothing_method args) "laplace"
          || String.eqb (smoothing_method args) "taubin" then
    smooth_laplace_taubin surface
  else ret surface.

(** *** Flow extensions (lines 300-349) *)

(** Lines 302-323: the model with flow extensions, computed or read back. *)
Definition add_extensions (surface : polydata) (cd : centerline_data)
  : M polydata :=
  let* found := isfile file_name_model_flow_ext in
  if negb found then
    let extension :=
      if has_multiple_inlets args then "centerlinedirection" else "boundarynormal" in
    let '(inlet_flow_extension_length, outlet_flow_extension_length) :=
      if has_multiple_inlets args
      then (outlet_flow_extension_length args, inlet_flow_extension_length args)
      else (inlet_flow_extension_length args, outlet_flow_extension_length args) in
    let* surface_extended :=
      call FlowExtension "add_flow_extension"
           (add_flow_extension surface (cd_centerlines cd) true
                               inlet_flow_extension_length (Some extension)) in
    let* surface_extended :=
      call FlowExtension "add_flow_extension"
           (add_flow_extension surface_extended (cd_centerlines cd) false
                               outlet_flow_extension_length None) in
    let* surface_extended :=
      call FlowExtension "vmtk_smooth_surface"
           (vmtk_smooth_surface surface_extended "laplace" 200) in
    write_polydata FlowExtension surface_extended file_name_model_flow_ext ;;;
    ret surface_extended
  else read_polydata FlowExtension file_name_model_flow_ext.

Definition extend_surface (surface : polydata) (cd : centerline_data)
  : M polydata :=
  if add_flow_extensions args then add_extensions surface cd else ret surface.

(** The centerlines of the extended model; [inlet] may be replaced on the
    way. *)
Definition extended_centerlines (surface_extended capped_surface : polydata)
    (cd : centerline_data) (resampling_step : float)
  : M (polydata * list float) :=
  let* found := isfile file_name_flow_centerlines in
  if negb found then
    let* '(inlet, outlets) :=
      let* '(inlet, outlets) :=
        centers_for_meshing FlowExtension surface_extended true in
      if cd_has_outlet cd then ret (inlet, outlets)
      else ret (inlet, cd_outlets cd) in
    let source := if has_multiple_inlets args then outlets else inlet in
    let target := if has_multiple_inlets args then inlet else outlets in
    let* centerlines :=
      compute_centerlines FlowExtension source target file_name_flow_centerlines
                          capped_surface resampling_step in
    ret (centerlines, inlet)
  else
    let* centerlines := read_polydata FlowExtension file_name_flow_centerlines in
    ret (centerlines, cd_inlet cd).

Definition flow_centerlines (surface_extended capped_surface : polydata)
    (cd : centerline_data) (resampling_step : float)
  : M (polydata * list float) :=
  if add_flow_extensions args then
    extended_centerlines surface_extended capped_surface cd resampling_step
  else ret (cd_centerlines cd, cd_inlet cd).

(** Lines 351-360. *)
Definition clip_centerline (centerlines : polydata) (cd : centerline_data)
  : M polydata :=
  if negb (cd_has_outlet cd) then
    let* line :=
      call FlowExtension "extract_single_line"
           (extract_single_line centerlines 0 None None) in
    let* line :=
      call FlowExtension "vmtk_compute_geometric_features"
           (vmtk_compute_geometric_features line) in
    let n_id := frenet_tangent_id line in
    call FlowExtension "extract_single_line"
         (extract_single_line centerlines 0 None
            (Some (GetNumberOfPoints centerlines - n_id - 1)%Z))
  else ret centerlines.

(** *** Distance to sphere (lines 362-428) *)

(** Modelled from the spec: the distance-field helpers ([dist_sphere_*] of
    VaMPy, [dist_sphere_spheres] and [distance_to_spheres_solid_thickness]
    of [preprocessing_common]) are not among the sources; under the
    file-based checkpointing of the spec each stores the field it computed
    under the file name it is given and returns it. *)
Definition distance_field (name : string) (field : polydata) (path : string)
  : M polydata :=
  emit DistanceField (Call name) ;;;
  write_polydata DistanceField field path ;;;
  ret field.

(** [parameters[0] *= factor; parameters[2] *= factor; parameters[3] *= factor]. *)
Definition scale_offset_min_max (factor : float) (parameters : list float)
  : list float :=
  alter (fun v => (v * factor)%float) 3
    (alter (fun v => (v * factor)%float) 2
       (alter (fun v => (v * factor)%float) 0 parameters)).

(** Lines 365-369. *)
Definition distance_constant (surface_extended centerlines : polydata)
    (rd : region_data) : M polydata :=
  let* found := isfile file_name_distance_to_sphere_const in
  if negb found then
    distance_field "dist_sphere_constant"
      (dist_sphere_constant surface_extended centerlines (rd_region_center rd)
                            (rd_misr_max rd) (edge_length args))
      file_name_distance_to_sphere_const
  else read_polydata DistanceField file_name_distance_to_sphere_const.

(** Lines 372-376. *)
Definition distance_curvature (surface_extended centerlines : polydata)
    (rd : region_data) : M polydata :=
  let* found := isfile file_name_distance_to_sphere_curv in
  if negb found then
    distance_field "dist_sphere_curvature"
      (dist_sphere_curvature surface_extended centerlines (rd_region_center rd)
                             (rd_misr_max rd) (coarsening_factor args))
      file_name_distance_to_sphere_curv
  else read_polydata DistanceField file_name_distance_to_sphere_curv.

(** Lines 378-382. *)
Definition distance_diameter (surface_extended centerlines : polydata)
    (rd : region_data) : M polydata :=
  let* found := isfile file_name_distance_to_sphere_diam in
  if negb found then
    distance_field "dist_sphere_diam"
      (dist_sphere_diam surface_extended centerlines (rd_region_center rd)
                        (rd_misr_max rd) (coarsening_factor args))
      file_name_distance_to_sphere_diam
  else read_polydata DistanceField file_name_distance_to_sphere_diam.

(** Lines 384-397. *)
Definition distance_spheres (surface_extended : polydata) : M polydata :=
  let* found := isfile file_name_distance_to_sphere_spheres in
  if negb found then
    if Nat.eqb (length (meshing_parameters args)) 4 then
      let meshing_parameters :=
        match scale_factor args with
        | Some factor => scale_offset_min_max factor (meshing_parameters args)
        | None => meshing_parameters args
        end in
      distance_field "dist_sphere_spheres"
        (dist_sphere_spheres surface_extended meshing_parameters)
        file_name_distance_to_sphere_spheres
    else sys_exit (-1)
  else read_polydata DistanceField file_name_distance_to_sphere_spheres.

(** [distance_to_sphere] stays unbound when the meshing method is none of
    the four. *)
Definition compute_distance_to_sphere (surface_extended centerlines : polydata)
    (rd : region_data) : M (option polydata) :=
  if String.eqb (meshing_method args) "constant" then
    let* distance_to_sphere := distance_constant surface_extended centerlines rd in
    ret (Some distance_to_sphere)
  else if String.eqb (meshing_method args) "curvature" then
    let* distance_to_sphere := distance_curvature surface_extended centerlines rd in
    ret (Some distance_to_sphere)
  else if String.eqb (meshing_method args) "diameter" then
    let* distance_to_sphere := distance_diameter surface_extended centerlines rd in
    ret (Some distance_to_sphere)
  else if String.eqb (meshing_method args) "distancetospheres" then
    let* distance_to_sphere := distance_spheres surface_extended in
    ret (Some distance_to_sphere)
  else ret None.

(** Reading a local variable that may be unbound. *)
Definition bound {A : Type} (variable : option A) : M A :=
  match variable with
  | Some v => ret v
  | None => raise NameError
  end.

(** Lines 401-419: the field of the variable solid thickness and the
    thickness parameters, scaled when the field is computed. *)
Definition variable_thickness (distance_to_sphere : option polydata)
  : M (polydata * list float) :=
  let* found := isfile file_name_distance_to_sphere_solid_thickness in
  if negb found then
    if Nat.eqb (length (solid_thickness_parameters args)) 4 then
      let solid_thickness_parameters :=
        match scale_factor args with
        | Some factor => scale_offset_min_max factor (solid_thickness_parameters args)
        | None => solid_thickness_parameters args
        end in
      let* distance_to_sphere := bound distance_to_sphere in
      let* distance_to_sphere :=
        distance_field "distance_to_spheres_solid_thickness"
          (distance_to_spheres_solid_thickness distance_to_sphere
                                               solid_thickness_parameters)
          file_name_distance_to_sphere_solid_thickness in
      ret (distance_to_sphere, solid_thickness_parameters)
    else if Nat.eqb (length (solid_thickness_parameters args)) 0 then
      let* distance_to_sphere := bound distance_to_sphere in
      let* distance_to_sphere :=
        distance_field "distance_to_spheres_solid_thickness"
          (distance_to_spheres_solid_thickness distance_to_sphere [])
          file_name_distance_to_sphere_solid_thickness in
      ret (distance_to_sphere, solid_thickness_parameters args)
    else sys_exit (-1)
  else
    let* distance_to_sphere :=
      read_polydata DistanceField file_name_distance_to_sphere_solid_thickness in
    ret (distance_to_sphere, solid_thickness_parameters args).

(** Lines 399-428: the field and the thickness parameters handed to the
    mesh generation. *)
Definition solid_thickness_field (distance_to_sphere : option polydata)
  : M (option polydata * list float) :=
  if String.eqb (solid_thickness args) "variable" then
    let* '(distance_to_sphere, solid_thickness_parameters) :=
      variable_thickness distance_to_sphere in
    ret (Some distance_to_sphere, solid_thickness_parameters)
  else
    match solid_thickness_parameters args with
    | [thickness] =>
        if PrimFloat.leb thickness 0 then sys_exit (-1)
        else
          match scale_factor args with
          | Some factor => ret (distance_to_sphere, [(thickness * factor)%float])
          | None => ret (distance_to_sphere, solid_thickness_parameters args)
          end
    | _ => sys_exit (-1)
    end.

(** *** Mesh generation (lines 430-489) *)

(** The nested function [try_generate_mesh]: a [RuntimeError] of
    [generate_mesh] becomes [None], any other exception escapes. *)
Definition try_generate_mesh (distance_to_sphere : polydata)
    (solid_thickness_parameters : list float) : M (option (polydata * polydata)) :=
  emit MeshGeneration (Call "generate_mesh") ;;;
  fun w =>
    let w' := {| files := files w; log := log w;
                 mesh_attempts := S (mesh_attempts w) |} in
    match generate_mesh (mesh_attempts w) distance_to_sphere
            (number_of_sublayers_fluid args) (number_of_sublayers_solid args)
            (solid_thickness args) solid_thickness_parameters with
    | Returned mesh_and_surface => (Returned (Some mesh_and_surface), w')
    | Raised RuntimeError => (Returned None, w')
    | Raised e => (Raised e, w')
    | Exited status => (Exited status, w')
    end.

(** [for i in range(...): ...; if mesh_and_surface: ...; break], with
    [attempts] iterations left. *)
Fixpoint generate_mesh_attempts (attempts : nat) (distance_to_sphere : polydata)
    (solid_thickness_parameters : list float) : M (option (polydata * polydata)) :=
  match attempts with
  | O => ret None
  | S attempts' =>
      let* mesh_and_surface :=
        try_generate_mesh distance_to_sphere solid_thickness_parameters in
      match mesh_and_surface with
      | Some _ => ret mesh_and_surface
      | None =>
          generate_mesh_attempts attempts' distance_to_sphere
                                 solid_thickness_parameters
      end
  end.

(** Lines 444-467: the retries, the fallback and the two assertions. *)
Definition generate_mesh_with_fallback (distance_to_sphere : polydata)
    (solid_thickness_parameters : list float) : M (polydata * polydata) :=
  let* mesh_and_surface :=
    generate_mesh_attempts (Z.to_nat (mesh_generation_retries args + 1))
                           distance_to_sphere solid_thickness_parameters in
  let* '(mesh, remeshed_surface) :=
    match mesh_and_surface with
    | Some mesh_and_surface => ret mesh_and_surface
    | None =>
        let* distance_to_sphere :=
          call MeshGeneration "mesh_alternative"
               (mesh_alternative distance_to_sphere) in
        let* mesh_and_surface :=
          try_generate_mesh distance_to_sphere solid_thickness_parameters in
        match mesh_and_surface with
        | Some mesh_and_surface => ret mesh_and_surface
        | None => sys_exit (-1)
        end
    end in
  assert (0 <? GetNumberOfPoints mesh)%Z ;;;
  assert (0 <? GetNumberOfPoints remeshed_surface)%Z ;;;
  ret (mesh, remeshed_surface).

(** [write_mesh] of VaMPy: the remeshed surface, the VTU mesh and the XML
    mesh, the latter compressed on request. *)
Definition write_mesh (mesh remeshed_surface : polydata) : M unit :=
  emit MeshGeneration (Call "write_mesh") ;;;
  write_polydata MeshGeneration remeshed_surface file_name_surface_name ;;;
  write_polydata MeshGeneration mesh file_name_vtu_mesh ;;;
  write_binary MeshGeneration
    (if compress_mesh args then file_name_xml_mesh +:+ ".gz" else file_name_xml_mesh).

(** Lines 469-487: the files of the mesh and the ids in the parameter file;
    returns the mesh and the name of the XML mesh file. *)
Definition store_mesh (mesh remeshed_surface : polydata) (parameters : parameters)
  : M (polydata * string) :=
  let* file_name_xml_mesh :=
    if String.eqb (mesh_format args) "xml" || String.eqb (mesh_format args) "hdf5" then
      write_mesh mesh remeshed_surface ;;;
      ret (if compress_mesh args then file_name_xml_mesh +:+ ".gz"
           else file_name_xml_mesh)
    else
      write_polydata MeshGeneration remeshed_surface file_name_surface_name ;;;
      write_polydata MeshGeneration mesh file_name_vtu_mesh ;;;
      ret file_name_xml_mesh in
  let parameters :=
    <["solid_volume_id" := solid_volume_id args]>
      (<["fluid_volume_id" := fluid_volume_id args]>
         (<["solid_outer_wall_id" := solid_outer_wall_id args]>
            (<["interface_fsi_id" := interface_fsi_id args]>
               (<["solid_side_wall_id" := solid_side_wall_id args]> parameters)))) in
  write_parameters MeshGeneration parameters ;;;
  ret (mesh, file_name_xml_mesh).

(** Lines 430-489: the mesh and the name of the XML mesh file. *)
Definition compute_mesh (distance_to_sphere : option polydata)
    (solid_thickness_parameters : list float) (parameters : parameters)
  : M (polydata * string) :=
  let* found := isfile file_name_vtu_mesh in
  if negb found then
    let* distance_to_sphere := bound distance_to_sphere in
    let* '(mesh, remeshed_surface) :=
      generate_mesh_with_fallback distance_to_sphere solid_thickness_parameters in
    store_mesh mesh remeshed_surface parameters
  else
    let* mesh := read_polydata MeshGeneration file_name_vtu_mesh in
    ret (mesh, file_name_xml_mesh).

(** Lines 491-508. *)
Definition convert_mesh (file_name_xml_mesh : string) : M unit :=
  if String.eqb (mesh_format args) "hdf5" then
    emit MeshGeneration (Call "convert_xml_mesh_to_hdf5") ;;;
    write_binary MeshGeneration file_name_hdf5_mesh ;;;
    emit MeshGeneration (Call "edge_length_evaluator") ;;;
    write_binary MeshGeneration file_name_edge_length_xdmf ;;;
    call MeshGeneration "load_mesh_and_data" tt ;;;
    call MeshGeneration "print_mesh_summary" tt
  else if String.eqb (mesh_format args) "xdmf" then
    emit MeshGeneration (Call "convert_vtu_mesh_to_xdmf") ;;;
    write_binary MeshGeneration file_name_xdmf_mesh ;;;
    emit MeshGeneration (Call "edge_length_evaluator") ;;;
    write_binary MeshGeneration file_name_edge_length_xdmf
  else ret tt.

(** *** Flow rates and boundary ids (lines 510-519) *)

Definition set_boundary_ids (centerlines mesh : polydata) (inlet : list float)
    (rd : region_data) : M (network * list float * float) :=
  let '(network, probe_points) :=
    setup_model_network centerlines (rd_region_center rd) (has_multiple_inlets args) in
  emit BoundaryIds (Call "setup_model_network") ;;;
  write_binary BoundaryIds file_name_probe_points ;;;
  let* parameters := get_parameters BoundaryIds in
  let* mean_inflow_rate :=
    call BoundaryIds "compute_flow_rate"
         (compute_flow_rate (has_multiple_inlets args) inlet parameters
                            (flow_rate_factor args)) in
  emit BoundaryIds (Call "find_boundaries") ;;;
  write_parameters BoundaryIds
    (find_boundaries mean_inflow_rate network mesh (has_multiple_inlets args)) ;;;
  ret (network, probe_points, mean_inflow_rate).

(** Lines 521-530. *)
Definition visualize_and_simulate : M unit :=
  (if visualize args then call Finish "visualize_model" tt else ret tt) ;;;
  match config_path args with
  | Some _ => call Finish "run_simulation" tt
  | None => ret tt
  end.

(** *** The pipeline *)

(** Everything up to, and not including, the final removal of files. *)
Definition run_stages : M unit :=
  remove_all_files ;;;
  let* '(surface, resampling_step) := load_model in
  let* surface := clip_model surface in
  let* '(surface, parameters) := check_surface surface in
  let* capped_surface :=
    call Capping "vmtk_cap_polydata" (vmtk_cap_polydata surface) in
  let* cd := get_centerlines surface capped_surface resampling_step in
  let* rd := refine_regions cd resampling_step in
  let* surface := smooth_surface surface cd rd in
  let* surface_extended := extend_surface surface cd in
  let* capped_surface :=
    call FlowExtension "vmtk_cap_polydata" (vmtk_cap_polydata surface_extended) in
  let* '(centerlines, inlet) :=
    flow_centerlines surface_extended capped_surface cd resampling_step in
  let* centerlines := clip_centerline centerlines cd in
  let* distance_to_sphere :=
    compute_distance_to_sphere surface_extended centerlines rd in
  let* '(distance_to_sphere, solid_thickness_parameters) :=
    solid_thickness_field distance_to_sphere in
  let* '(mesh, file_name_xml_mesh) :=
    compute_mesh distance_to_sphere solid_thickness_parameters parameters in
  convert_mesh file_name_xml_mesh ;;;
  set_boundary_ids centerlines mesh inlet rd ;;;
  visualize_and_simulate.

Definition run_pre_processing : M unit :=
  run_stages ;;;
  remove_unused_files.

End Run.

End Pipeline.

End Preprocessing.

(* ===================================================================== *)
(** * avf.py: the inlet normals of create_bcs and the solver loop         *)
(* ===================================================================== *)

Module AvfSetup.
Import Avf.

Local Open Scope R_scope.

(** Lines 258-263 of [create_bcs]: [ni] is the facet normal integrated over
    the inlet, [n_len = np.sqrt(sum([ni[i]**2 for i in range(ndim)]))] and
    [normal = ni / n_len]. For [n_len = 0] numpy returns an array of [nan]
    (with a warning); there is no normal then, which is [None] here. *)
Definition unit_normal (ni : vec3) : option vec3 :=
  let '(ni0, ni1, ni2) := ni in
  let n_len := sqrt (0 + ni0 ^ 2 + ni1 ^ 2 + ni2 ^ 2) in
  if Req_dec_T n_len 0 then None
  else Some (ni0 / n_len, ni1 / n_len, ni2 / n_len).

(** The three expressions as [create_bcs] constructs them (lines 280-294):
    all at [t = 0.0] with the same [dt]; the integrated normals, the areas
    and the barycenters come from FEniCS and the waveforms from
    [np.interp]. *)
Definition create_expressions (dt vel_t_ramp p_t_ramp_start p_t_ramp_end : R)
    (ni1 ni2 : vec3) (A1 A2 : R) (c1 c2 : vec3) (interp_PA interp_DA interp_P : list R)
  : option (VelIn1Para.self * VelIn2Para.self * InnerP.self) :=
  normal1 ← unit_normal ni1;
  normal2 ← unit_normal ni2;
  u_inflow_exp1 ← VelIn1Para.init 0 dt vel_t_ramp normal1 A1 c1 interp_PA;
  u_inflow_exp2 ← VelIn2Para.init 0 dt vel_t_ramp normal2 A2 c2 interp_DA;
  p_out_bc_val ← InnerP.init 0 dt p_t_ramp_start p_t_ramp_end interp_P;
  Some (u_inflow_exp1, u_inflow_exp2, p_out_bc_val).

(** The solver calls [pre_solve] once per time step: the expressions after
    the calls with the times [ts]. *)
Fixpoint pre_solve_steps (ts : list R)
    (expressions : VelIn1Para.self * VelIn2Para.self * InnerP.self)
  : option (VelIn1Para.self * VelIn2Para.self * InnerP.self) :=
  match ts with
  | [] => Some expressions
  | t :: ts' =>
      let '(u_inflow_exp1, u_inflow_exp2, p_out_bc_val) := expressions in
      expressions ← pre_solve t u_inflow_exp1 u_inflow_exp2 p_out_bc_val;
      pre_solve_steps ts' expressions
  end.

End AvfSetup.

(* ===================================================================== *)
(** * automated_preprocessing.py: the base path (lines 78-83)             *)
(* ===================================================================== *)

Module PreprocessingPaths.
Import Stdlib.Strings.Ascii.

(** [c in s]. *)
Fixpoint occurs (c : Ascii.ascii) (s : string) : bool :=
  match s with
  | EmptyString => false
  | String c' s' => Ascii.eqb c' c || occurs c s'
  end.

(** [s.rsplit(sep, 1)] when [sep] occurs in [s]: the text before and the
    text after its last occurrence; [None] when [sep] does not occur, where
    Python returns the one-element list [[s]]. *)
Fixpoint rsplit_once (sep : Ascii.ascii) (s : string) : option (string * string) :=
  match s with
  | EmptyString => None
  | String c s' =>
      match rsplit_once sep s' with
      | Some (before, after) => Some (String c before, after)
      | None => if Ascii.eqb c sep then Some (EmptyString, s') else None
      end
  end.

(** [s.rsplit(sep)[0]]: the text before the first [sep]. *)
Fixpoint before_first (sep : Ascii.ascii) (s : string) : string :=
  match s with
  | EmptyString => EmptyString
  | String c s' => if Ascii.eqb c sep then EmptyString else String c (before_first sep s')
  end.

Fixpoint last_char (s : string) : option Ascii.ascii :=
  match s with
  | EmptyString => None
  | String c EmptyString => Some c
  | String _ s' => last_char s'
  end.

Definition startswith (c : Ascii.ascii) (s : string) : bool :=
  match s with
  | String c' _ => Ascii.eqb c' c
  | EmptyString => false
  end.

Definition endswith (c : Ascii.ascii) (s : string) : bool :=
  match last_char s with
  | Some c' => Ascii.eqb c' c
  | None => false
  end.

(** [os.path.join(a, b)] of [posixpath]: [b] when it is absolute, [a + b]
    when [a] is empty or ends with the separator, [a + "/" + b]
    otherwise. *)
Definition path_join (a b : string) : string :=
  if startswith "/"%char b then b
  else if String.eqb a "" || endswith "/"%char a then a +:+ b
  else a +:+ "/" +:+ b.

(** Lines 78-83, with [path.sep = "/"]:
    [case_name = input_model.rsplit(path.sep, 1)[-1].rsplit('.')[0]],
    [dir_path = input_model.rsplit(path.sep, 1)[0]] and
    [base_path = path.join(dir_path, case_name)]. *)
Definition case_name (input_model : string) : string :=
  let last :=
    match rsplit_once "/"%char input_model with
    | Some (_, after) => after
    | None => input_model
    end in
  before_first "."%char last.

Definition dir_path (input_model : string) : string :=
  match rsplit_once "/"%char input_model with
  | Some (before, _) => before
  | None => input_model
  end.

Definition base_path (input_model : string) : string :=
  path_join (dir_path input_model) (case_name input_model).

End PreprocessingPaths.

(* ===================================================================== *)
(** * Properties of separate_domain                                       *)
(* ===================================================================== *)

Module SeparateDomainFacts.
Import SeparateDomain.

(** ** [np.unique] *)

Lemma insert_unique_In x l v : In v (insert_unique x l) ↔ v = x ∨ In v l.
Proof.
  induction l as [|y l IH]; simpl.
  - intuition.
  - destruct (Nat.ltb_spec x y) as [Hlt|Hge]; simpl; [intuition|].
    destruct (Nat.eqb_spec x y) as [->|Hne]; simpl; [intuition|].
    rewrite IH. intuition.
Qed.

Lemma insert_unique_sorted x l :
  StronglySorted lt l → StronglySorted lt (insert_unique x l).
Proof.
  induction 1 as [|y l Hs IH Hall]; simpl.
  - repeat constructor.
  - destruct (Nat.ltb_spec x y) as [Hlt|Hge].
    + constructor; [by constructor|].
      constructor; [done|].
      eapply Forall_impl; [exact Hall|]. intros; simpl in *; lia.
    + destruct (Nat.eqb_spec x y) as [->|Hne]; [by constructor|].
      constructor; [done|].
      rewrite List.Forall_forall. intros v Hv. apply insert_unique_In in Hv.
      destruct Hv as [->|Hv]; [lia|].
      rewrite List.Forall_forall in Hall. by apply Hall.
Qed.

Lemma np_unique_sorted topology : StronglySorted lt (np_unique topology).
Proof.
  unfold np_unique. induction (concat topology) as [|x l IH]; simpl.
  - constructor.
  - by apply insert_unique_sorted.
Qed.

Lemma np_unique_In topology v :
  In v (np_unique topology) ↔ ∃ cell, In cell topology ∧ In v cell.
Proof.
  unfold np_unique. rewrite <- in_concat.
  induction (concat topology) as [|x l IH]; simpl; [done|].
  rewrite insert_unique_In, IH. intuition.
Qed.

(** ** Strictly sorted lists of naturals *)

Lemma sorted_nth_offset (l : list nat) :
  StronglySorted lt l → ∀ k, k < length l → nth 0 l 0 + k ≤ nth k l 0.
Proof.
  induction 1 as [|a l Hs IH Hall]; intros k Hk; simpl in *; [lia|].
  destruct k as [|k]; [lia|].
  assert (Hk' : k < length l) by lia.
  specialize (IH k Hk').
  destruct l as [|b l]; simpl in *; [lia|].
  apply Forall_inv in Hall. lia.
Qed.

Lemma sorted_nth_ge (l : list nat) k :
  StronglySorted lt l → k < length l → k ≤ nth k l 0.
Proof. intros Hs Hk. pose proof (sorted_nth_offset l Hs k Hk). lia. Qed.

Lemma sorted_nth_lt (l : list nat) :
  StronglySorted lt l → ∀ i j, i < j → j < length l → nth i l 0 < nth j l 0.
Proof.
  induction 1 as [|a l Hs IH Hall]; intros i j Hij Hj; simpl in *; [lia|].
  destruct j as [|j]; [lia|].
  destruct i as [|i].
  - rewrite List.Forall_forall in Hall. apply Hall, nth_In. lia.
  - apply IH; lia.
Qed.

Lemma sorted_nth_inj (l : list nat) i j :
  StronglySorted lt l → i < length l → j < length l →
  nth i l 0 = nth j l 0 → i = j.
Proof.
  intros Hs Hi Hj Heq.
  destruct (Nat.lt_trichotomy i j) as [Hlt|[->|Hgt]]; [|done|].
  - pose proof (sorted_nth_lt l Hs i j Hlt Hj). lia.
  - pose proof (sorted_nth_lt l Hs j i Hgt Hi). lia.
Qed.

(** ** [rank] *)

Lemma rank_nth (l : list nat) :
  StronglySorted lt l → ∀ i, i < length l → rank l (nth i l 0) = i.
Proof.
  induction 1 as [|a l Hs IH Hall]; intros i Hi; simpl in *; [lia|].
  destruct i as [|i].
  - by rewrite Nat.eqb_refl.
  - assert (Hi' : i < length l) by lia.
    rewrite List.Forall_forall in Hall.
    pose proof (Hall _ (nth_In l 0 Hi')) as Hlt.
    destruct (Nat.eqb_spec (nth i l 0) a) as [Heq|_]; [lia|].
    by rewrite IH.
Qed.

Lemma In_nth_index (l : list nat) v :
  In v l → ∃ i, i < length l ∧ nth i l 0 = v.
Proof. intros Hin. destruct (In_nth l v 0 Hin) as (i & Hi & Hv). eauto. Qed.

Lemma rank_monotone (l : list nat) v w :
  StronglySorted lt l → In v l → In w l → (v < w ↔ rank l v < rank l w).
Proof.
  intros Hs Hv Hw.
  destruct (In_nth_index l v Hv) as (i & Hi & <-).
  destruct (In_nth_index l w Hw) as (j & Hj & <-).
  rewrite !rank_nth by done.
  split; intros Hlt.
  - destruct (Nat.lt_trichotomy i j) as [H|[->|H]]; [done|lia|].
    pose proof (sorted_nth_lt l Hs j i H Hi). lia.
  - by apply sorted_nth_lt.
Qed.

(** ** The renumbering loop *)

(** One pass of the loop seen from a single entry of the array. *)
Definition step_entry (ids : list nat) (v node_id : nat) : nat :=
  if Nat.eqb v (nth node_id ids 0) then node_id else v.

Lemma fold_np_where_eq ids (steps : list nat) topology :
  fold_left (fun topo node_id => np_where_eq topo (nth node_id ids 0) node_id)
            steps topology
  = map (map (fun v => fold_left (step_entry ids) steps v)) topology.
Proof.
  revert topology. induction steps as [|s steps IH]; intros topology; simpl.
  - rewrite <- (map_id topology) at 1. apply map_ext. intros cell.
    by rewrite map_id.
  - rewrite IH. unfold np_where_eq. rewrite map_map.
    apply map_ext. intros cell. rewrite map_map. done.
Qed.

(** After [k] passes the entry that held the [j]-th smallest id holds [j]
    if [j < k] and is still untouched otherwise: no pass ever rewrites an
    index written by an earlier pass. *)
Lemma fold_step_entry ids j k :
  StronglySorted lt ids → j < length ids → k ≤ length ids →
  fold_left (step_entry ids) (seq 0 k) (nth j ids 0)
  = if Nat.ltb j k then j else nth j ids 0.
Proof.
  intros Hs Hj. induction k as [|k IH]; intros Hk.
  - done.
  - rewrite seq_S, fold_left_app, IH by lia. simpl. unfold step_entry.
    destruct (Nat.ltb_spec j k) as [Hlt|Hge].
    + pose proof (sorted_nth_ge ids k Hs ltac:(lia)).
      destruct (Nat.eqb_spec j (nth k ids 0)); [lia|].
      destruct (Nat.ltb_spec j (S k)); [done|lia].
    + destruct (Nat.eqb_spec (nth j ids 0) (nth k ids 0)) as [Heq|Hne].
      * apply sorted_nth_inj in Heq; [|done|done|lia]. subst.
        destruct (Nat.ltb_spec k (S k)); [done|lia].
      * destruct (Nat.ltb_spec j (S k)); [|done].
        assert (j = k) by lia. congruence.
Qed.

Lemma fix_topology_rank ids topology :
  StronglySorted lt ids →
  (∀ cell v, In cell topology → In v cell → In v ids) →
  fix_topology ids topology = map (map (rank ids)) topology.
Proof.
  intros Hs Hin. unfold fix_topology. rewrite fold_np_where_eq.
  apply map_ext_in. intros cell Hcell. apply map_ext_in. intros v Hv.
  destruct (In_nth_index ids v (Hin _ _ Hcell Hv)) as (j & Hj & <-).
  rewrite fold_step_entry, rank_nth by done.
  destruct (Nat.ltb_spec j (length ids)); [done|lia].
Qed.

(** ** Row selection *)

Lemma take_rows_cells_from (pre : list (list nat)) domains_values topology domain_id :
  length domains_values ≤ length topology →
  take_rows (pre ++ topology)
            (nonzero_eq_from (length pre) domains_values domain_id)
  = Some (cells_of domains_values topology domain_id).
Proof.
  revert pre topology.
  induction domains_values as [|v vs IH]; intros pre topology Hlen; simpl.
  - by destruct topology.
  - destruct topology as [|cell cells]; simpl in *; [lia|].
    assert (Hshift : pre ++ cell :: cells = (pre ++ [cell]) ++ cells)
      by (by rewrite <- app_assoc).
    assert (HS : S (length pre) = length (pre ++ [cell]))
      by (rewrite length_app; simpl; lia).
    destruct (Nat.eqb v domain_id).
    + unfold take_rows in *. simpl.
      rewrite list_lookup_middle by done. simpl.
      rewrite Hshift, HS, IH by lia. done.
    + rewrite Hshift, HS. apply IH. lia.
Qed.

Lemma take_rows_cells domains_values topology domain_id :
  length domains_values = length topology →
  take_rows topology (nonzero_eq domains_values domain_id)
  = Some (cells_of domains_values topology domain_id).
Proof.
  intros Hlen. apply (take_rows_cells_from [] domains_values topology domain_id).
  lia.
Qed.

Lemma cells_of_In domains_values topology domain_id cell :
  In cell (cells_of domains_values topology domain_id) → In cell topology.
Proof.
  revert topology. induction domains_values as [|v vs IH]; intros [|c cs]; simpl; try done.
  destruct (Nat.eqb v domain_id); simpl; intros H.
  - destruct H as [->|H]; [by left|right; by apply IH].
  - right; by apply IH.
Qed.

Lemma take_rows_total {A} (a : list A) index :
  Forall (fun i => i < length a) index →
  ∃ rows, take_rows a index = Some rows ∧ length rows = length index ∧
          ∀ i v, index !! i = Some v → rows !! i = a !! v.
Proof.
  induction 1 as [|i index Hi Hall (rows & Hrows & Hlen & Hlook)].
  - exists []. by repeat split.
  - destruct (lookup_lt_is_Some_2 a i Hi) as [x Hx].
    exists (x :: rows). unfold take_rows in *. simpl.
    rewrite Hx, Hrows. simpl. repeat split; [by rewrite Hlen|].
    intros [|k] v Hv; simpl in *.
    + by simplify_eq.
    + by apply Hlook.
Qed.

Section Results.
Context {coordinate : Type}.
Implicit Types (domain_coordinates : list coordinate).

Lemma separate_one_spec domains_values domain_topology domain_coordinates domain_id :
  well_formed domains_values domain_topology domain_coordinates →
  ∃ m, separate_one domains_values domain_topology domain_coordinates domain_id = Some m ∧
       renumbered_submesh domains_values domain_topology domain_coordinates domain_id m.
Proof.
  intros [Hlen Hwf]. unfold separate_one.
  rewrite take_rows_cells by done. simpl.
  set (cells := cells_of domains_values domain_topology domain_id).
  set (ids := np_unique cells).
  assert (Hs : StronglySorted lt ids) by apply np_unique_sorted.
  assert (Hids : Forall (fun i => i < length domain_coordinates) ids).
  { rewrite List.Forall_forall. intros v Hv. apply np_unique_In in Hv.
    destruct Hv as (cell & Hcell & Hv).
    apply cells_of_In in Hcell.
    rewrite List.Forall_forall in Hwf. specialize (Hwf _ Hcell).
    rewrite List.Forall_forall in Hwf. by apply Hwf. }
  destruct (take_rows_total domain_coordinates ids Hids) as (rows & Hrows & Hl & Hlook).
  rewrite Hrows. simpl. eexists; split; [done|].
  exists ids. simpl.
  split; [done|]. split; [apply np_unique_In|].
  split.
  { apply fix_topology_rank; [done|].
    intros cell v Hcell Hv. apply np_unique_In. eauto. }
  split; [done|]. split.
  { intros i v Hiv. split; [|by apply Hlook].
    pose proof (lookup_lt_Some _ _ _ Hiv) as Hi.
    rewrite <- (nth_lookup_Some _ _ 0 _ Hiv). by apply rank_nth. }
  split; [intros v w; by apply rank_monotone|].
  intros v w Hv Hw Heq.
  pose proof (rank_monotone ids v w Hs Hv Hw).
  pose proof (rank_monotone ids w v Hs Hw Hv). lia.
Qed.

(** C4. For the fluid id and for the solid id, [separate_domain] stores the
    cells carrying that marker, with every node id replaced by its rank
    among the node ids those cells use (the order-preserving bijection onto
    [0 .. n-1]), and coordinate row [i] is the original row of the [i]-th
    smallest used node id; the sequential [np.where] passes map distinct
    original ids to distinct new ids. *)
Theorem separate_domain_renumbers domains_values domain_topology
    domain_coordinates fluid_domain_id solid_domain_id :
  well_formed domains_values domain_topology domain_coordinates →
  ∃ fluid solid,
    separate_domain domains_values domain_topology domain_coordinates
                    fluid_domain_id solid_domain_id
    = Some [("fluid"%string, fluid); ("solid"%string, solid)] ∧
    renumbered_submesh domains_values domain_topology domain_coordinates
                       fluid_domain_id fluid ∧
    renumbered_submesh domains_values domain_topology domain_coordinates
                       solid_domain_id solid.
Proof.
  intros Hwf.
  destruct (separate_one_spec domains_values domain_topology domain_coordinates
              fluid_domain_id Hwf) as (mf & Hf & Hrf).
  destruct (separate_one_spec domains_values domain_topology domain_coordinates
              solid_domain_id Hwf) as (ms & Hs & Hrs).
  exists mf, ms. unfold separate_domain. simpl. rewrite Hf, Hs. simpl. done.
Qed.

End Results.

(** A mesh of three tetrahedra, the middle one solid. *)
Definition example_values : list nat := [0; 1; 0].
Definition example_topology : list (list nat) :=
  [[0; 1; 2; 4]; [1; 2; 3; 4]; [2; 4; 5; 6]].
Definition example_coordinates : list nat := [10; 11; 12; 13; 14; 15; 16].

Example separate_domain_example :
  separate_domain example_values example_topology example_coordinates 0 1
  = Some [("fluid"%string,
           {| mesh_coordinates := [10; 11; 12; 14; 15; 16];
              mesh_topology := [[0; 1; 2; 3]; [2; 3; 4; 5]] |});
          ("solid"%string,
           {| mesh_coordinates := [11; 12; 13; 14];
              mesh_topology := [[0; 1; 2; 3]] |})].
Proof. reflexivity. Qed.

Lemma separate_domain_renumbers_witness :
  well_formed example_values example_topology example_coordinates ∧
  ∃ fluid solid,
    separate_domain example_values example_topology example_coordinates 0 1
    = Some [("fluid"%string, fluid); ("solid"%string, solid)] ∧
    renumbered_submesh example_values example_topology example_coordinates 0 fluid ∧
    renumbered_submesh example_values example_topology example_coordinates 1 solid.
Proof.
  assert (Hwf : well_formed example_values example_topology example_coordinates).
  { split; [reflexivity|]. repeat constructor. }
  split; [exact Hwf|].
  exact (separate_domain_renumbers example_values example_topology
           example_coordinates 0 1 Hwf).
Defined.

End SeparateDomainFacts.

(* ===================================================================== *)
(** * Properties of create_spectrogram_composite                          *)
(* ===================================================================== *)

Module SpectrogramFacts.
Import Spectrogram.

Lemma map_fmap {A B} (f : A → B) (l : list A) : map f l = f <$> l.
Proof. reflexivity. Qed.

Lemma add_row_zip u v :
  length u = length v → add_row u v = Some (zip_with PrimFloat.add u v).
Proof.
  revert v. induction u as [|a u IH]; intros [|b v] Hlen; simpl in *; try done.
  rewrite IH by lia. done.
Qed.

Lemma np_add_zip (a b : array2) cols :
  length a = length b →
  Forall (fun row => length row = cols) a →
  Forall (fun row => length row = cols) b →
  np_add a b = Some (zip_with (zip_with PrimFloat.add) a b).
Proof.
  intros Hlen Ha. revert b Hlen.
  induction Ha as [|u a Hu Ha IH]; intros [|v b] Hlen Hb; simpl in *; try done.
  inversion Hb as [|? ? Hv Hb']; subst.
  rewrite add_row_zip by lia. simpl.
  rewrite IH by (done || lia). done.
Qed.

Lemma columns_from_1_shape a rows cols :
  has_shape a rows (S cols) → has_shape (columns_from_1 a) rows cols.
Proof.
  intros [Hlen Hall]. unfold columns_from_1.
  split; [by rewrite length_map|]. rewrite Forall_map.
  eapply Forall_impl; [exact Hall|]. intros row Hrow. cbv beta in *.
  rewrite length_drop, Hrow. lia.
Qed.

Lemma zip_add_shape (a b : array2) rows cols :
  has_shape a rows cols → has_shape b rows cols →
  has_shape (zip_with (zip_with PrimFloat.add) a b) rows cols.
Proof.
  intros [Hla Ha] [Hlb Hb]. split.
  - rewrite length_zip_with. lia.
  - clear Hla Hlb. revert b Hb.
    induction Ha as [|u a Hu Ha IH]; intros [|v b] Hb; simpl; try constructor.
    + inversion Hb; subst. rewrite length_zip_with. lia.
    + inversion Hb; subst. by apply IH.
Qed.

Lemma first_column_total a rows cols :
  has_shape a rows (S cols) →
  ∃ freqs, first_column a = Some freqs ∧ length freqs = rows ∧
           ∀ i, freqs !! i = entry a i 0.
Proof.
  intros [<- Hall]. unfold first_column, entry.
  induction Hall as [|row a Hrow Hall (freqs & Hf & Hlen & Hlook)].
  - exists []. by repeat split.
  - destruct row as [|f row]; simpl in *; [lia|].
    exists (f :: freqs). rewrite Hf. simpl.
    repeat split; [by rewrite Hlen|]. intros [|i]; simpl; [done|apply Hlook].
Qed.

Lemma entry_columns_from_1 a i j :
  entry (columns_from_1 a) i j = entry a i (S j).
Proof.
  unfold entry, columns_from_1. rewrite map_fmap, list_lookup_fmap.
  destruct (a !! i) as [row|]; simpl; [|done].
  rewrite lookup_drop. done.
Qed.

Lemma entry_zip_add a b i j :
  entry (zip_with (zip_with PrimFloat.add) a b) i j
  = (u ← entry a i j; v ← entry b i j; Some (u + v)%float)
  ∨ entry a i j = None ∨ entry b i j = None.
Proof.
  unfold entry. rewrite lookup_zip_with.
  destruct (a !! i) as [ra|]; simpl; [|by right; left].
  destruct (b !! i) as [rb|]; simpl; [|by right; right].
  rewrite lookup_zip_with.
  destruct (ra !! j) as [u|]; simpl; [|by right; left].
  destruct (rb !! j) as [v|]; simpl; [by left|by right; right].
Qed.

Lemma entry_np_div a k i j :
  entry (np_div a k) i j = (fun v => (v / k)%float) <$> entry a i j.
Proof.
  unfold entry, np_div. rewrite map_fmap, list_lookup_fmap.
  destruct (a !! i) as [row|]; simpl; [|done].
  by rewrite map_fmap, list_lookup_fmap.
Qed.

Lemma filter_nonempty (t : table) cols :
  Forall (fun row => length row = S cols) t →
  List.filter (fun row => negb (Nat.eqb (length row) 0)) t = t.
Proof.
  induction 1 as [|row t Hrow Hall IH]; simpl; [done|].
  rewrite Hrow. simpl. by rewrite IH.
Qed.

Lemma forallb_same_length (t : table) cols :
  Forall (fun row => length row = cols) t →
  forallb (fun row => Nat.eqb (length row) cols) t = true.
Proof.
  induction 1 as [|row t Hrow Hall IH]; simpl; [done|].
  by rewrite Hrow, Nat.eqb_refl, IH.
Qed.

(** A table with two or more rows of two or more values each is loaded as
    it is. *)
Lemma loadtxt_array2 (t : table) rows cols :
  has_shape t (S (S rows)) (S (S cols)) → loadtxt t = Some (Array2 t).
Proof.
  intros [Hlen Hall]. unfold loadtxt.
  rewrite (filter_nonempty t (S cols) Hall).
  destruct t as [|first t]; [done|].
  pose proof (Forall_inv Hall) as Hfirst. cbv beta in Hfirst.
  cbv zeta. rewrite Hfirst, (forallb_same_length _ _ Hall), Hlen. done.
Qed.

(** C5 (amended). For three component files of equal shape with two or
    more rows and two or more columns the frequency axis is the first
    column of the x data, and entry [(i, j)] of the plotted power matrix is
    the mean [(x + y + z) / 3] of the three components' entries
    [(i, j + 1)], computed in binary64: the components are averaged, no
    magnitude is formed. *)
Theorem create_spectrogram_composite_average
    (csv_x_data csv_y_data csv_z_data : table) (rows cols : nat) :
  has_shape csv_x_data (S (S rows)) (S (S cols)) →
  has_shape csv_y_data (S (S rows)) (S (S cols)) →
  has_shape csv_z_data (S (S rows)) (S (S cols)) →
  ∃ freqs Pxx,
    create_spectrogram_composite csv_x_data csv_y_data csv_z_data
    = Some (freqs, Pxx) ∧
    length freqs = S (S rows) ∧
    (∀ i, freqs !! i = entry csv_x_data i 0) ∧
    has_shape Pxx (S (S rows)) (S cols) ∧
    (∀ i j x y z,
        entry csv_x_data i (S j) = Some x →
        entry csv_y_data i (S j) = Some y →
        entry csv_z_data i (S j) = Some z →
        entry Pxx i j = Some ((x + y + z) / 3)%float).
Proof.
  intros Hx Hy Hz.
  destruct (first_column_total _ _ _ Hx) as (freqs & Hf & Hlen & Hlook).
  pose proof (columns_from_1_shape _ _ _ Hx) as Hx1.
  pose proof (columns_from_1_shape _ _ _ Hy) as Hy1.
  pose proof (columns_from_1_shape _ _ _ Hz) as Hz1.
  pose proof (zip_add_shape _ _ _ _ Hx1 Hy1) as Hxy.
  pose proof (zip_add_shape _ _ _ _ Hxy Hz1) as Hxyz.
  unfold create_spectrogram_composite.
  rewrite (loadtxt_array2 _ _ _ Hx), (loadtxt_array2 _ _ _ Hy),
    (loadtxt_array2 _ _ _ Hz).
  cbn [mbind option_bind column_0 columns_1]. rewrite Hf.
  cbn [mbind option_bind].
  rewrite (np_add_zip _ _ (S cols));
    [|destruct Hx1, Hy1; congruence|apply Hx1|apply Hy1].
  cbn [mbind option_bind].
  rewrite (np_add_zip _ _ (S cols));
    [|destruct Hxy, Hz1; congruence|apply Hxy|apply Hz1].
  cbn [mbind option_bind].
  eexists _, _. split; [reflexivity|].
  split; [done|]. split; [done|]. split.
  { destruct Hxyz as [Hl Hall]. unfold np_div.
    split; [by rewrite length_map|]. rewrite Forall_map.
    eapply Forall_impl; [exact Hall|]. intros row Hrow. simpl.
    by rewrite length_map. }
  intros i j x y z Ex Ey Ez.
  set (xy := zip_with _ (columns_from_1 csv_x_data) _).
  assert (Exy : entry xy i j = Some (x + y)%float).
  { destruct (entry_zip_add (columns_from_1 csv_x_data)
                (columns_from_1 csv_y_data) i j) as [H|[H|H]];
      rewrite !entry_columns_from_1 in H; rewrite ?Ex, ?Ey in H; try done. }
  assert (Exyz : entry (zip_with (zip_with PrimFloat.add) xy
                          (columns_from_1 csv_z_data)) i j
                 = Some (x + y + z)%float).
  { destruct (entry_zip_add xy (columns_from_1 csv_z_data) i j) as [H|[H|H]];
      rewrite ?entry_columns_from_1 in H; rewrite ?Exy, ?Ez in H; try done. }
  rewrite entry_np_div, Exyz. done.
Qed.

(** Two time bins at two frequencies. *)
Definition example_x : table := [[10; 1; 2]; [20; 3; 4]]%float.
Definition example_y : table := [[10; 4; 5]; [20; 6; 7]]%float.
Definition example_z : table := [[10; 7; 8]; [20; 9; 13]]%float.

Example create_spectrogram_composite_example :
  create_spectrogram_composite example_x example_y example_z
  = Some ([10; 20], [[4; 5]; [6; 8]])%float.
Proof. reflexivity. Qed.

Lemma create_spectrogram_composite_average_witness :
  has_shape example_x 2 3 ∧ has_shape example_y 2 3 ∧ has_shape example_z 2 3 ∧
  ∃ freqs Pxx,
    create_spectrogram_composite example_x example_y example_z
    = Some (freqs, Pxx) ∧
    length freqs = 2 ∧
    (∀ i, freqs !! i = entry example_x i 0) ∧
    has_shape Pxx 2 2 ∧
    (∀ i j x y z,
        entry example_x i (S j) = Some x →
        entry example_y i (S j) = Some y →
        entry example_z i (S j) = Some z →
        entry Pxx i j = Some ((x + y + z) / 3)%float).
Proof.
  assert (Hx : has_shape example_x 2 3) by (split; [reflexivity|repeat constructor]).
  assert (Hy : has_shape example_y 2 3) by (split; [reflexivity|repeat constructor]).
  assert (Hz : has_shape example_z 2 3) by (split; [reflexivity|repeat constructor]).
  split; [exact Hx|]. split; [exact Hy|]. split; [exact Hz|].
  exact (create_spectrogram_composite_average example_x example_y example_z 0 1 Hx Hy Hz).
Defined.

(** C5 as stated fails on component files of equal shape that hold a single
    frequency (one row of three values) or no time bin (two rows of one
    value): [np.loadtxt] returns one-dimensional arrays, and
    [csv_x_data[:,0]] raises [IndexError] instead of giving a frequency
    axis; nothing is averaged or plotted. *)
Lemma create_spectrogram_composite_counterexample :
  (has_shape [[10; 1; 2]]%float 1 3 ∧ has_shape [[10; 4; 5]]%float 1 3 ∧
   has_shape [[10; 7; 8]]%float 1 3 ∧
   loadtxt [[10; 1; 2]]%float = Some (Array1 [10; 1; 2]%float) ∧
   create_spectrogram_composite [[10; 1; 2]]%float [[10; 4; 5]]%float
                                [[10; 7; 8]]%float = None) ∧
  (has_shape [[10]; [20]]%float 2 1 ∧
   loadtxt [[10]; [20]]%float = Some (Array1 [10; 20]%float) ∧
   create_spectrogram_composite [[10]; [20]]%float [[10]; [20]]%float
                                [[10]; [20]]%float = None).
Proof.
  repeat split; repeat constructor.
Qed.

End SpectrogramFacts.

(* ===================================================================== *)
(** * Properties of avf.py                                                *)
(* ===================================================================== *)

Module AvfFacts.
Import Avf.

Local Open Scope R_scope.

Lemma Rltb_true a b : Rltb a b = true ↔ a < b.
Proof. unfold Rltb. destruct (Rlt_dec a b); intuition congruence. Qed.

Lemma Rltb_false a b : Rltb a b = false ↔ b <= a.
Proof.
  unfold Rltb. destruct (Rlt_dec a b); split; intros; try done; lra.
Qed.

(** ** [get_mesh_domain_and_boundaries] *)

Section Boundaries.

(** The two fsi ids, the two outer ids and the two rigid-wall ids. *)
Variables (fsi_id rigid_id outer_id : list Z).
Variables (fsi0 fsi1 rigid0 rigid1 outer0 outer1 : Z).
Hypothesis Hfsi0 : fsi_id !! 0%nat = Some fsi0.
Hypothesis Hfsi1 : fsi_id !! 1%nat = Some fsi1.
Hypothesis Hrigid0 : rigid_id !! 0%nat = Some rigid0.
Hypothesis Hrigid1 : rigid_id !! 1%nat = Some rigid1.
Hypothesis Houter0 : outer_id !! 0%nat = Some outer0.
Hypothesis Houter1 : outer_id !! 1%nat = Some outer1.

(** The marker a facet ends up with: of the four tests the last one that
    fires decides. *)
Definition new_marker (idx_facet : Z) (mid : point) : Z :=
  if outside_sphere mid then
    if (idx_facet =? outer1)%Z then rigid1
    else if (idx_facet =? outer0)%Z then rigid0
    else if (idx_facet =? fsi1)%Z then rigid1
    else if (idx_facet =? fsi0)%Z then rigid0
    else idx_facet
  else idx_facet.

Lemma loop_body_spec mid i (boundaries : list Z) idx_facet :
  boundaries !! i = Some idx_facet →
  loop_body fsi_id rigid_id outer_id mid i boundaries
  = Some (<[i := new_marker idx_facet mid]> boundaries).
Proof.
  intros Hi. unfold loop_body, reassign_if, new_marker.
  rewrite Hi. simpl. rewrite Hfsi0, Hfsi1, Houter0, Houter1. simpl.
  destruct (outside_sphere mid);
    destruct (idx_facet =? fsi0)%Z; destruct (idx_facet =? fsi1)%Z;
    destruct (idx_facet =? outer0)%Z; destruct (idx_facet =? outer1)%Z;
    simpl; rewrite ?Hrigid0, ?Hrigid1; simpl;
    rewrite ?list_insert_insert_eq; try done;
    by rewrite list_insert_id.
Qed.

Lemma facet_loop_spec facets :
  ∀ i (boundaries : list Z),
    (i + length facets ≤ length boundaries)%nat →
    ∃ boundaries',
      facet_loop fsi_id rigid_id outer_id facets i boundaries = Some boundaries' ∧
      length boundaries' = length boundaries ∧
      (∀ k, (k < i)%nat → boundaries' !! k = boundaries !! k) ∧
      (∀ k, (i + length facets ≤ k)%nat → boundaries' !! k = boundaries !! k) ∧
      (∀ k mid idx_facet,
          facets !! k = Some mid → boundaries !! (i + k)%nat = Some idx_facet →
          boundaries' !! (i + k)%nat = Some (new_marker idx_facet mid)).
Proof.
  induction facets as [|mid rest IH]; intros i boundaries Hlen; simpl in *.
  - exists boundaries. repeat split; try done.
  - destruct (lookup_lt_is_Some_2 boundaries i ltac:(lia)) as [idx Hidx].
    rewrite (loop_body_spec mid i boundaries idx Hidx). simpl.
    destruct (IH (S i) (<[i := new_marker idx mid]> boundaries))
      as (b' & Hrun & Hl & Hbefore & Hafter & Hat).
    { rewrite length_insert. lia. }
    exists b'. rewrite Hrun. split; [done|].
    split; [by rewrite Hl, length_insert|].
    split; [|split].
    + intros k Hk. rewrite Hbefore by lia. apply list_lookup_insert_ne. lia.
    + intros k Hk. rewrite Hafter by lia. apply list_lookup_insert_ne. lia.
    + intros [|k] m idx' Hm Hb; simpl in *.
      * rewrite Nat.add_0_r in *. simplify_eq.
        rewrite Hbefore by lia. apply list_lookup_insert_eq.
        by eapply lookup_lt_Some.
      * replace (i + S k)%nat with (S i + k)%nat in * by lia.
        apply Hat; [done|]. rewrite list_lookup_insert_ne by lia. done.
Qed.


End Boundaries.

(** A facet at the center of the sphere and one at the binary64 point
    (0.33642, 0.1073934, 0.0369964), whose computed distance is the next
    binary64 number above 0.02. *)
#[local] Set Warnings "-inexact-float".
Definition edge_point : point := (0.33642, 0.1073934, 0.0369964)%float.
#[local] Set Warnings "inexact-float".

Definition sample_mesh : Mesh :=
  {| coordinates := [];
     facet_midpoints := [(sph_x, sph_y, sph_z); edge_point] |}.


(** ** Indexing and truncation *)

Lemma py_index_in_range {A} (a : list A) (i : Z) :
  (0 <= i < len a)%Z → is_Some (py_index a i).
Proof.
  intros [H0 Hlen]. unfold py_index, len in *.
  destruct (Z.leb_spec 0 i); [|lia].
  apply lookup_lt_is_Some_2. lia.
Qed.

Lemma py_index_too_low {A} (a : list A) (i : Z) :
  (i < - len a)%Z → py_index a i = None.
Proof.
  intros Hi. unfold py_index, len in *.
  destruct (Z.leb_spec 0 i); [lia|].
  destruct (Z.leb_spec (- Z.of_nat (length a)) i); [lia|done].
Qed.

Lemma Int_part_IZR z : Int_part (IZR z) = z.
Proof. symmetry. apply Int_part_spec. lra. Qed.

Lemma py_int_IZR z : py_int (IZR z) = z.
Proof.
  unfold py_int. destruct (Rlt_dec (IZR z) 0).
  - rewrite <- opp_IZR, Int_part_IZR. lia.
  - apply Int_part_IZR.
Qed.

Lemma py_int_nonneg x : 0 <= x → (0 <= py_int x)%Z.
Proof.
  intros Hx. unfold py_int. destruct (Rlt_dec x 0); [lra|].
  destruct (base_Int_part x) as [_ Hgt].
  assert (H : IZR (-1) < IZR (Int_part x)) by lra.
  apply lt_IZR in H. lia.
Qed.

(** ** The velocity profiles *)

(** Squared distance between two points. *)
Definition dist2 (x c : vec3) : R :=
  let '(x0, x1, x2) := x in
  let '(c0, c1, c2) := c in
  (x0 - c0) ^ 2 + (x1 - c1) ^ 2 + (x2 - c2) ^ 2.

(** [- n * v * (1 - d^2 / R^2) * ramp] for a point at distance [d] from the
    barycenter. *)
Definition parabolic_value (n : vec3) (v d R ramp : R) : vec3 :=
  let '(n0, n1, n2) := n in
  (- n0 * v * (1 - d ^ 2 / R ^ 2) * ramp,
   - n1 * v * (1 - d ^ 2 / R ^ 2) * ramp,
   - n2 * v * (1 - d ^ 2 / R ^ 2) * ramp).

(** What the amended C6 says of one evaluation: [result] is what [eval]
    returned for the point [x] in a state with normal [n], barycenter [c],
    radius [R], time [t], ramp time [vel_t_ramp] and waveform value [v]. *)
Definition parabolic_profile (result : option vec3) (n c x : vec3)
    (R t vel_t_ramp v : R) : Prop :=
  let d := sqrt (dist2 x c) in
  result = Some (parabolic_value n v d R (velocity_ramp_code vel_t_ramp t)) ∧
  (0 <= t → velocity_ramp_code vel_t_ramp t = velocity_ramp vel_t_ramp t) ∧
  (R ≠ 0 → d = Rabs R → result = Some (0, 0, 0)) ∧
  1 - d ^ 2 / R ^ 2 <= 1 ∧
  (x = c → 1 - d ^ 2 / R ^ 2 = 1) ∧
  (t = 0 → 0 < vel_t_ramp → result = Some (0, 0, 0)).

Lemma dist2_nonneg x c : 0 <= dist2 x c.
Proof.
  destruct x as [[x0 x1] x2], c as [[c0 c1] c2]. simpl.
  pose proof (pow2_ge_0 (x0 - c0)). pose proof (pow2_ge_0 (x1 - c1)).
  pose proof (pow2_ge_0 (x2 - c2)). lra.
Qed.

Lemma sqrt_dist2_sqr x c : sqrt (dist2 x c) ^ 2 = dist2 x c.
Proof.
  replace (sqrt (dist2 x c) ^ 2) with (sqrt (dist2 x c) * sqrt (dist2 x c)) by ring.
  apply sqrt_sqrt, dist2_nonneg.
Qed.

Lemma dist2_same c : dist2 c c = 0.
Proof. destruct c as [[c0 c1] c2]. simpl. ring. Qed.

Lemma velocity_ramp_code_nonneg vel_t_ramp t :
  0 <= t → velocity_ramp_code vel_t_ramp t = velocity_ramp vel_t_ramp t.
Proof.
  intros Ht. unfold velocity_ramp, velocity_ramp_code.
  destruct (Rltb t 0) eqn:E; [apply Rltb_true in E; lra|done].
Qed.

Lemma velocity_ramp_code_start vel_t_ramp :
  0 < vel_t_ramp → velocity_ramp_code vel_t_ramp 0 = 0.
Proof.
  intros Hr. unfold velocity_ramp_code.
  destruct (Rltb 0 vel_t_ramp) eqn:E; [|apply Rltb_false in E; lra].
  simpl. replace (PI * 0 / vel_t_ramp) with 0 by (field; lra).
  rewrite cos_0. lra.
Qed.

(** Equality of two returned vectors, component by component. *)
Ltac vec3_eq := f_equal; repeat (apply pair_equal_spec; split).

Lemma parabolic_profile_intro (n c x : vec3) (R t vel_t_ramp v : R) result :
  result = Some (parabolic_value n v (sqrt (dist2 x c)) R
                   (velocity_ramp_code vel_t_ramp t)) →
  parabolic_profile result n c x R t vel_t_ramp v.
Proof.
  intros ->. unfold parabolic_profile. cbv zeta.
  split; [done|]. split; [apply velocity_ramp_code_nonneg|].
  split; [|split; [|split]].
  - intros HR Hd. unfold parabolic_value. destruct n as [[n0 n1] n2].
    assert (Hz : 1 - sqrt (dist2 x c) ^ 2 / R ^ 2 = 0).
    { rewrite Hd. rewrite RPow_abs. rewrite Rabs_pos_eq by apply pow2_ge_0.
      field. done. }
    rewrite Hz. vec3_eq; ring.
  - rewrite sqrt_dist2_sqr.
    assert (0 <= dist2 x c / R ^ 2); [|lra].
    destruct (Req_dec R 0) as [->|HR].
    + replace (0 ^ 2) with 0 by ring. unfold Rdiv. rewrite Rinv_0. lra.
    + apply Rle_mult_inv_pos; [apply dist2_nonneg|].
      pose proof (Rsqr_pos_lt R HR) as Hpos. unfold Rsqr in Hpos.
      replace (R ^ 2) with (R * R) by ring. done.
  - intros ->. rewrite sqrt_dist2_sqr, dist2_same. unfold Rdiv. lra.
  - intros -> Hr. unfold parabolic_value. destruct n as [[n0 n1] n2].
    rewrite velocity_ramp_code_start by done.
    vec3_eq; ring.
Qed.

Lemma VelIn1Para_eval_value (s : VelIn1Para.self) (x : vec3) (v : R) :
  py_index (VelIn1Para.interp_PA s) (VelIn1Para.number s) = Some v →
  VelIn1Para.eval s x
  = Some (parabolic_value (VelIn1Para.n s) v (sqrt (dist2 x (VelIn1Para.c s)))
            (VelIn1Para.r s)
            (velocity_ramp_code (VelIn1Para.t_ramp s) (VelIn1Para.t s))).
Proof.
  intros Hv. unfold VelIn1Para.eval, parabolic_value, velocity_ramp_code.
  pose proof (sqrt_dist2_sqr x (VelIn1Para.c s)) as Hd.
  destruct x as [[x0 x1] x2]. destruct (VelIn1Para.c s) as [[c0 c1] c2].
  destruct (VelIn1Para.n s) as [[n0 n1] n2].
  rewrite Hd, Hv. unfold dist2.
  replace (PI / VelIn1Para.t_ramp s * VelIn1Para.t s)
    with (PI * VelIn1Para.t s / VelIn1Para.t_ramp s) by (unfold Rdiv; ring).
  destruct (Rltb _ _ && Rltb _ _); simpl; vec3_eq; ring.
Qed.

Lemma VelIn2Para_eval_value (s : VelIn2Para.self) (x : vec3) (v : R) :
  py_index (VelIn2Para.interp_DA s) (VelIn2Para.number s) = Some v →
  VelIn2Para.eval s x
  = Some (parabolic_value (VelIn2Para.n s) v (sqrt (dist2 x (VelIn2Para.c s)))
            (VelIn2Para.r s)
            (velocity_ramp_code (VelIn2Para.t_ramp s) (VelIn2Para.t s))).
Proof.
  intros Hv. unfold VelIn2Para.eval, parabolic_value, velocity_ramp_code.
  pose proof (sqrt_dist2_sqr x (VelIn2Para.c s)) as Hd.
  destruct x as [[x0 x1] x2]. destruct (VelIn2Para.c s) as [[c0 c1] c2].
  destruct (VelIn2Para.n s) as [[n0 n1] n2].
  rewrite Hd, Hv. unfold dist2.
  replace (PI / VelIn2Para.t_ramp s * VelIn2Para.t s)
    with (PI * VelIn2Para.t s / VelIn2Para.t_ramp s) by (unfold Rdiv; ring).
  destruct (Rltb _ _ && Rltb _ _); simpl; vec3_eq; ring.
Qed.

(** Decide the comparisons of a concrete state. *)
Ltac Rltb_solve :=
  repeat match goal with
    | |- context [Rltb ?a ?b] =>
        first [ rewrite (proj2 (Rltb_true a b)) by lra
              | rewrite (proj2 (Rltb_false a b)) by lra ]
    end.

(** C6 (amended). With [v = interp[number]], [d] the distance from [x] to
    the barycenter and [R] the stored radius ([sqrt (A / pi)] after
    [__init__]), [VelIn1Para.eval] and [VelIn2Para.eval] return
    [- n * v * (1 - d^2 / R^2) * s(t)], where [s(t)] is the sigmoid whenever
    [t < vel_t_ramp] and [vel_t_ramp > 0] and one otherwise; for [0 <= t]
    this is the ramp of the specification. The value vanishes where
    [d = R], the parabolic factor is at most one and equals one at the
    barycenter, and the value is zero at [t = 0] when [vel_t_ramp > 0]. *)
Theorem velocity_inlet_eval_profile :
  (∀ (s : VelIn1Para.self) (x : vec3) (v : R),
      py_index (VelIn1Para.interp_PA s) (VelIn1Para.number s) = Some v →
      parabolic_profile (VelIn1Para.eval s x) (VelIn1Para.n s) (VelIn1Para.c s) x
        (VelIn1Para.r s) (VelIn1Para.t s) (VelIn1Para.t_ramp s) v) ∧
  (∀ (s : VelIn2Para.self) (x : vec3) (v : R),
      py_index (VelIn2Para.interp_DA s) (VelIn2Para.number s) = Some v →
      parabolic_profile (VelIn2Para.eval s x) (VelIn2Para.n s) (VelIn2Para.c s) x
        (VelIn2Para.r s) (VelIn2Para.t s) (VelIn2Para.t_ramp s) v) ∧
  (∀ t dt vel_t_ramp n A c interp_PA s,
      VelIn1Para.init t dt vel_t_ramp n A c interp_PA = Some s →
      VelIn1Para.r s = sqrt (A / PI)) ∧
  (∀ t dt vel_t_ramp n A c interp_DA s,
      VelIn2Para.init t dt vel_t_ramp n A c interp_DA = Some s →
      VelIn2Para.r s = sqrt (A / PI)).
Proof.
  split; [|split; [|split]].
  - intros s x v Hv. apply parabolic_profile_intro.
    by apply VelIn1Para_eval_value.
  - intros s x v Hv. apply parabolic_profile_intro.
    by apply VelIn2Para_eval_value.
  - intros t dt ramp n A c interp s. unfold VelIn1Para.init.
    destruct (Req_dec_T dt 0); [done|]. by intros [= <-].
  - intros t dt ramp n A c interp s. unfold VelIn2Para.init.
    destruct (Req_dec_T dt 0); [done|]. by intros [= <-].
Qed.

(** An inlet of area [pi] around the origin with normal [(1, 0, 0)] and a
    one-sample waveform. *)
Definition inlet_state (t vel_t_ramp : R) : VelIn1Para.self :=
  {| VelIn1Para.t := t; VelIn1Para.dt := 1; VelIn1Para.t_ramp := vel_t_ramp;
     VelIn1Para.interp_PA := [1]; VelIn1Para.number := 0;
     VelIn1Para.n := (1, 0, 0); VelIn1Para.A := PI; VelIn1Para.c := (0, 0, 0);
     VelIn1Para.r := 1 |}.

Lemma velocity_inlet_eval_profile_witness :
  py_index (VelIn1Para.interp_PA (inlet_state 0 2))
           (VelIn1Para.number (inlet_state 0 2)) = Some 1 ∧
  parabolic_profile (VelIn1Para.eval (inlet_state 0 2) (0, 0, 0))
    (1, 0, 0) (0, 0, 0) (0, 0, 0) 1 0 2 1.
Proof.
  split; [reflexivity|].
  exact (proj1 velocity_inlet_eval_profile (inlet_state 0 2) (0, 0, 0) 1 eq_refl).
Defined.

Lemma sqrt_dist2_origin : sqrt (dist2 (0, 0, 0) (0, 0, 0)) = 0.
Proof. rewrite dist2_same. apply sqrt_0. Qed.

(** C6 as stated fails twice. One second before the start, with a ramp of
    two seconds, the code applies the sigmoid and returns half the
    waveform value where the stated [s(t)] is one; and at [t = 0] without a
    ramp ([vel_t_ramp = 0]) the returned value is not zero. *)
Lemma velocity_inlet_eval_counterexample :
  VelIn1Para.eval (inlet_state (-1) 2) (0, 0, 0) = Some (-0.5, 0, 0) ∧
  parabolic_value (1, 0, 0) 1 0 1 (velocity_ramp 2 (-1)) = (-1, 0, 0) ∧
  VelIn1Para.eval (inlet_state 0 0) (0, 0, 0) = Some (-1, 0, 0).
Proof.
  split; [|split].
  - rewrite (VelIn1Para_eval_value (inlet_state (-1) 2) (0, 0, 0) 1 eq_refl). simpl VelIn1Para.n.
    simpl VelIn1Para.c. simpl VelIn1Para.r. simpl VelIn1Para.t.
    simpl VelIn1Para.t_ramp. rewrite sqrt_dist2_origin.
    unfold velocity_ramp_code. Rltb_solve. simpl andb. cbv iota.
    replace (PI * -1 / 2) with (- (PI / 2)) by lra.
    rewrite cos_neg, cos_PI2. unfold parabolic_value. vec3_eq; lra.
  - unfold velocity_ramp. Rltb_solve. unfold parabolic_value. vec3_eq; lra.
  - rewrite (VelIn1Para_eval_value (inlet_state 0 0) (0, 0, 0) 1 eq_refl). simpl VelIn1Para.n.
    simpl VelIn1Para.c. simpl VelIn1Para.r. simpl VelIn1Para.t.
    simpl VelIn1Para.t_ramp. rewrite sqrt_dist2_origin.
    unfold velocity_ramp_code. Rltb_solve. simpl andb. cbv iota.
    unfold parabolic_value. vec3_eq; lra.
Qed.

(** ** The pressure ramp *)

Lemma Rmin_abs t b : Rmin t b = (t + b - Rabs (t - b)) / 2.
Proof. unfold Rmin, Rabs. destruct (Rle_dec t b), (Rcase_abs (t - b)); lra. Qed.

Lemma Rmax_abs a b : Rmax a b = (a + b + Rabs (a - b)) / 2.
Proof. unfold Rmax, Rabs. destruct (Rle_dec a b), (Rcase_abs (a - b)); lra. Qed.

(** The sigmoid of the ramp, without the case distinction. *)
Definition sigmoid (a b u : R) : R :=
  -0.5 * cos (PI * (u - a) / (b - a)) + 0.5.

Lemma sigmoid_start a b : sigmoid a b a = 0.
Proof.
  unfold sigmoid. replace (PI * (a - a) / (b - a)) with 0 by (unfold Rdiv; ring).
  rewrite cos_0. lra.
Qed.

Lemma sigmoid_end a b : a < b → sigmoid a b b = 1.
Proof.
  intros Hab. unfold sigmoid.
  replace (PI * (b - a) / (b - a)) with PI by (field; lra).
  rewrite cos_PI. lra.
Qed.

(** The ramp is the sigmoid of the time clamped to the ramp interval. *)
Lemma pressure_ramp_clamp a b t :
  a < b → pressure_ramp a b t = sigmoid a b (Rmax a (Rmin t b)).
Proof.
  intros Hab. unfold pressure_ramp.
  destruct (Rltb t a) eqn:E1; [apply Rltb_true in E1|apply Rltb_false in E1].
  - rewrite Rmin_left, Rmax_left by lra. by rewrite sigmoid_start.
  - destruct (Rltb t b) eqn:E2; [apply Rltb_true in E2|apply Rltb_false in E2].
    + rewrite Rmin_left, Rmax_right by lra. done.
    + rewrite Rmin_right, Rmax_right by lra. by rewrite sigmoid_end.
Qed.

Lemma continuity_ext (f g : R → R) :
  (∀ x, f x = g x) → continuity g → continuity f.
Proof.
  intros Hext Hg x. specialize (Hg x).
  unfold continuity_pt, continue_in, limit1_in, limit_in in *.
  intros eps Heps. destruct (Hg eps Heps) as (alp & Halp & H).
  exists alp. split; [done|]. intros y Hy. rewrite !Hext. by apply H.
Qed.

Lemma pressure_ramp_continuous a b : a < b → continuity (pressure_ramp a b).
Proof.
  intros Hab.
  apply (continuity_ext _
    (fun t => -0.5 * cos (PI * ((a + (t + b - Rabs (t - b)) / 2
                                 + Rabs (a - (t + b - Rabs (t - b)) / 2)) / 2 - a)
                         / (b - a)) + 0.5)).
  - intros t. rewrite pressure_ramp_clamp by done.
    unfold sigmoid. by rewrite Rmax_abs, Rmin_abs.
  - reg.
Qed.

Lemma sigmoid_monotone a b u w :
  a < b → a <= u → u <= w → w <= b → sigmoid a b u <= sigmoid a b w.
Proof.
  intros Hab Hau Huw Hwb. unfold sigmoid.
  assert (Hpos : 0 < / (b - a)) by (apply Rinv_0_lt_compat; lra).
  pose proof PI_RGT_0 as HPI.
  assert (Hscale : ∀ y, a <= y → y <= b →
            0 <= PI * (y - a) / (b - a) ∧ PI * (y - a) / (b - a) <= PI).
  { intros y Hy1 Hy2. unfold Rdiv. split.
    - apply Rmult_le_pos; [|lra]. apply Rmult_le_pos; lra.
    - rewrite <- (Rmult_1_r PI) at 2. rewrite Rmult_assoc.
      apply Rmult_le_compat_l; [lra|].
      apply (Rmult_le_reg_r (b - a)); [lra|].
      rewrite Rmult_assoc, Rinv_l by lra. lra. }
  destruct (Hscale u ltac:(lra) ltac:(lra)) as [Hu0 Hu1].
  destruct (Hscale w ltac:(lra) ltac:(lra)) as [Hw0 Hw1].
  assert (Hle : PI * (u - a) / (b - a) <= PI * (w - a) / (b - a)).
  { unfold Rdiv. apply Rmult_le_compat_r; [lra|].
    apply Rmult_le_compat_l; lra. }
  pose proof (cos_decr_1 _ _ Hu0 Hu1 Hw0 Hw1 Hle). lra.
Qed.

Lemma pressure_ramp_monotone a b u w :
  a < b → u <= w → pressure_ramp a b u <= pressure_ramp a b w.
Proof.
  intros Hab Huw. rewrite !pressure_ramp_clamp by done.
  apply sigmoid_monotone; [done|apply Rmax_l| |].
  - apply Rle_max_compat_l. by apply Rle_min_compat_r.
  - apply Rmax_lub; [lra|apply Rmin_r].
Qed.

(** C7 (amended). With a ramp interval [p_t_ramp_start < p_t_ramp_end],
    [InnerP.eval] returns 0 before the start, the waveform value times the
    sigmoid between start and end, and the waveform value from the end on;
    the factor applied to the waveform value is continuous in [t], rises
    from 0 at the start to 1 at the end and never decreases. *)
Theorem InnerP_eval_ramp (s : InnerP.self) :
  InnerP.p_t_ramp_start s < InnerP.p_t_ramp_end s →
  let t := InnerP.t s in
  let p_t_ramp_start := InnerP.p_t_ramp_start s in
  let p_t_ramp_end := InnerP.p_t_ramp_end s in
  let interp_P_number := py_index (InnerP.interp_P s) (InnerP.number s) in
  (t < p_t_ramp_start → InnerP.eval s = Some 0) ∧
  (p_t_ramp_start <= t < p_t_ramp_end →
   InnerP.eval s
   = (fun p => p * (-0.5 * cos (PI * (t - p_t_ramp_start)
                                / (p_t_ramp_end - p_t_ramp_start)) + 0.5))
       <$> interp_P_number) ∧
  (p_t_ramp_end <= t → InnerP.eval s = interp_P_number) ∧
  (∀ p, interp_P_number = Some p →
        InnerP.eval s = Some (p * pressure_ramp p_t_ramp_start p_t_ramp_end t)) ∧
  pressure_ramp p_t_ramp_start p_t_ramp_end p_t_ramp_start = 0 ∧
  pressure_ramp p_t_ramp_start p_t_ramp_end p_t_ramp_end = 1 ∧
  continuity (pressure_ramp p_t_ramp_start p_t_ramp_end) ∧
  (∀ u w, u <= w →
          pressure_ramp p_t_ramp_start p_t_ramp_end u
          <= pressure_ramp p_t_ramp_start p_t_ramp_end w).
Proof.
  intros Hab t a b v. subst t a b v. unfold InnerP.eval.
  split; [|split; [|split; [|split; [|split; [|split; [|split]]]]]].
  - intros Ht. by Rltb_solve.
  - intros [Ht1 Ht2]. Rltb_solve.
    replace (PI / (InnerP.p_t_ramp_end s - InnerP.p_t_ramp_start s)
             * (InnerP.t s - InnerP.p_t_ramp_start s))
      with (PI * (InnerP.t s - InnerP.p_t_ramp_start s)
            / (InnerP.p_t_ramp_end s - InnerP.p_t_ramp_start s))
      by (unfold Rdiv; ring).
    by destruct (py_index _ _).
  - intros Ht. by Rltb_solve.
  - intros p Hp. rewrite Hp. unfold pressure_ramp.
    replace (PI / (InnerP.p_t_ramp_end s - InnerP.p_t_ramp_start s)
             * (InnerP.t s - InnerP.p_t_ramp_start s))
      with (PI * (InnerP.t s - InnerP.p_t_ramp_start s)
            / (InnerP.p_t_ramp_end s - InnerP.p_t_ramp_start s))
      by (unfold Rdiv; ring).
    destruct (Rltb (InnerP.t s) (InnerP.p_t_ramp_start s)); simpl;
      [f_equal; ring|].
    destruct (Rltb (InnerP.t s) (InnerP.p_t_ramp_end s)); simpl;
      [done|f_equal; ring].
  - rewrite pressure_ramp_clamp by done.
    rewrite Rmin_left, Rmax_left by lra. apply sigmoid_start.
  - rewrite pressure_ramp_clamp by done.
    rewrite Rmin_left, Rmax_right by lra. by apply sigmoid_end.
  - by apply pressure_ramp_continuous.
  - intros u w Huw. by apply pressure_ramp_monotone.
Qed.

(** The pressure expression of the problem file, a quarter of a second in. *)
Definition pressure_state : InnerP.self :=
  {| InnerP.t := 0.25; InnerP.dt := 0.0001; InnerP.interp_P := [1333; 1400];
     InnerP.number := 1; InnerP.p_t_ramp_start := 0.05;
     InnerP.p_t_ramp_end := 0.2 |}.

Lemma InnerP_eval_ramp_witness :
  InnerP.p_t_ramp_start pressure_state < InnerP.p_t_ramp_end pressure_state ∧
  InnerP.eval pressure_state = Some 1400.
Proof.
  assert (H : InnerP.p_t_ramp_start pressure_state
              < InnerP.p_t_ramp_end pressure_state) by (simpl; lra).
  split; [exact H|].
  destruct (InnerP_eval_ramp pressure_state H) as (_ & _ & Hend & _).
  rewrite Hend; [reflexivity|simpl; lra].
Defined.

(** The pressure expression at time [t] with a one-sample waveform. *)
Definition ramp_state (t p_t_ramp_start p_t_ramp_end : R) : InnerP.self :=
  {| InnerP.t := t; InnerP.dt := 1; InnerP.interp_P := [1]; InnerP.number := 0;
     InnerP.p_t_ramp_start := p_t_ramp_start;
     InnerP.p_t_ramp_end := p_t_ramp_end |}.

(** C7 as stated fails when the ramp times are not in order. With the start
    after the end ([p_t_ramp_start = 2], [p_t_ramp_end = 1]) the time
    [t = 1.5] is past the end, where the stated value is
    [interp_P[number] = 1]; the code tests [t < p_t_ramp_start] first and
    returns 0. With the start equal to the end the code returns 0 up to
    the start and the full value at it: the factor jumps from 0 to 1 and
    is not continuous. *)
Lemma InnerP_eval_counterexample :
  (InnerP.p_t_ramp_end (ramp_state 1.5 2 1) <= InnerP.t (ramp_state 1.5 2 1) ∧
   py_index (InnerP.interp_P (ramp_state 1.5 2 1))
            (InnerP.number (ramp_state 1.5 2 1)) = Some 1 ∧
   InnerP.eval (ramp_state 1.5 2 1) = Some 0) ∧
  ((∀ t, t < 1 → InnerP.eval (ramp_state t 1 1) = Some 0) ∧
   InnerP.eval (ramp_state 1 1 1) = Some 1 ∧
   ¬ continuity (pressure_ramp 1 1)).
Proof.
  split; [split; [simpl; lra|split; [reflexivity|]]|split; [|split]].
  - unfold InnerP.eval. simpl. by Rltb_solve.
  - intros t Ht. unfold InnerP.eval. simpl. by Rltb_solve.
  - unfold InnerP.eval. simpl. by Rltb_solve.
  - intros Hcont. specialize (Hcont 1).
    unfold continuity_pt, continue_in, limit1_in, limit_in in Hcont.
    destruct (Hcont (1 / 2)) as (alp & Halp & Hnear); [lra|].
    specialize (Hnear (1 - alp / 2)). simpl in Hnear.
    unfold R_dist, D_x, no_cond, pressure_ramp in Hnear.
    assert (Hleft : Rltb (1 - alp / 2) 1 = true) by (apply Rltb_true; lra).
    assert (Hat : Rltb 1 1 = false) by (apply Rltb_false; lra).
    rewrite Hleft, Hat in Hnear.
    assert (Hdist : Rabs (1 - alp / 2 - 1) < alp).
    { rewrite Rabs_left by lra. lra. }
    assert (Hne : 1 ≠ 1 - alp / 2) by lra.
    specialize (Hnear (conj (conj I Hne) Hdist)).
    rewrite Rabs_left in Hnear by lra. lra.
Qed.

(** ** The waveform index *)

(** What [update] and [eval] of each class satisfy. *)
Class WaveformLaws (S : Type) `{WaveformExpression S} : Prop := {
  update_total : ∀ (s : S) t, wf_dt s ≠ 0 → is_Some (wf_update s t);
  update_frame : ∀ (s : S) t s',
    wf_update s t = Some s' → wf_interp s' = wf_interp s ∧ wf_dt s' = wf_dt s;
  update_number : ∀ (s : S) t s',
    wf_update s t = Some s' →
    wf_number s' = if (wf_number s + 1 <? len (wf_interp s))%Z
                   then py_int (t / wf_dt s) else wf_number s;
  eval_returns : ∀ s : S,
    is_Some (py_index (wf_interp s) (wf_number s)) → wf_eval_returns s
}.

#[export] Instance VelIn1Para_laws : WaveformLaws VelIn1Para.self.
Proof.
  split; simpl.
  - intros s t Hdt. unfold VelIn1Para.update. simpl.
    destruct (_ <? _)%Z; [|done]. by destruct (Req_dec_T _ _).
  - intros s t s'. unfold VelIn1Para.update. simpl.
    destruct (_ <? _)%Z; [destruct (Req_dec_T _ _); [done|]|];
      by intros [= <-].
  - intros s t s'. unfold VelIn1Para.update. simpl.
    destruct (_ <? _)%Z; [destruct (Req_dec_T _ _); [done|]|];
      by intros [= <-].
  - intros s [v Hv] x. rewrite (VelIn1Para_eval_value s x v Hv). done.
Qed.

#[export] Instance VelIn2Para_laws : WaveformLaws VelIn2Para.self.
Proof.
  split; simpl.
  - intros s t Hdt. unfold VelIn2Para.update. simpl.
    destruct (_ <? _)%Z; [|done]. by destruct (Req_dec_T _ _).
  - intros s t s'. unfold VelIn2Para.update. simpl.
    destruct (_ <? _)%Z; [destruct (Req_dec_T _ _); [done|]|];
      by intros [= <-].
  - intros s t s'. unfold VelIn2Para.update. simpl.
    destruct (_ <? _)%Z; [destruct (Req_dec_T _ _); [done|]|];
      by intros [= <-].
  - intros s [v Hv] x. rewrite (VelIn2Para_eval_value s x v Hv). done.
Qed.

#[export] Instance InnerP_laws : WaveformLaws InnerP.self.
Proof.
  split; simpl.
  - intros s t Hdt. unfold InnerP.update. simpl.
    destruct (_ <? _)%Z; [|done]. by destruct (Req_dec_T _ _).
  - intros s t s'. unfold InnerP.update. simpl.
    destruct (_ <? _)%Z; [destruct (Req_dec_T _ _); [done|]|];
      by intros [= <-].
  - intros s t s'. unfold InnerP.update. simpl.
    destruct (_ <? _)%Z; [destruct (Req_dec_T _ _); [done|]|];
      by intros [= <-].
  - intros s [v Hv]. unfold InnerP.eval. rewrite Hv.
    destruct (Rltb _ _); [done|]. by destruct (Rltb _ _).
Qed.

Section WaveformIndex.
Context {S : Type} `{WaveformLaws S}.

(** The index addresses a sample: Python accepts [-len <= number < len]. *)
Definition index_in_bounds (s : S) : Prop :=
  (- len (wf_interp s) <= wf_number s < len (wf_interp s))%Z.

(** The time never maps below the first admissible index. *)
Definition never_below (s : S) (ts : list R) : Prop :=
  Forall (fun t => (- len (wf_interp s) <= py_int (t / wf_dt s))%Z) ts.

Lemma update_changes_number (s : S) t s' :
  wf_update s t = Some s' → wf_number s' ≠ wf_number s →
  (wf_number s + 1 < len (wf_interp s))%Z.
Proof.
  intros Hup Hne. rewrite (update_number s t s' Hup) in Hne.
  destruct (Z.ltb_spec (wf_number s + 1) (len (wf_interp s))); [done|].
  by destruct Hne.
Qed.

Lemma update_in_bounds (s : S) t s' :
  index_in_bounds s →
  (py_int (t / wf_dt s) <= wf_number s + 1)%Z →
  (- len (wf_interp s) <= py_int (t / wf_dt s))%Z →
  wf_update s t = Some s' → index_in_bounds s'.
Proof.
  unfold index_in_bounds. intros Hb Hup Hlow Hs'.
  destruct (update_frame s t s' Hs') as [-> _].
  rewrite (update_number s t s' Hs').
  destruct (Z.ltb_spec (wf_number s + 1) (len (wf_interp s))); lia.
Qed.

Lemma index_in_bounds_lookup (s : S) :
  index_in_bounds s → is_Some (py_index (wf_interp s) (wf_number s)).
Proof.
  unfold index_in_bounds, py_index, len. intros [Hlo Hhi].
  destruct (Z.leb_spec 0 (wf_number s)).
  - apply lookup_lt_is_Some_2. lia.
  - destruct (Z.leb_spec (- Z.of_nat (length (wf_interp s))) (wf_number s)); [|lia].
    apply lookup_lt_is_Some_2. lia.
Qed.

Lemma simulate_in_bounds (ts : list R) :
  ∀ s : S,
    wf_dt s ≠ 0 → index_in_bounds s → paced s ts → never_below s ts →
    ∃ states,
      simulate s ts = Some states ∧
      Forall (fun s' => (wf_number s' < len (wf_interp s'))%Z ∧
                        is_Some (py_index (wf_interp s') (wf_number s')) ∧
                        wf_eval_returns s') states.
Proof.
  induction ts as [|t ts IH]; intros s Hdt Hb Hpaced Hlow; simpl.
  - exists []. split; [done|constructor].
  - destruct Hpaced as [Hup Hrest].
    apply Forall_cons in Hlow as [Hlow Hlows].
    destruct (update_total s t Hdt) as [s' Hs'].
    pose proof (update_in_bounds s t s' Hb Hup Hlow Hs') as Hb'.
    destruct (update_frame s t s' Hs') as [Hinterp Hdt'].
    destruct (IH s') as (states & Hrun & Hall).
    + by rewrite Hdt'.
    + done.
    + by apply Hrest.
    + unfold never_below. by rewrite Hinterp, Hdt'.
    + exists (s' :: states). rewrite Hs'. simpl. rewrite Hrun. simpl.
      split; [done|]. constructor; [|done].
      pose proof (index_in_bounds_lookup s' Hb') as Hlook.
      split; [apply Hb'|]. split; [done|by apply eval_returns].
Qed.

(** What the amended C8 says of one expression class. *)
Definition index_safety : Prop :=
  (∀ (s : S) t s',
      wf_update s t = Some s' → wf_number s' ≠ wf_number s →
      (wf_number s + 1 < len (wf_interp s))%Z) ∧
  (∀ (s : S) ts,
      wf_dt s ≠ 0 → index_in_bounds s → paced s ts → never_below s ts →
      ∃ states,
        simulate s ts = Some states ∧
        Forall (fun s' => (wf_number s' < len (wf_interp s'))%Z ∧
                          is_Some (py_index (wf_interp s') (wf_number s')) ∧
                          wf_eval_returns s') states).

Lemma index_safety_holds : index_safety.
Proof.
  split.
  - apply update_changes_number.
  - intros s ts. apply simulate_in_bounds.
Qed.

End WaveformIndex.

(** C8 (amended). For [VelIn1Para], [VelIn2Para] and [InnerP], [update]
    changes [number] only while [number + 1 < len(interp)]. If the index
    starts inside the waveform, the time step is not zero, successive calls
    never raise [int(t/dt)] more than one step past the current index and
    never take it below [-len(interp)] (as when [t/dt >= 0]), then after
    every call [number] is strictly below the waveform length, it addresses
    a sample, and [eval] returns a value. *)
Theorem waveform_index_in_bounds :
  @index_safety VelIn1Para.self _ ∧
  @index_safety VelIn2Para.self _ ∧
  @index_safety InnerP.self _.
Proof. repeat split; apply index_safety_holds. Qed.

(** Three samples, one update per time step of one second. *)
Definition pressure_start : InnerP.self :=
  {| InnerP.t := 0; InnerP.dt := 1; InnerP.interp_P := [10; 20; 30];
     InnerP.number := 0; InnerP.p_t_ramp_start := 0;
     InnerP.p_t_ramp_end := 0 |}.

Lemma py_int_div_1 (z : Z) : py_int (IZR z / 1) = z.
Proof. replace (IZR z / 1) with (IZR z) by lra. apply py_int_IZR. Qed.

Lemma waveform_index_in_bounds_witness :
  wf_dt pressure_start ≠ 0 ∧
  index_in_bounds pressure_start ∧
  paced pressure_start [1] ∧
  never_below pressure_start [1] ∧
  ∃ states,
    simulate pressure_start [1] = Some states ∧
    Forall (fun s' => (wf_number s' < len (wf_interp s'))%Z ∧
                      is_Some (py_index (wf_interp s') (wf_number s')) ∧
                      wf_eval_returns s') states.
Proof.
  assert (Hdt : wf_dt pressure_start ≠ 0) by (simpl; lra).
  assert (Hb : index_in_bounds pressure_start)
    by (unfold index_in_bounds; simpl; unfold len; simpl; lia).
  assert (Hp : paced pressure_start [1]).
  { simpl. split; [rewrite (py_int_div_1 1); lia|done]. }
  assert (Hl : never_below pressure_start [1]).
  { constructor; [|constructor]. simpl. rewrite (py_int_div_1 1).
    unfold len. simpl. lia. }
  split; [exact Hdt|]. split; [exact Hb|]. split; [exact Hp|]. split; [exact Hl|].
  exact (proj2 (proj2 (proj2 waveform_index_in_bounds)) pressure_start [1] Hdt Hb Hp Hl).
Defined.

(** An inlet expression with three samples at the start of a simulation,
    and the same expression after [update(-10)]. *)
Definition inlet_start : VelIn1Para.self :=
  {| VelIn1Para.t := 0; VelIn1Para.dt := 1; VelIn1Para.t_ramp := 0;
     VelIn1Para.interp_PA := [10; 20; 30]; VelIn1Para.number := 0;
     VelIn1Para.n := (1, 0, 0); VelIn1Para.A := PI; VelIn1Para.c := (0, 0, 0);
     VelIn1Para.r := 1 |}.

Definition inlet_before_zero : VelIn1Para.self :=
  {| VelIn1Para.t := -10; VelIn1Para.dt := 1; VelIn1Para.t_ramp := 0;
     VelIn1Para.interp_PA := [10; 20; 30]; VelIn1Para.number := -10;
     VelIn1Para.n := (1, 0, 0); VelIn1Para.A := PI; VelIn1Para.c := (0, 0, 0);
     VelIn1Para.r := 1 |}.

(** C8 as stated fails: a call with a time ten steps before zero respects
    the stated proviso and leaves [number] below the waveform length, but
    [number] is then [-10] and [eval] raises [IndexError] on the
    three-sample waveform. *)
Lemma waveform_index_counterexample :
  index_in_bounds inlet_start ∧
  paced inlet_start [-10] ∧
  simulate inlet_start [-10] = Some [inlet_before_zero] ∧
  (wf_number inlet_before_zero < len (wf_interp inlet_before_zero))%Z ∧
  VelIn1Para.eval inlet_before_zero (0, 0, 0) = None.
Proof.
  assert (Hint : py_int (-10 / 1) = (-10)%Z) by apply (py_int_div_1 (-10)).
  split; [unfold index_in_bounds; simpl; unfold len; simpl; lia|].
  split; [simpl; rewrite Hint; split; [lia|done]|].
  split; [|split].
  - simpl. unfold VelIn1Para.update. simpl.
    destruct (Req_dec_T 1 0) as [H|_]; [lra|]. simpl. rewrite Hint. done.
  - simpl. unfold len. simpl. lia.
  - unfold VelIn1Para.eval. simpl. by destruct (Rltb _ _ && Rltb _ _).
Qed.

End AvfFacts.

(* ===================================================================== *)
(** * Properties of run_pre_processing                                    *)
(* ===================================================================== *)

Module PreprocessingFacts.
Import Preprocessing.

Section Reasoning.
Context `{Externals}.

(** ** Programs and relations on worlds *)

(** Whatever way [m] ends, the world it leaves is related to the one it
    started in. *)
Definition respects {A : Type} (R : relation world) (m : M A) : Prop :=
  ∀ w o w', m w = (o, w') → R w w'.

Lemma respects_ret {A} (R : relation world) `{!Reflexive R} (a : A) :
  respects R (ret a).
Proof. intros w o w' [= _ <-]. reflexivity. Qed.

Lemma respects_sys_exit {A} (R : relation world) `{!Reflexive R} status :
  respects R (@sys_exit _ A status).
Proof. intros w o w' [= _ <-]. reflexivity. Qed.

Lemma respects_raise {A} (R : relation world) `{!Reflexive R} e :
  respects R (@raise _ A e).
Proof. intros w o w' [= _ <-]. reflexivity. Qed.

Lemma respects_bind {A B} (R : relation world) `{!Transitive R}
    (m : M A) (k : A → M B) :
  respects R m → (∀ a, respects R (k a)) → respects R (bind m k).
Proof.
  intros Hm Hk w o w'. unfold bind.
  destruct (m w) as [[a|status|e] w1] eqn:Em; intros Hrun.
  - transitivity w1; [by eapply Hm|by eapply Hk].
  - inversion Hrun; subst. by eapply Hm.
  - inversion Hrun; subst. by eapply Hm.
Qed.

Lemma respects_weaken {A} (R R' : relation world) (m : M A) :
  (∀ w w', R w w' → R' w w') → respects R m → respects R' m.
Proof. intros HR Hm w o w' Hrun. apply HR. by eapply Hm. Qed.

Lemma bind_returned {A B} (m : M A) (k : A → M B) w b w' :
  bind m k w = (Returned b, w') →
  ∃ a w1, m w = (Returned a, w1) ∧ k a w1 = (Returned b, w').
Proof.
  unfold bind. destruct (m w) as [[a|status|e] w1]; intros Hrun; try done.
  by exists a, w1.
Qed.

(** ** Files that stay and events that are added *)

(** No file disappears. *)
Definition keeps (w w' : world) : Prop :=
  ∀ path, is_Some (files w !! path) → is_Some (files w' !! path).

(** The log grows by events accepted by [A]. *)
Definition emitted (A : event → bool) (w w' : world) : Prop :=
  ∃ evs, log w' = log w ++ evs ∧ Forall (fun e => A e = true) evs.

Definition progress (A : event → bool) (w w' : world) : Prop :=
  keeps w w' ∧ emitted A w w'.

#[export] Instance emitted_preorder A : PreOrder (emitted A).
Proof.
  split.
  - intros w. exists []. by rewrite app_nil_r.
  - intros w1 w2 w3 (evs1 & E1 & H1) (evs2 & E2 & H2).
    exists (evs1 ++ evs2). split; [by rewrite E2, E1, app_assoc|].
    by apply Forall_app.
Qed.

#[export] Instance progress_preorder A : PreOrder (progress A).
Proof.
  split.
  - intros w. split; [intros path Hp; exact Hp|reflexivity].
  - intros w1 w2 w3 [K1 E1] [K2 E2]. split; [|by etransitivity].
    intros path Hp. by apply K2, K1.
Qed.

Lemma emitted_mono (A B : event → bool) w w' :
  (∀ e, A e = true → B e = true) → emitted A w w' → emitted B w w'.
Proof.
  intros HAB (evs & E & Hall). exists evs. split; [done|].
  eapply Forall_impl; [exact Hall|]. done.
Qed.

Lemma progress_mono (A B : event → bool) w w' :
  (∀ e, A e = true → B e = true) → progress A w w' → progress B w w'.
Proof. intros HAB [K E]. split; [done|by eapply emitted_mono]. Qed.

Lemma progress_ret {X} A (a : X) : respects (progress A) (ret a).
Proof. apply respects_ret, _. Qed.

Lemma progress_sys_exit {X} A status : respects (progress A) (@sys_exit _ X status).
Proof. apply respects_sys_exit, _. Qed.

Lemma progress_raise {X} A e : respects (progress A) (@raise _ X e).
Proof. apply respects_raise, _. Qed.

Lemma progress_bind {X Y} A (m : M X) (k : X → M Y) :
  respects (progress A) m → (∀ a, respects (progress A) (k a)) →
  respects (progress A) (bind m k).
Proof. apply respects_bind, _. Qed.

(** The primitive operations. *)

Lemma emit_progress A s op :
  A (Event s op) = true → respects (progress A) (emit s op).
Proof.
  intros HA w o w' [= _ <-]. split; [intros path Hp; exact Hp|].
  exists [Event s op]. split; [done|]. by constructor.
Qed.

Lemma isfile_progress A path : respects (progress A) (isfile path).
Proof. intros w o w' [= _ <-]. reflexivity. Qed.

Lemma store_progress A path c : respects (progress A) (store path c).
Proof.
  intros w o w' [= _ <-]. split; [|exists []; simpl; by rewrite app_nil_r].
  intros p Hp. simpl. destruct (decide (path = p)) as [->|Hne].
  - by rewrite lookup_insert_eq.
  - by rewrite lookup_insert_ne.
Qed.

Lemma call_progress {X} A s name (result : X) :
  A (Event s (Call name)) = true → respects (progress A) (call s name result).
Proof.
  intros HA. apply progress_bind; [by apply emit_progress|].
  intros _. apply progress_ret.
Qed.

Lemma read_polydata_progress A s path :
  A (Event s (Read path)) = true → respects (progress A) (read_polydata s path).
Proof.
  intros HA. apply progress_bind; [by apply emit_progress|].
  intros _ w o w'. destruct (files w !! path) as [[p|d|]|];
    intros [= _ <-]; reflexivity.
Qed.

Lemma write_polydata_progress A s p path :
  A (Event s (Write path)) = true → respects (progress A) (write_polydata s p path).
Proof.
  intros HA. apply progress_bind; [by apply emit_progress|].
  intros _. apply store_progress.
Qed.

Lemma write_binary_progress A s path :
  A (Event s (Write path)) = true → respects (progress A) (write_binary s path).
Proof.
  intros HA. apply progress_bind; [by apply emit_progress|].
  intros _. apply store_progress.
Qed.

Lemma get_parameters_progress A args s :
  A (Event s (Call "get_parameters")) = true →
  respects (progress A) (get_parameters args s).
Proof.
  intros HA. apply progress_bind; [by apply emit_progress|].
  intros _ w o w'. destruct (files w !! _) as [[p|d|]|];
    intros [= _ <-]; reflexivity.
Qed.

Lemma write_parameters_progress A args s data :
  A (Event s (Call "get_parameters")) = true →
  A (Event s (Write (file_name_parameters args))) = true →
  respects (progress A) (write_parameters args s data).
Proof.
  intros HA HW. apply progress_bind; [by apply get_parameters_progress|].
  intros old. apply progress_bind; [by apply emit_progress|].
  intros _. apply store_progress.
Qed.

Lemma assert_progress A condition : respects (progress A) (assert condition).
Proof.
  destruct condition; [apply progress_ret|apply progress_raise].
Qed.

Lemma bound_progress {X} A (variable : option X) :
  respects (progress A) (bound variable).
Proof.
  destruct variable; [apply progress_ret|apply progress_raise].
Qed.

(** ** Alphabets *)

Definition stage_eqb (a b : stage) : bool :=
  Nat.eqb (stage_index a) (stage_index b).

(** The events of stage [s] that read or write a file or call one of
    [names]. *)
Definition allowed (s : stage) (names : list string) (e : event) : bool :=
  stage_eqb (ev_stage e) s &&
  match ev_op e with
  | Call name => existsb (String.eqb name) names
  | Read _ | Write _ => true
  | Remove _ => false
  end.

Lemma allowed_stage s names e : allowed s names e = true → ev_stage e = s.
Proof.
  unfold allowed, stage_eqb. intros Ha. apply andb_true_iff in Ha as [Hs _].
  apply Nat.eqb_eq in Hs. by destruct (ev_stage e), s.
Qed.

End Reasoning.

Section Operations.
Context `{Externals}.
Variable args : arguments.
Variable A : event → bool.

Lemma centers_for_meshing_progress s surface use_flow_extensions :
  A (Event s (Call "get_parameters")) = true →
  A (Event s (Call "get_centers_for_meshing")) = true →
  A (Event s (Write (file_name_parameters args))) = true →
  respects (progress A) (centers_for_meshing args s surface use_flow_extensions).
Proof.
  intros H1 H2 H3. unfold centers_for_meshing.
  apply progress_bind; [by apply get_parameters_progress|]. intros stored.
  destruct (get_centers_for_meshing _ _ _ _) as [[inlet outlets] found].
  apply progress_bind; [by apply emit_progress|]. intros _.
  apply progress_bind; [by apply write_parameters_progress|]. intros _.
  apply progress_ret.
Qed.

Lemma compute_centerlines_progress s source target path capped_surface resampling :
  A (Event s (Call "compute_centerlines")) = true →
  A (Event s (Read path)) = true →
  A (Event s (Write path)) = true →
  respects (progress A)
           (compute_centerlines s source target path capped_surface resampling).
Proof.
  intros H1 H2 H3. unfold compute_centerlines.
  apply progress_bind; [apply isfile_progress|]. intros [|].
  - by apply read_polydata_progress.
  - apply progress_bind; [by apply call_progress|]. intros centerlines.
    apply progress_bind; [by apply write_polydata_progress|]. intros _.
    apply progress_ret.
Qed.

Lemma distance_field_progress name field path :
  A (Event DistanceField (Call name)) = true →
  A (Event DistanceField (Write path)) = true →
  respects (progress A) (distance_field name field path).
Proof.
  intros H1 H2. unfold distance_field.
  apply progress_bind; [by apply emit_progress|]. intros _.
  apply progress_bind; [by apply write_polydata_progress|]. intros _.
  apply progress_ret.
Qed.

Lemma try_generate_mesh_progress distance_to_sphere solid_thickness_parameters :
  A (Event MeshGeneration (Call "generate_mesh")) = true →
  respects (progress A)
           (try_generate_mesh args distance_to_sphere solid_thickness_parameters).
Proof.
  intros H1. unfold try_generate_mesh.
  apply progress_bind; [by apply emit_progress|]. intros _ w o w'.
  destruct (generate_mesh _ _ _ _ _ _) as [ms|status|[| | | |]];
    intros [= _ <-]; (split; [intros path Hp; exact Hp|]);
    exists []; simpl; by rewrite app_nil_r.
Qed.

End Operations.

(** Decompose a block of the pipeline. *)
Ltac progress_step :=
  lazymatch goal with
  | |- respects _ (bind _ _) => apply progress_bind; [|intros]
  | |- respects _ (ret _) => apply progress_ret
  | |- respects _ (sys_exit _) => apply progress_sys_exit
  | |- respects _ (raise _) => apply progress_raise
  | |- respects _ (emit _ _) => apply emit_progress; reflexivity
  | |- respects _ (call _ _ _) => apply call_progress; reflexivity
  | |- respects _ (isfile _) => apply isfile_progress
  | |- respects _ (read_polydata _ _) => apply read_polydata_progress; reflexivity
  | |- respects _ (write_polydata _ _ _) => apply write_polydata_progress; reflexivity
  | |- respects _ (write_binary _ _) => apply write_binary_progress; reflexivity
  | |- respects _ (get_parameters _ _) => apply get_parameters_progress; reflexivity
  | |- respects _ (write_parameters _ _ _) =>
      apply write_parameters_progress; reflexivity
  | |- respects _ (centers_for_meshing _ _ _ _) =>
      apply centers_for_meshing_progress; reflexivity
  | |- respects _ (compute_centerlines _ _ _ _ _ _) =>
      apply compute_centerlines_progress; reflexivity
  | |- respects _ (distance_field _ _ _) => apply distance_field_progress; reflexivity
  | |- respects _ (try_generate_mesh _ _ _) =>
      apply try_generate_mesh_progress; reflexivity
  | |- respects _ (assert _) => apply assert_progress
  | |- respects _ (bound _) => apply bound_progress
  | |- respects _ (if ?b then _ else _) => destruct b
  | |- respects _ (match ?x with _ => _ end) => destruct x
  | |- respects _ (let '(_, _) := ?x in _) => destruct x
  end.

Ltac progress_auto := repeat progress_step.


Section Blocks.
Context `{Externals}.
Variable args : arguments.

Lemma load_model_progress :
  respects (progress (allowed Setup ["scale_surface"])) (load_model args).
Proof. unfold load_model. progress_auto. Qed.

Lemma uncap_surface_progress surface :
  respects (progress (allowed Setup ["get_uncapped_surface"]))
           (uncap_surface args surface).
Proof. unfold uncap_surface. progress_auto. Qed.

Lemma clip_model_progress surface :
  respects (progress (allowed Setup ["check_if_closed_surface"; "get_uncapped_surface"]))
           (clip_model args surface).
Proof. unfold clip_model, uncap_surface. progress_auto. Qed.

Lemma check_surface_progress surface :
  respects (progress (allowed Cleaning
              ["get_parameters"; "vtk_clean_polydata"; "vtk_triangulate_surface";
               "print_surface_info"; "find_and_delete_nan_triangles";
               "clean_surface"]))
           (check_surface args surface).
Proof. unfold check_surface. progress_auto. Qed.

Lemma get_centerlines_progress surface capped_surface resampling_step :
  respects (progress (allowed CenterlineExtraction
              ["get_parameters"; "get_centers_for_meshing";
               "get_furtest_surface_point"; "compute_centerlines";
               "get_centerline_tolerance"]))
           (get_centerlines args surface capped_surface resampling_step).
Proof. unfold get_centerlines. progress_auto. Qed.

(** The calls of the region refinement. *)
Definition region_calls : list string :=
  ["get_parameters"; "get_regions_to_refine"; "compute_centerlines";
   "extract_single_line"; "vtk_merge_polydata"].

Lemma region_lines_progress centerline_region centerlines tol regions :
  ∀ j refine_region_centerline,
    respects (progress (allowed CenterlineExtraction region_calls))
             (region_lines args centerline_region centerlines tol regions j
                           refine_region_centerline).
Proof.
  induction regions as [|i rest IH]; intros j acc; simpl.
  - apply progress_ret.
  - apply progress_bind; [apply isfile_progress|]. intros [|]; simpl.
    + apply progress_bind; [by apply read_polydata_progress|]. intros tmp. apply IH.
    + apply progress_bind; [by apply call_progress|]. intros line.
      destruct (find_start_id _ _ _ _ _) as [start_id|]; [|apply progress_raise].
      apply progress_bind; [by apply call_progress|]. intros tmp.
      apply progress_bind; [by apply write_polydata_progress|]. intros _. apply IH.
Qed.

Lemma refine_regions_progress cd resampling_step :
  respects (progress (allowed CenterlineExtraction region_calls))
           (refine_regions args cd resampling_step).
Proof.
  unfold refine_regions.
  destruct (refine_region args); [|apply progress_ret].
  apply progress_bind; [by apply get_parameters_progress|]. intros stored.
  destruct (get_regions_to_refine _ _ _) as [regions found].
  apply progress_bind; [by apply emit_progress|]. intros _.
  apply progress_bind; [by apply write_parameters_progress|]. intros _.
  apply progress_bind; [by apply compute_centerlines_progress|].
  intros centerline_region.
  apply progress_bind; [by apply get_parameters_progress|]. intros info.
  destruct (info !! _) as [num_anu|]; [|apply progress_raise].
  apply progress_bind; [apply region_lines_progress|]. intros lines.
  apply progress_bind; [by apply call_progress|]. intros merged.
  apply progress_ret.
Qed.

(** The calls of the smoothing stage. *)
Definition smoothing_calls : list string :=
  ["vmtk_compute_voronoi_diagram"; "smooth_voronoi_diagram"; "create_new_surface";
   "prepare_output_surface"; "compute_centers"; "vmtk_smooth_surface"].

Lemma smooth_surface_progress surface cd rd :
  respects (progress (allowed Smoothing smoothing_calls))
           (smooth_surface args surface cd rd).
Proof.
  unfold smooth_surface, smooth_voronoi, smooth_laplace_taubin. progress_auto.
Qed.

Lemma extend_surface_progress surface cd :
  respects (progress (allowed FlowExtension
              ["add_flow_extension"; "vmtk_smooth_surface"]))
           (extend_surface args surface cd).
Proof. unfold extend_surface, add_extensions. progress_auto. Qed.

Lemma flow_centerlines_progress surface_extended capped_surface cd resampling_step :
  respects (progress (allowed FlowExtension
              ["get_parameters"; "get_centers_for_meshing"; "compute_centerlines"]))
           (flow_centerlines args surface_extended capped_surface cd resampling_step).
Proof. unfold flow_centerlines, extended_centerlines. progress_auto. Qed.

Lemma clip_centerline_progress centerlines cd :
  respects (progress (allowed FlowExtension
              ["extract_single_line"; "vmtk_compute_geometric_features"]))
           (clip_centerline centerlines cd).
Proof. unfold clip_centerline. progress_auto. Qed.

(** The calls that compute a mesh-density field. *)
Definition distance_calls : list string :=
  ["dist_sphere_constant"; "dist_sphere_curvature"; "dist_sphere_diam";
   "dist_sphere_spheres"].

Lemma compute_distance_to_sphere_progress surface_extended centerlines rd :
  respects (progress (allowed DistanceField distance_calls))
           (compute_distance_to_sphere args surface_extended centerlines rd).
Proof.
  unfold compute_distance_to_sphere, distance_constant, distance_curvature,
    distance_diameter, distance_spheres.
  progress_auto.
Qed.

Lemma solid_thickness_field_progress distance_to_sphere :
  respects (progress (allowed DistanceField ["distance_to_spheres_solid_thickness"]))
           (solid_thickness_field args distance_to_sphere).
Proof. unfold solid_thickness_field, variable_thickness. progress_auto. Qed.

(** The calls of the mesh generation proper. *)
Definition mesh_calls : list string :=
  ["generate_mesh"; "mesh_alternative"; "write_mesh"; "get_parameters"].

Lemma generate_mesh_attempts_progress attempts distance_to_sphere parameters :
  respects (progress (allowed MeshGeneration mesh_calls))
           (generate_mesh_attempts args attempts distance_to_sphere parameters).
Proof.
  induction attempts as [|attempts IH]; simpl.
  - apply progress_ret.
  - apply progress_bind; [by apply try_generate_mesh_progress|].
    intros [ms|]; [apply progress_ret|apply IH].
Qed.

Lemma generate_mesh_with_fallback_progress distance_to_sphere parameters :
  respects (progress (allowed MeshGeneration mesh_calls))
           (generate_mesh_with_fallback args distance_to_sphere parameters).
Proof.
  unfold generate_mesh_with_fallback.
  apply progress_bind; [apply generate_mesh_attempts_progress|].
  intros mesh_and_surface. progress_auto.
Qed.

Lemma compute_mesh_progress distance_to_sphere solid_thickness_parameters parameters :
  respects (progress (allowed MeshGeneration mesh_calls))
           (compute_mesh args distance_to_sphere solid_thickness_parameters parameters).
Proof.
  unfold compute_mesh, store_mesh, write_mesh.
  apply progress_bind; [apply isfile_progress|]. intros [|]; simpl;
    [progress_auto|].
  apply progress_bind; [apply bound_progress|]. intros d.
  apply progress_bind; [apply generate_mesh_with_fallback_progress|].
  intros [mesh remeshed_surface]. progress_auto.
Qed.

Lemma convert_mesh_progress file_name_xml_mesh :
  respects (progress (allowed MeshGeneration
              ["convert_xml_mesh_to_hdf5"; "edge_length_evaluator";
               "load_mesh_and_data"; "print_mesh_summary";
               "convert_vtu_mesh_to_xdmf"]))
           (convert_mesh args file_name_xml_mesh).
Proof. unfold convert_mesh. progress_auto. Qed.

Lemma set_boundary_ids_progress centerlines mesh inlet rd :
  respects (progress (allowed BoundaryIds
              ["setup_model_network"; "get_parameters"; "compute_flow_rate";
               "find_boundaries"]))
           (set_boundary_ids args centerlines mesh inlet rd).
Proof. unfold set_boundary_ids. progress_auto. Qed.

Lemma visualize_and_simulate_progress :
  respects (progress (allowed Finish ["visualize_model"; "run_simulation"]))
           (visualize_and_simulate args).
Proof. unfold visualize_and_simulate. progress_auto. Qed.

End Blocks.


(** ** Events of a kind *)

Section Order.
Context `{Externals}.
Variable args : arguments.

(** *** Removing files *)

(** The events of stage [s] that remove a file. *)
Definition removals (s : stage) (e : event) : bool :=
  stage_eqb (ev_stage e) s &&
  match ev_op e with
  | Remove _ => true
  | _ => false
  end.

Lemma removals_stage s e : removals s e = true → ev_stage e = s.
Proof.
  unfold removals, stage_eqb. intros Ha. apply andb_true_iff in Ha as [Hs _].
  apply Nat.eqb_eq in Hs. by destruct (ev_stage e), s.
Qed.

Lemma remove_existing_emitted s files_to_remove :
  respects (emitted (removals s)) (remove_existing s files_to_remove).
Proof.
  induction files_to_remove as [|file rest IH]; simpl.
  - apply respects_ret, _.
  - apply respects_bind; [apply _| |].
    + intros w o w' [= _ <-]. reflexivity.
    + intros found. apply respects_bind; [apply _| |intros _; apply IH].
      destruct found; [|apply respects_ret, _].
      unfold remove. apply respects_bind; [apply _| |].
      * intros w o w' [= _ <-]. exists [Event s (Remove file)].
        split; [done|]. constructor; [|done].
        unfold removals, stage_eqb. simpl. by rewrite Nat.eqb_refl.
      * intros _ w o w' [= _ <-]. exists []. simpl. by rewrite app_nil_r.
Qed.

Lemma cap_surface_progress s surface :
  respects (progress (allowed s ["vmtk_cap_polydata"]))
           (call s "vmtk_cap_polydata" (vmtk_cap_polydata surface)).
Proof.
  apply call_progress. unfold allowed, stage_eqb. simpl.
  by rewrite Nat.eqb_refl.
Qed.

(** *** Programs that only add events *)

(** Any event. *)
Definition anything (e : event) : bool := true.

Lemma progress_emitted_anything {X} A (m : M X) :
  respects (progress A) m → respects (emitted anything) m.
Proof.
  apply respects_weaken. intros w w' [_ He].
  eapply emitted_mono; [|exact He]. done.
Qed.

Lemma removals_emitted_anything {X} s (m : M X) :
  respects (emitted (removals s)) m → respects (emitted anything) m.
Proof.
  apply respects_weaken. intros w w' He.
  eapply emitted_mono; [|exact He]. done.
Qed.

End Order.

(** Name the components of a returned pair. *)
Ltac intro_result :=
  let a := fresh "a" in
  intros a;
  lazymatch type of a with
  | (_ * _)%type => destruct a as [? ?]
  | _ => idtac
  end.

(** A program built from the operations of the pipeline only adds events. *)
Ltac any_auto :=
  apply (progress_emitted_anything anything); progress_auto.

(** One of the blocks of [run_stages] only adds events. *)
Ltac block_any :=
  first
    [ apply (removals_emitted_anything Setup); unfold remove_all_files;
      destruct (remove_all _);
      [apply remove_existing_emitted|apply respects_ret, _]
    | eapply progress_emitted_anything;
      first
        [ apply load_model_progress
        | apply clip_model_progress
        | apply check_surface_progress
        | apply cap_surface_progress
        | apply get_centerlines_progress
        | apply refine_regions_progress
        | apply smooth_surface_progress
        | apply extend_surface_progress
        | apply flow_centerlines_progress
        | apply clip_centerline_progress
        | apply compute_distance_to_sphere_progress
        | apply solid_thickness_field_progress
        | apply compute_mesh_progress
        | apply convert_mesh_progress
        | apply set_boundary_ids_progress
        | apply visualize_and_simulate_progress ] ].



(** ** Worlds after an operation *)

Section Worlds.
Context `{Externals}.

(** The world after one more event. *)
Definition logged (e : event) (w : world) : world :=
  {| files := files w; log := log w ++ [e]; mesh_attempts := mesh_attempts w |}.

(** The world after a file was written. *)
Definition stored (path : string) (c : content) (w : world) : world :=
  {| files := <[path := c]> (files w); log := log w;
     mesh_attempts := mesh_attempts w |}.

Lemma bind_emit {X} s op (k : unit → M X) w :
  bind (emit s op) k w = k tt (logged (Event s op) w).
Proof. reflexivity. Qed.

Lemma bind_call {X Y} s name (result : X) (k : X → M Y) w :
  bind (call s name result) k w = k result (logged (Event s (Call name)) w).
Proof. reflexivity. Qed.

Lemma bind_ret {X Y} (a : X) (k : X → M Y) w : bind (ret a) k w = k a w.
Proof. reflexivity. Qed.

Lemma bind_bind {X Y Z} (m : M X) (k : X → M Y) (k' : Y → M Z) w :
  bind (bind m k) k' w = bind m (fun a => bind (k a) k') w.
Proof. unfold bind. by destruct (m w) as [[a|status|e] w1]. Qed.

Lemma bind_write_polydata {X} s p path (k : unit → M X) w :
  bind (write_polydata s p path) k w
  = k tt (stored path (Polydata p) (logged (Event s (Write path)) w)).
Proof. reflexivity. Qed.

Lemma bind_write_binary {X} s path (k : unit → M X) w :
  bind (write_binary s path) k w
  = k tt (stored path Binary (logged (Event s (Write path)) w)).
Proof. reflexivity. Qed.

Lemma bind_isfile {X} path (k : bool → M X) w :
  bind (isfile path) k w = k (bool_decide (is_Some (files w !! path))) w.
Proof. reflexivity. Qed.

Lemma bind_isfile_found {X} path (k : bool → M X) w :
  is_Some (files w !! path) → bind (isfile path) k w = k true w.
Proof. intros Hf. by rewrite bind_isfile, bool_decide_eq_true_2. Qed.

Lemma bind_isfile_missing {X} path (k : bool → M X) w :
  files w !! path = None → bind (isfile path) k w = k false w.
Proof.
  intros Hf. rewrite bind_isfile, bool_decide_eq_false_2; [done|].
  rewrite Hf. by intros [? ?].
Qed.

Lemma read_polydata_eq s path w :
  read_polydata s path w
  = (match files w !! path with
     | Some (Polydata p) => Returned p
     | _ => Raised RuntimeError
     end, logged (Event s (Read path)) w).
Proof.
  unfold read_polydata. rewrite bind_emit. simpl.
  by destruct (files w !! path) as [[p|d|]|].
Qed.

Lemma bind_read_polydata {X} s path p (k : polydata → M X) w :
  files w !! path = Some (Polydata p) →
  bind (read_polydata s path) k w = k p (logged (Event s (Read path)) w).
Proof. intros Hf. unfold bind at 1. by rewrite read_polydata_eq, Hf. Qed.

End Worlds.

(** Run the next operations of a program of which the world is known. *)
Ltac run_steps :=
  repeat first
    [ rewrite bind_bind
    | rewrite bind_ret
    | rewrite bind_emit
    | rewrite bind_call
    | rewrite bind_write_polydata
    | rewrite bind_write_binary ].

(** Two names built on the same base path differ when their suffixes do. *)
Ltac different_names :=
  let Heq := fresh "Heq" in
  intros Heq; apply String.app_inj in Heq; discriminate Heq.

(** ** The final removal of files (C10) *)

Section Cleanup.
Context `{Externals}.
Variable args : arguments.

Lemma remove_existing_spec s (files_to_remove : list string) :
  ∀ w, ∃ w',
    remove_existing s files_to_remove w = (Returned tt, w') ∧
    (∀ path, path ∉ files_to_remove → files w' !! path = files w !! path) ∧
    (∀ path, path ∈ files_to_remove → files w' !! path = None) ∧
    (∀ path, is_Some (files w' !! path) → files w' !! path = files w !! path) ∧
    ∃ evs, log w' = log w ++ evs ∧
           Forall (fun e => ∃ path, e = Event s (Remove path) ∧
                                     path ∈ files_to_remove ∧
                                     is_Some (files w !! path)) evs.
Proof.
  induction files_to_remove as [|file rest IH]; intros w; simpl.
  - exists w. repeat split; try done.
    + intros path Hp. by apply elem_of_nil in Hp.
    + exists []. by rewrite app_nil_r.
  - rewrite bind_isfile.
    destruct (bool_decide (is_Some (files w !! file))) eqn:Efound.
    + apply bool_decide_eq_true_1 in Efound.
      set (w1 := {| files := delete file (files w);
                    log := log w ++ [Event s (Remove file)];
                    mesh_attempts := mesh_attempts w |}).
      destruct (IH w1) as (w' & Hrun & Hother & Hgone & Hsub & evs & Elog & Hevs).
      exists w'. split; [exact Hrun|]. split; [|split; [|split]].
      * intros path Hp. apply not_elem_of_cons in Hp as [Hne Hp].
        rewrite Hother by done. simpl. by rewrite lookup_delete_ne.
      * intros path Hp. apply elem_of_cons in Hp as [->|Hp]; [|by apply Hgone].
        destruct (files w' !! file) eqn:Ef; [|done].
        rewrite (Hsub file) in Ef by (by rewrite Ef). simpl in Ef.
        by rewrite lookup_delete_eq in Ef.
      * intros path Hp. rewrite (Hsub path Hp). simpl.
        destruct (decide (file = path)) as [->|Hne];
          [|by rewrite lookup_delete_ne].
        rewrite (Hsub path Hp) in Hp. simpl in Hp.
        rewrite lookup_delete_eq in Hp. by destruct Hp.
      * exists (Event s (Remove file) :: evs). simpl in Elog.
        split; [by rewrite Elog, <- app_assoc|].
        constructor.
        -- exists file. split; [done|]. split; [apply list_elem_of_here|done].
        -- eapply Forall_impl; [exact Hevs|]. simpl.
           intros e (path & -> & Hin & Hsome). exists path.
           split; [done|]. split; [by apply list_elem_of_further|].
           destruct (decide (file = path)) as [->|Hne].
           ++ rewrite lookup_delete_eq in Hsome. by destruct Hsome.
           ++ by rewrite lookup_delete_ne in Hsome.
    + apply bool_decide_eq_false_1 in Efound.
      assert (Hnone : files w !! file = None).
      { destruct (files w !! file) eqn:E; [|done]. by destruct Efound. }
      destruct (IH w) as (w' & Hrun & Hother & Hgone & Hsub & evs & Elog & Hevs).
      exists w'. split; [exact Hrun|]. split; [|split; [|split]].
      * intros path Hp. apply not_elem_of_cons in Hp as [Hne Hp]. by apply Hother.
      * intros path Hp. apply elem_of_cons in Hp as [->|Hp]; [|by apply Hgone].
        destruct (files w' !! file) eqn:Ef; [|done].
        rewrite (Hsub file) in Ef by (by rewrite Ef). congruence.
      * done.
      * exists evs. split; [done|].
        eapply Forall_impl; [exact Hevs|]. simpl.
        intros e (path & -> & Hin & Hsome). exists path.
        split; [done|]. split; [by apply list_elem_of_further|done].
Qed.

(** The outputs of the pipeline: the mesh files, the parameter file and
    the probe points. *)
Definition output_files : list string :=
  [file_name_vtu_mesh args; file_name_xml_mesh args; file_name_hdf5_mesh args;
   file_name_xdmf_mesh args; file_name_parameters args;
   file_name_probe_points args].

Lemma output_files_not_removed :
  Forall (fun path => path ∉ files_to_remove args) output_files.
Proof.
  unfold output_files, files_to_remove.
  repeat constructor; rewrite !not_elem_of_cons;
    repeat split; try apply not_elem_of_nil; different_names.
Qed.

End Cleanup.

(** ** Mesh generation with retries and a fallback (C1) *)

Section Mesh.
Context `{Externals}.
Variable args : arguments.

(** What [generate_mesh] does at its [k]-th call of the run. *)
Definition attempt (k : nat) (distance_to_sphere : polydata)
    (solid_thickness_parameters : list float) : outcome (polydata * polydata) :=
  generate_mesh k distance_to_sphere (number_of_sublayers_fluid args)
                (number_of_sublayers_solid args) (solid_thickness args)
                solid_thickness_parameters.

Definition generate_mesh_called : event := Event MeshGeneration (Call "generate_mesh").
Definition mesh_alternative_called : event :=
  Event MeshGeneration (Call "mesh_alternative").

(** The world after [n] more calls of [generate_mesh] and nothing else. *)
Definition after_attempts (n : nat) (w : world) : world :=
  {| files := files w; log := log w ++ repeat generate_mesh_called n;
     mesh_attempts := mesh_attempts w + n |}.

(** The world after [n] failed attempts, [mesh_alternative] and one more
    attempt. *)
Definition after_fallback (n : nat) (w : world) : world :=
  {| files := files w;
     log := log w ++ repeat generate_mesh_called n
                  ++ [mesh_alternative_called; generate_mesh_called];
     mesh_attempts := mesh_attempts w + n + 1 |}.

Lemma try_generate_mesh_eq d p w :
  try_generate_mesh args d p w
  = (match attempt (mesh_attempts w) d p with
     | Returned mesh_and_surface => Returned (Some mesh_and_surface)
     | Raised RuntimeError => Returned None
     | Raised e => Raised e
     | Exited status => Exited status
     end, after_attempts 1 w).
Proof.
  unfold try_generate_mesh, attempt, after_attempts. rewrite bind_emit. simpl.
  rewrite Nat.add_1_r.
  by destruct (generate_mesh _ _ _ _ _ _) as [ms|status|[| | | |]].
Qed.

Lemma after_attempts_0 w : after_attempts 0 w = w.
Proof.
  destruct w as [f l k]. unfold after_attempts. simpl.
  by rewrite app_nil_r, Nat.add_0_r.
Qed.

Lemma after_attempts_S n w : after_attempts n (after_attempts 1 w) = after_attempts (S n) w.
Proof.
  unfold after_attempts. simpl. f_equal.
  - by rewrite <- app_assoc.
  - lia.
Qed.

Lemma generate_mesh_attempts_fail d p n :
  ∀ w, (∀ i, i < n → attempt (mesh_attempts w + i) d p = Raised RuntimeError) →
       generate_mesh_attempts args n d p w = (Returned None, after_attempts n w).
Proof.
  induction n as [|n IH]; intros w Hfail; simpl.
  - by rewrite after_attempts_0.
  - unfold bind. rewrite try_generate_mesh_eq.
    pose proof (Hfail 0 ltac:(lia)) as H0. rewrite Nat.add_0_r in H0.
    rewrite H0. rewrite IH; [by rewrite after_attempts_S|].
    intros i Hi. simpl. replace (mesh_attempts w + 1 + i) with (mesh_attempts w + S i) by lia.
    apply Hfail. lia.
Qed.

Lemma generate_mesh_attempts_succeed d p n j mesh_and_surface :
  ∀ w, j < n →
       (∀ i, i < j → attempt (mesh_attempts w + i) d p = Raised RuntimeError) →
       attempt (mesh_attempts w + j) d p = Returned mesh_and_surface →
       generate_mesh_attempts args n d p w
       = (Returned (Some mesh_and_surface), after_attempts (S j) w).
Proof.
  revert j. induction n as [|n IH]; intros j w Hj Hfail Hok; [lia|]. simpl.
  unfold bind. rewrite try_generate_mesh_eq. destruct j as [|j].
  - rewrite Nat.add_0_r in Hok. by rewrite Hok.
  - pose proof (Hfail 0 ltac:(lia)) as H0. rewrite Nat.add_0_r in H0.
    rewrite H0. rewrite (IH j); [by rewrite after_attempts_S|lia| |].
    + intros i Hi. simpl.
      replace (mesh_attempts w + 1 + i) with (mesh_attempts w + S i) by lia.
      apply Hfail. lia.
    + simpl. replace (mesh_attempts w + 1 + j) with (mesh_attempts w + S j) by lia.
      done.
Qed.

(** How the block ends once a mesh and a surface are at hand: the two
    assertions. *)
Definition asserted (mesh_and_surface : polydata * polydata)
  : outcome (polydata * polydata) :=
  if (0 <? GetNumberOfPoints mesh_and_surface.1)%Z then
    if (0 <? GetNumberOfPoints mesh_and_surface.2)%Z then Returned mesh_and_surface
    else Raised AssertionError
  else Raised AssertionError.

Lemma after_fallback_eq n w :
  after_attempts 1 (logged mesh_alternative_called (after_attempts n w))
  = after_fallback n w.
Proof.
  unfold after_attempts, after_fallback, logged. simpl. f_equal.
  by rewrite <- !app_assoc.
Qed.

Lemma generate_mesh_with_fallback_all_fail d p w :
  let n := Z.to_nat (mesh_generation_retries args + 1) in
  (∀ i, i < n → attempt (mesh_attempts w + i) d p = Raised RuntimeError) →
  generate_mesh_with_fallback args d p w
  = match attempt (mesh_attempts w + n) (mesh_alternative d) p with
    | Returned mesh_and_surface => (asserted mesh_and_surface, after_fallback n w)
    | Raised RuntimeError => (Exited (-1), after_fallback n w)
    | Raised e => (Raised e, after_fallback n w)
    | Exited status => (Exited status, after_fallback n w)
    end.
Proof.
  intros n Hfail. unfold generate_mesh_with_fallback. fold n.
  unfold bind at 1.
  rewrite (generate_mesh_attempts_fail d p n w Hfail).
  rewrite !bind_bind, bind_call, bind_bind. unfold bind at 1.
  rewrite try_generate_mesh_eq, after_fallback_eq. simpl mesh_attempts.
  destruct (attempt _ _ _) as [[mesh surface]|status|[| | | |]]; try done.
  unfold asserted, assert, bind, ret, raise. simpl.
  destruct (0 <? GetNumberOfPoints mesh)%Z; [|done].
  by destruct (0 <? GetNumberOfPoints surface)%Z.
Qed.

Lemma generate_mesh_with_fallback_succeed d p w j mesh_and_surface :
  let n := Z.to_nat (mesh_generation_retries args + 1) in
  j < n →
  (∀ i, i < j → attempt (mesh_attempts w + i) d p = Raised RuntimeError) →
  attempt (mesh_attempts w + j) d p = Returned mesh_and_surface →
  generate_mesh_with_fallback args d p w
  = (asserted mesh_and_surface, after_attempts (S j) w).
Proof.
  intros n Hj Hfail Hok. unfold generate_mesh_with_fallback. fold n.
  unfold bind at 1.
  rewrite (generate_mesh_attempts_succeed d p n j mesh_and_surface w Hj Hfail Hok).
  destruct mesh_and_surface as [mesh surface].
  unfold asserted, assert, bind, ret, raise. simpl.
  destruct (0 <? GetNumberOfPoints mesh)%Z; [|done].
  by destruct (0 <? GetNumberOfPoints surface)%Z.
Qed.

Lemma generate_mesh_with_fallback_asserted d p w mesh remeshed_surface w' :
  generate_mesh_with_fallback args d p w = (Returned (mesh, remeshed_surface), w') →
  (0 < GetNumberOfPoints mesh)%Z ∧ (0 < GetNumberOfPoints remeshed_surface)%Z.
Proof.
  unfold generate_mesh_with_fallback. intros Hrun.
  apply bind_returned in Hrun as (mesh_and_surface & w1 & _ & Hrun).
  apply bind_returned in Hrun as ([m s] & w2 & _ & Hrun).
  apply bind_returned in Hrun as ([] & w3 & Ha1 & Hrun).
  apply bind_returned in Hrun as ([] & w4 & Ha2 & Hrun).
  injection Hrun as <- <- _.
  unfold assert in *.
  destruct (Z.ltb_spec 0 (GetNumberOfPoints m)); [|done].
  destruct (Z.ltb_spec 0 (GetNumberOfPoints s)); [|done].
  done.
Qed.

End Mesh.

(** ** Checkpoints (C3) *)

Section Checkpoints.
Context `{Externals}.
Variable args : arguments.

(** [block] is a checkpointed stage: [path] is its file, [name] the library
    function that computes what is stored there, [value] tells which part
    of what the block returns that is, and [ok] is a condition under which
    the computation goes through. *)
Record checkpointed {X : Type} (s : stage) (path name : string)
    (value : X → polydata) (ok : world → Prop) (block : M X) : Prop := {
  (** With the file in place nothing happens but the reading of it. *)
  cp_skip : ∀ w, is_Some (files w !! path) →
                 ∃ o, block w = (o, logged (Event s (Read path)) w);
  (** The result is the content of the file. *)
  cp_read : ∀ w p, files w !! path = Some (Polydata p) →
                   ∃ a, block w = (Returned a, logged (Event s (Read path)) w) ∧
                        value a = p;
  (** Without the file, the result was computed by the libraries and is
      in the file afterwards. *)
  cp_compute : ∀ w a w',
      files w !! path = None → block w = (Returned a, w') →
      files w' !! path = Some (Polydata (value a)) ∧
      ∃ evs, log w' = log w ++ evs ∧ In (Event s (Call name)) evs ∧
             In (Event s (Write path)) evs;
  (** And the computation does return. *)
  cp_returns : ∀ w, files w !! path = None → ok w →
                    ∃ a w', block w = (Returned a, w')
}.

(** The shape shared by the checkpointed stages. *)
Definition compute_or_read {X : Type} (s : stage) (path : string)
    (compute : M X) (of_file : polydata → X) : M X :=
  bind (isfile path)
       (fun found => if negb found then compute
                     else bind (read_polydata s path) (fun p => ret (of_file p))).

(** What [cp_compute] asks of the computing branch. *)
Definition written {X : Type} (s : stage) (path name : string)
    (value : X → polydata) (w : world) (a : X) (w' : world) : Prop :=
  files w' !! path = Some (Polydata (value a)) ∧
  ∃ evs, log w' = log w ++ evs ∧ In (Event s (Call name)) evs ∧
         In (Event s (Write path)) evs.

Lemma checkpointed_intro {X} s path name (value : X → polydata) ok compute
    of_file (block : M X) :
  (∀ w, block w = compute_or_read s path compute of_file w) →
  (∀ p, value (of_file p) = p) →
  (∀ w a w', files w !! path = None → compute w = (Returned a, w') →
             written s path name value w a w') →
  (∀ w, files w !! path = None → ok w → ∃ a w', compute w = (Returned a, w')) →
  checkpointed s path name value ok block.
Proof.
  intros Hshape Hvalue Hcompute Hreturns. split.
  - intros w Hfound. rewrite Hshape. unfold compute_or_read.
    rewrite bind_isfile_found by done. simpl. unfold bind.
    rewrite read_polydata_eq. destruct (files w !! path) as [[p|d|]|]; eauto.
  - intros w p Hfile. rewrite Hshape. unfold compute_or_read.
    rewrite bind_isfile_found by (by rewrite Hfile). simpl.
    rewrite (bind_read_polydata _ _ p) by done. eauto.
  - intros w a w' Hnone. rewrite Hshape. unfold compute_or_read.
    rewrite bind_isfile_missing by done. simpl. by apply Hcompute.
  - intros w Hnone Hok. rewrite Hshape. unfold compute_or_read.
    rewrite bind_isfile_missing by done. simpl. by apply Hreturns.
Qed.

(** A stage written [if not isfile: compute else: read_polydata]. *)
Lemma compute_or_read_plain s path (compute : M polydata) w :
  bind (isfile path)
       (fun found => if negb found then compute else read_polydata s path) w
  = compute_or_read s path compute (fun p => p) w.
Proof.
  unfold compute_or_read. rewrite !bind_isfile.
  destruct (bool_decide _); simpl; [|done].
  unfold bind. rewrite read_polydata_eq.
  by destruct (files w !! path) as [[p|d|]|].
Qed.

(** Events emitted before the computation proper do not matter. *)
Lemma written_after {X} s path name (value : X → polydata) w w1 a w' :
  emitted anything w w1 → written s path name value w1 a w' →
  written s path name value w a w'.
Proof.
  intros (evs1 & E1 & _) (Hfile & evs2 & E2 & Hcall & Hwrite).
  split; [done|]. exists (evs1 ++ evs2).
  split; [by rewrite E2, E1, app_assoc|].
  split; apply in_or_app; by right.
Qed.

Lemma written_bind {X Y} s path name (value : Y → polydata) (m : M X)
    (k : X → M Y) w b w' :
  respects (emitted anything) m →
  (∀ a w1, k a w1 = (Returned b, w') → written s path name value w1 b w') →
  bind m k w = (Returned b, w') → written s path name value w b w'.
Proof.
  intros Hm Hk Hrun. apply bind_returned in Hrun as (a & w1 & Hm1 & Hk1).
  eapply written_after; [by eapply Hm|by eapply Hk].
Qed.

(** The last steps of a computing branch: a library call and the writing
    of its result. *)
Lemma written_call_write s path name (p : polydata) w :
  written s path name (fun p => p) w p
          (stored path (Polydata p)
             (logged (Event s (Write path)) (logged (Event s (Call name)) w))).
Proof.
  split; [simpl; by rewrite lookup_insert_eq|].
  exists [Event s (Call name); Event s (Write path)]. simpl.
  split; [by rewrite <- app_assoc|]. split; [by left|right; by left].
Qed.

(** *** The clipped model *)

Lemma uncap_surface_checkpointed surface :
  checkpointed Setup (file_name_clipped_model args) "get_uncapped_surface"
               (fun p => p) (fun _ => True) (uncap_surface args surface).
Proof.
  eapply checkpointed_intro.
  - intros w. apply compute_or_read_plain.
  - done.
  - intros w a w' _ [= <- <-]. apply written_call_write.
  - intros w _ _. eexists _, _. reflexivity.
Qed.

(** *** The smoothed surface *)

Lemma smooth_laplace_taubin_checkpointed surface :
  checkpointed Smoothing (file_name_surface_smooth args) "vmtk_smooth_surface"
               (fun p => p) (fun _ => True) (smooth_laplace_taubin args surface).
Proof.
  eapply checkpointed_intro.
  - intros w. apply compute_or_read_plain.
  - done.
  - intros w a w' _ [= <- <-]. apply written_call_write.
  - intros w _ _. eexists _, _. reflexivity.
Qed.

(** The Voronoi smoothing goes through when no Voronoi file is left over
    and the smoothed surface has as many outlets as there are
    centerlines. *)
Definition voronoi_ok (surface : polydata) (cd : centerline_data)
    (rd : region_data) (w : world) : Prop :=
  files w !! file_name_voronoi args = None ∧
  files w !! file_name_voronoi_smooth args = None ∧
  let voronoi := vmtk_compute_voronoi_diagram (cd_capped_surface cd) in
  let voronoi_smoothed :=
    smooth_voronoi_diagram voronoi (cd_centerlines cd) (smoothing_factor args)
                           (rd_region_centerlines rd) in
  let surface_smoothed := create_new_surface voronoi_smoothed in
  let surface_uncapped :=
    prepare_output_surface surface_smoothed surface (cd_centerlines cd) in
  GetNumberOfLines (cd_centerlines cd)
  = (Z.of_nat (length (compute_centers surface_uncapped).2) / 3)%Z.

Lemma smooth_voronoi_checkpointed surface cd rd :
  checkpointed Smoothing (file_name_surface_smooth args) "vmtk_smooth_surface"
               (fun p => p) (voronoi_ok surface cd rd)
               (smooth_voronoi args surface cd rd).
Proof.
  eapply checkpointed_intro.
  - intros w. apply compute_or_read_plain.
  - done.
  - intros w a w' _.
    apply written_bind; [any_auto|]. intros found_voronoi w1.
    apply written_bind; [destruct found_voronoi; any_auto|]. intros voronoi w2.
    apply written_bind; [any_auto|]. intros found_smooth w3.
    apply written_bind; [destruct found_smooth; any_auto|].
    intros voronoi_smoothed w4.
    apply written_bind; [any_auto|]. intros surface_smoothed w5.
    apply written_bind; [any_auto|]. intros surface_uncapped w6.
    apply written_bind; [any_auto|]. intros [inlets outlets] w7.
    cbv zeta. destruct (Z.eqb _ _); simpl; [|by rewrite bind_write_polydata].
    intros [= <- <-]. apply written_call_write.
  - intros w Hnone (Hv & Hvs & Hcount).
    rewrite bind_isfile_missing by done. simpl. run_steps.
    rewrite bind_isfile_missing.
    2:{ simpl. rewrite lookup_insert_ne; [done|different_names]. }
    simpl. run_steps. cbv zeta in Hcount.
    destruct (compute_centers _) as [inlets outlets] eqn:Ecenters.
    simpl in Hcount. cbv zeta. rewrite Hcount, Z.eqb_refl. simpl.
    eexists _, _. reflexivity.
Qed.

(** *** The surface with flow extensions *)

Lemma add_extensions_checkpointed surface cd :
  checkpointed FlowExtension (file_name_model_flow_ext args) "add_flow_extension"
               (fun p => p) (fun _ => True) (add_extensions args surface cd).
Proof.
  eapply checkpointed_intro.
  - intros w. apply compute_or_read_plain.
  - done.
  - intros w a w' _.
    destruct (has_multiple_inlets args); cbv zeta; run_steps;
      intros [= <- <-]; (split; [simpl; by rewrite lookup_insert_eq|]);
      eexists [_; _; _; _]; simpl;
      (split; [by rewrite <- !app_assoc|]);
      (split; [by left|right; right; right; by left]).
  - intros w _ _.
    destruct (has_multiple_inlets args); cbv zeta; run_steps;
      eexists _, _; reflexivity.
Qed.

(** *** The parameter file *)

(** The dictionary [get_parameters] returns. *)
Definition stored_parameters (w : world) : parameters :=
  match files w !! file_name_parameters args with
  | Some (Json d) => d
  | _ => ∅
  end.

Lemma bind_get_parameters {X} s (k : parameters → M X) w :
  bind (get_parameters args s) k w
  = k (stored_parameters w) (logged (Event s (Call "get_parameters")) w).
Proof.
  unfold get_parameters, stored_parameters. rewrite bind_bind, bind_emit.
  unfold bind. simpl. by destruct (files w !! _) as [[p|d|]|].
Qed.

Lemma bind_write_parameters {X} s data (k : unit → M X) w :
  bind (write_parameters args s data) k w
  = k tt (stored (file_name_parameters args)
                 (Json (data ∪ stored_parameters w))
                 (logged (Event s (Write (file_name_parameters args)))
                         (logged (Event s (Call "get_parameters")) w))).
Proof.
  unfold write_parameters. rewrite bind_bind, bind_get_parameters.
  by run_steps.
Qed.

(** The world after [get_centers_for_meshing]. *)
Definition after_centers (s : stage) (found : parameters) (w : world) : world :=
  stored (file_name_parameters args)
    (Json (found ∪ stored_parameters w))
    (logged (Event s (Write (file_name_parameters args)))
       (logged (Event s (Call "get_parameters"))
          (logged (Event s (Call "get_centers_for_meshing"))
             (logged (Event s (Call "get_parameters")) w)))).

Lemma bind_centers_for_meshing {X} s surface use_flow_extensions
    (k : list float * list float → M X) w :
  bind (centers_for_meshing args s surface use_flow_extensions) k w
  = let centers :=
      get_centers_for_meshing surface (has_multiple_inlets args)
                              (stored_parameters w) use_flow_extensions in
    k (centers.1.1, centers.1.2) (after_centers s centers.2 w).
Proof.
  unfold centers_for_meshing. rewrite bind_bind, bind_get_parameters.
  destruct (get_centers_for_meshing _ _ _ _) as [[inlet outlets] found].
  rewrite bind_bind, bind_emit, bind_bind, bind_write_parameters.
  by run_steps.
Qed.

(** *** The centerlines of the extended model *)

Lemma compute_centerlines_missing {X} s source target path capped_surface
    resampling (k : polydata → M X) w :
  files w !! path = None →
  bind (compute_centerlines s source target path capped_surface resampling) k w
  = let centerlines :=
      vmtk_compute_centerlines source target capped_surface resampling in
    k centerlines
      (stored path (Polydata centerlines)
         (logged (Event s (Write path))
            (logged (Event s (Call "compute_centerlines")) w))).
Proof.
  intros Hnone. unfold compute_centerlines.
  rewrite bind_bind, bind_isfile_missing by done. simpl. by run_steps.
Qed.

Lemma extended_centerlines_missing surface_extended capped_surface cd
    resampling_step w :
  files w !! file_name_flow_centerlines args = None →
  ∃ (inlet source target : list float) (found : parameters),
    let centerlines :=
      vmtk_compute_centerlines source target capped_surface resampling_step in
    extended_centerlines args surface_extended capped_surface cd
                         resampling_step w
    = (Returned (centerlines, inlet),
       stored (file_name_flow_centerlines args) (Polydata centerlines)
         (logged (Event FlowExtension (Write (file_name_flow_centerlines args)))
            (logged (Event FlowExtension (Call "compute_centerlines"))
               (after_centers FlowExtension found w)))).
Proof.
  intros Hnone. unfold extended_centerlines.
  rewrite bind_isfile_missing by done. simpl.
  rewrite !bind_bind, bind_centers_for_meshing. cbv zeta.
  destruct (get_centers_for_meshing _ _ _ _) as [[inlet outlets] found]. simpl.
  destruct (cd_has_outlet cd); run_steps; cbv zeta;
    (rewrite compute_centerlines_missing;
     [|simpl; rewrite lookup_insert_ne; [done|different_names]]);
    cbv zeta; run_steps; eexists _, _, _, _; reflexivity.
Qed.

Lemma extended_centerlines_checkpointed surface_extended capped_surface cd
    resampling_step :
  checkpointed FlowExtension (file_name_flow_centerlines args) "compute_centerlines"
               fst (fun _ => True)
               (extended_centerlines args surface_extended capped_surface cd
                                     resampling_step).
Proof.
  eapply (checkpointed_intro _ _ _ _ _ _ (fun p => (p, cd_inlet cd))).
  - intros w. reflexivity.
  - done.
  - intros w a w' Hnone Hrun.
    destruct (extended_centerlines_missing surface_extended capped_surface cd
                resampling_step w Hnone)
      as (inlet & source & target & found & Heq). cbv zeta in Heq.
    assert (Hsame : (Returned a, w') = (Returned
              (vmtk_compute_centerlines source target capped_surface
                 resampling_step, inlet),
              stored (file_name_flow_centerlines args)
                (Polydata (vmtk_compute_centerlines source target capped_surface
                             resampling_step))
                (logged (Event FlowExtension
                           (Write (file_name_flow_centerlines args)))
                   (logged (Event FlowExtension (Call "compute_centerlines"))
                      (after_centers FlowExtension found w))))).
    { rewrite <- Hrun, <- Heq. unfold extended_centerlines.
      by rewrite bind_isfile_missing by done. }
    injection Hsame as -> ->. split; [simpl; by rewrite lookup_insert_eq|].
    eexists [_; _; _; _; _; _]. simpl.
    split; [by rewrite <- !app_assoc|].
    split; [do 4 right; by left|do 5 right; by left].
  - intros w Hnone _.
    destruct (extended_centerlines_missing surface_extended capped_surface cd
                resampling_step w Hnone)
      as (inlet & source & target & found & Heq). cbv zeta in Heq.
    eexists _, _. rewrite <- Heq. unfold extended_centerlines.
    by rewrite bind_isfile_missing by done.
Qed.

(** *** The distance fields *)

Lemma distance_field_eq name field path w :
  distance_field name field path w
  = (Returned field,
     stored path (Polydata field)
       (logged (Event DistanceField (Write path))
          (logged (Event DistanceField (Call name)) w))).
Proof. reflexivity. Qed.

Lemma distance_constant_checkpointed surface_extended centerlines rd :
  checkpointed DistanceField (file_name_distance_to_sphere_const args)
               "dist_sphere_constant" (fun p => p) (fun _ => True)
               (distance_constant args surface_extended centerlines rd).
Proof.
  eapply checkpointed_intro.
  - intros w. apply compute_or_read_plain.
  - done.
  - intros w a w' _ [= <- <-]. apply written_call_write.
  - intros w _ _. eexists _, _. reflexivity.
Qed.

Lemma distance_curvature_checkpointed surface_extended centerlines rd :
  checkpointed DistanceField (file_name_distance_to_sphere_curv args)
               "dist_sphere_curvature" (fun p => p) (fun _ => True)
               (distance_curvature args surface_extended centerlines rd).
Proof.
  eapply checkpointed_intro.
  - intros w. apply compute_or_read_plain.
  - done.
  - intros w a w' _ [= <- <-]. apply written_call_write.
  - intros w _ _. eexists _, _. reflexivity.
Qed.

Lemma distance_diameter_checkpointed surface_extended centerlines rd :
  checkpointed DistanceField (file_name_distance_to_sphere_diam args)
               "dist_sphere_diam" (fun p => p) (fun _ => True)
               (distance_diameter args surface_extended centerlines rd).
Proof.
  eapply checkpointed_intro.
  - intros w. apply compute_or_read_plain.
  - done.
  - intros w a w' _ [= <- <-]. apply written_call_write.
  - intros w _ _. eexists _, _. reflexivity.
Qed.

Lemma distance_spheres_checkpointed surface_extended :
  checkpointed DistanceField (file_name_distance_to_sphere_spheres args)
               "dist_sphere_spheres" (fun p => p)
               (fun _ => length (meshing_parameters args) = 4)
               (distance_spheres args surface_extended).
Proof.
  eapply checkpointed_intro.
  - intros w. apply compute_or_read_plain.
  - done.
  - intros w a w' _. destruct (Nat.eqb _ _); [|done].
    intros [= <- <-]. apply written_call_write.
  - intros w _ ->. simpl. eexists _, _. reflexivity.
Qed.

(** The variable thickness goes through with four or no parameters and a
    mesh-density field at hand. *)
Definition thickness_ok (distance_to_sphere : option polydata) : Prop :=
  is_Some distance_to_sphere ∧
  (length (solid_thickness_parameters args) = 4 ∨
   length (solid_thickness_parameters args) = 0).

Lemma variable_thickness_checkpointed distance_to_sphere :
  checkpointed DistanceField (file_name_distance_to_sphere_solid_thickness args)
               "distance_to_spheres_solid_thickness" fst
               (fun _ => thickness_ok distance_to_sphere)
               (variable_thickness args distance_to_sphere).
Proof.
  eapply (checkpointed_intro _ _ _ _ _ _
            (fun p => (p, solid_thickness_parameters args))).
  - intros w. reflexivity.
  - done.
  - intros w a w' _.
    destruct (Nat.eqb _ 4); [|destruct (Nat.eqb _ 0); [|done]];
      (destruct distance_to_sphere as [d|]; [|done]); simpl;
      rewrite bind_ret; unfold bind; rewrite distance_field_eq;
      intros [= <- <-]; (split; [simpl; by rewrite lookup_insert_eq|]);
      eexists [_; _]; simpl; (split; [by rewrite <- app_assoc|]);
      (split; [by left|right; by left]).
  - intros w _ [[d ->] Hlen]. simpl.
    destruct Hlen as [->| ->]; simpl; rewrite bind_ret; unfold bind;
      rewrite distance_field_eq; eexists _, _; reflexivity.
Qed.

End Checkpoints.

(** *** The volumetric mesh *)

Lemma append_assoc (s1 s2 s3 : string) :
  (s1 +:+ s2) +:+ s3 = s1 +:+ (s2 +:+ s3).
Proof.
  induction s1 as [|c s1 IH]; [done|].
  change (String c ((s1 +:+ s2) +:+ s3) = String c (s1 +:+ (s2 +:+ s3))).
  by rewrite IH.
Qed.

Section MeshCheckpoint.
Context `{Externals}.
Variable args : arguments.

Lemma generate_mesh_attempts_returned d p n :
  ∀ w r w', generate_mesh_attempts args n d p w = (Returned r, w') →
            ∃ k, w' = after_attempts k w ∧ (is_Some r → 0 < k).
Proof.
  induction n as [|n IH]; intros w r w'; simpl.
  - intros [= <- <-]. exists 0. split; [by rewrite after_attempts_0|].
    by intros [? ?].
  - unfold bind at 1. rewrite try_generate_mesh_eq.
    destruct (attempt _ _ _ _) as [ms|status|[| | | |]]; try done.
    + intros [= <- <-]. exists 1. split; [done|lia].
    + intros Hrun. apply IH in Hrun as (k & -> & Hk). exists (S k).
      split; [by rewrite after_attempts_S|lia].
Qed.

Lemma assert_returned condition w w' :
  assert condition w = (Returned tt, w') → condition = true ∧ w' = w.
Proof. unfold assert. destruct condition; [by intros [= <-]|done]. Qed.

(** A mesh comes from a call of [generate_mesh], and no file is touched on
    the way. *)
Lemma generate_mesh_with_fallback_returned d p w mesh_and_surface w' :
  generate_mesh_with_fallback args d p w = (Returned mesh_and_surface, w') →
  files w' = files w ∧
  ∃ evs, log w' = log w ++ evs ∧ In (generate_mesh_called) evs.
Proof.
  unfold generate_mesh_with_fallback. intros Hrun.
  apply bind_returned in Hrun as (r & w1 & Hatt & Hrun).
  apply generate_mesh_attempts_returned in Hatt as (k & -> & Hk).
  apply bind_returned in Hrun as ([m s] & w2 & Hsel & Hrun).
  apply bind_returned in Hrun as ([] & w3 & [_ ->]%assert_returned & Hrun).
  apply bind_returned in Hrun as ([] & w4 & [_ ->]%assert_returned & Hrun).
  injection Hrun as _ <-. destruct r as [ms|].
  - injection Hsel as _ <-. split; [done|]. exists (repeat generate_mesh_called k).
    split; [done|]. destruct k; [exfalso; by apply (Nat.lt_irrefl 0), Hk|by left].
  - rewrite bind_call in Hsel. unfold bind in Hsel.
    rewrite try_generate_mesh_eq, after_fallback_eq in Hsel.
    destruct (attempt _ _ _ _) as [ms|status|[| | | |]]; try done.
    injection Hsel as _ <-. split; [done|]. eexists. split; [reflexivity|].
    apply in_or_app. right. right. by left.
Qed.

(** The mesh goes through when the first attempt gives a mesh and a surface
    that have points. *)
Definition mesh_ok (distance_to_sphere : option polydata)
    (solid_thickness_parameters : list float) (w : world) : Prop :=
  (0 ≤ mesh_generation_retries args)%Z ∧
  ∃ d mesh_and_surface,
    distance_to_sphere = Some d ∧
    attempt args (mesh_attempts w) d solid_thickness_parameters
    = Returned mesh_and_surface ∧
    asserted mesh_and_surface = Returned mesh_and_surface.

Lemma compute_mesh_checkpointed distance_to_sphere solid_thickness_parameters
    parameters :
  checkpointed MeshGeneration (file_name_vtu_mesh args) "generate_mesh" fst
               (mesh_ok distance_to_sphere solid_thickness_parameters)
               (compute_mesh args distance_to_sphere solid_thickness_parameters
                             parameters).
Proof.
  eapply (checkpointed_intro _ _ _ _ _ _ (fun p => (p, file_name_xml_mesh args))).
  - intros w. reflexivity.
  - done.
  - intros w a w' Hnone Hrun.
    apply bind_returned in Hrun as (d & w1 & Hbound & Hrun).
    assert (w1 = w) as ->.
    { destruct distance_to_sphere; [by injection Hbound|done]. }
    apply bind_returned in Hrun as ([mesh surface] & w2 & Hmesh & Hrun).
    apply generate_mesh_with_fallback_returned in Hmesh
      as (Hfiles & evs & Hlog & Hin).
    assert (Hvtu : file_name_parameters args ≠ file_name_vtu_mesh args)
      by different_names.
    assert (Hxml : file_name_xml_mesh args ≠ file_name_vtu_mesh args)
      by different_names.
    assert (Hgz : file_name_xml_mesh args +:+ ".gz" ≠ file_name_vtu_mesh args).
    { unfold file_name_xml_mesh, file_name_vtu_mesh.
      rewrite append_assoc. different_names. }
    unfold store_mesh in Hrun.
    destruct (String.eqb (mesh_format args) "xml" || String.eqb (mesh_format args) "hdf5");
      unfold write_mesh in Hrun; revert Hrun; run_steps;
      rewrite bind_write_parameters; unfold ret;
      intros [= <- <-]; simpl.
    + split; simpl.
      * rewrite lookup_insert_ne by done.
        rewrite lookup_insert_ne by (by destruct (compress_mesh args)).
        by rewrite lookup_insert_eq.
      * eexists (evs ++ [_; _; _; _; _; _]). rewrite Hlog, <- !app_assoc. simpl.
        split; [done|]. split; apply in_or_app; [by left|].
        right. do 2 right. by left.
    + split; simpl.
      * rewrite lookup_insert_ne by done. by rewrite lookup_insert_eq.
      * eexists (evs ++ [_; _; _; _]). rewrite Hlog, <- !app_assoc. simpl.
        split; [done|]. split; apply in_or_app; [by left|].
        right. right. by left.
  - intros w Hnone (Hretries & d & ms & -> & Hattempt & Hasserted). simpl.
    rewrite bind_ret. unfold bind at 1.
    rewrite (generate_mesh_with_fallback_succeed args d _ w 0 ms);
      [|lia|intros i Hi; lia|by rewrite Nat.add_0_r].
    rewrite Hasserted. destruct ms as [mesh surface]. unfold store_mesh.
    destruct (String.eqb (mesh_format args) "xml" || String.eqb (mesh_format args) "hdf5");
      unfold write_mesh; run_steps; rewrite bind_write_parameters;
      eexists _, _; reflexivity.
Qed.

End MeshCheckpoint.

(** ** Running again on the files of an earlier run (C3) *)

Section Resume.
Context `{Externals}.
Variable args : arguments.

(** The checkpointed results, one per file. *)
Inductive checkpoint : Type :=
  | ClippedModel
  | SmoothedSurface
  | FlowExtendedSurface
  | FlowExtensionCenterlines
  | DistanceConstant
  | DistanceCurvature
  | DistanceDiameter
  | DistanceSpheres
  | SolidThickness
  | VolumetricMesh.

Definition checkpoint_file (c : checkpoint) : string :=
  match c with
  | ClippedModel => file_name_clipped_model args
  | SmoothedSurface => file_name_surface_smooth args
  | FlowExtendedSurface => file_name_model_flow_ext args
  | FlowExtensionCenterlines => file_name_flow_centerlines args
  | DistanceConstant => file_name_distance_to_sphere_const args
  | DistanceCurvature => file_name_distance_to_sphere_curv args
  | DistanceDiameter => file_name_distance_to_sphere_diam args
  | DistanceSpheres => file_name_distance_to_sphere_spheres args
  | SolidThickness => file_name_distance_to_sphere_solid_thickness args
  | VolumetricMesh => file_name_vtu_mesh args
  end.

Definition checkpoint_stage (c : checkpoint) : stage :=
  match c with
  | ClippedModel => Setup
  | SmoothedSurface => Smoothing
  | FlowExtendedSurface | FlowExtensionCenterlines => FlowExtension
  | DistanceConstant | DistanceCurvature | DistanceDiameter | DistanceSpheres
  | SolidThickness => DistanceField
  | VolumetricMesh => MeshGeneration
  end.

(** The library functions called inside [if not path.isfile(...)] to
    compute the result. *)
Definition checkpoint_calls (c : checkpoint) : list string :=
  match c with
  | ClippedModel => ["get_uncapped_surface"]
  | SmoothedSurface => smoothing_calls
  | FlowExtendedSurface => ["add_flow_extension"; "vmtk_smooth_surface"]
  | FlowExtensionCenterlines => ["get_centers_for_meshing"; "compute_centerlines"]
  | DistanceConstant => ["dist_sphere_constant"]
  | DistanceCurvature => ["dist_sphere_curvature"]
  | DistanceDiameter => ["dist_sphere_diam"]
  | DistanceSpheres => ["dist_sphere_spheres"]
  | SolidThickness => ["distance_to_spheres_solid_thickness"]
  | VolumetricMesh => ["generate_mesh"; "mesh_alternative"; "write_mesh"]
  end.

(** The event [e] is a step of the computation of [c]. *)
Definition computes (c : checkpoint) (e : event) : bool :=
  stage_eqb (ev_stage e) (checkpoint_stage c) &&
  match ev_op e with
  | Call name => existsb (String.eqb name) (checkpoint_calls c)
  | _ => false
  end.

Definition skips (c : checkpoint) (e : event) : bool := negb (computes c e).

(** If the file of [c] is there it stays, and [c] is not computed. *)
Definition resumes (c : checkpoint) (w w' : world) : Prop :=
  is_Some (files w !! checkpoint_file c) →
  is_Some (files w' !! checkpoint_file c) ∧ emitted (skips c) w w'.

#[export] Instance resumes_preorder c : PreOrder (resumes c).
Proof.
  split.
  - intros w Hfile. split; [done|reflexivity].
  - intros w1 w2 w3 H12 H23 Hfile. destruct (H12 Hfile) as [Hfile2 He12].
    destruct (H23 Hfile2) as [Hfile3 He23]. split; [done|].
    by transitivity w2.
Qed.

(** The calls of [names] in stage [s] are no steps of [c]. *)
Definition apart (s : stage) (names : list string) (c : checkpoint) : bool :=
  negb (stage_eqb s (checkpoint_stage c))
  || forallb (fun name => negb (existsb (String.eqb name) (checkpoint_calls c)))
             names.

Lemma apart_skips s names c e :
  apart s names c = true → allowed s names e = true → skips c e = true.
Proof.
  intros Hapart Ha. pose proof (allowed_stage _ _ _ Ha) as Hs.
  destruct e as [st op]. simpl in Hs. subst st.
  unfold allowed in Ha. apply andb_true_iff in Ha as [_ Hop]. simpl in Hop.
  unfold skips, computes. simpl. apply negb_true_iff.
  destruct op as [name|path|path|path]; try apply andb_false_r.
  apply orb_true_iff in Hapart as [Hstage|Hnames].
  - apply negb_true_iff in Hstage. by rewrite Hstage.
  - apply existsb_exists in Hop as (name' & Hin & ->%String.eqb_eq).
    rewrite forallb_forall in Hnames. specialize (Hnames _ Hin).
    apply negb_true_iff in Hnames. rewrite Hnames. apply andb_false_r.
Qed.

Lemma progress_resumes s names c w w' :
  apart s names c = true → progress (allowed s names) w w' → resumes c w w'.
Proof.
  intros Hapart [Hkeeps He] Hfile. split; [by apply Hkeeps|].
  eapply emitted_mono; [|exact He]. intros e. by apply apart_skips.
Qed.

Lemma respects_progress_resumes {X} s names c (m : M X) :
  apart s names c = true → respects (progress (allowed s names)) m →
  respects (resumes c) m.
Proof.
  intros Hapart. apply respects_weaken. intros w w'. by apply progress_resumes.
Qed.

(** A checkpointed stage whose file is there only reads it. *)
Lemma checkpointed_resumes {X} c name (value : X → polydata) ok (block : M X) :
  checkpointed (checkpoint_stage c) (checkpoint_file c) name value ok block →
  respects (resumes c) block.
Proof.
  intros Hcp w o w' Hrun Hfile.
  destruct (cp_skip _ _ _ _ _ _ Hcp w Hfile) as [o' Heq].
  rewrite Heq in Hrun. injection Hrun as _ <-. split; [done|].
  exists [Event (checkpoint_stage c) (Read (checkpoint_file c))].
  split; [done|]. constructor; [|done].
  unfold skips, computes. simpl. by rewrite andb_false_r.
Qed.

Lemma clip_model_resumes surface :
  respects (resumes ClippedModel) (clip_model args surface).
Proof.
  unfold clip_model. apply respects_bind; [apply _| |].
  - apply (respects_progress_resumes Setup ["check_if_closed_surface"]); [done|].
    by apply call_progress.
  - intros [|]; [|apply respects_ret, _].
    eapply (checkpointed_resumes ClippedModel), uncap_surface_checkpointed.
Qed.

Lemma smooth_surface_resumes surface cd rd :
  respects (resumes SmoothedSurface) (smooth_surface args surface cd rd).
Proof.
  unfold smooth_surface. destruct (String.eqb _ "voronoi").
  - eapply (checkpointed_resumes SmoothedSurface), smooth_voronoi_checkpointed.
  - destruct (_ || _); [|apply respects_ret, _].
    eapply (checkpointed_resumes SmoothedSurface),
      smooth_laplace_taubin_checkpointed.
Qed.

Lemma extend_surface_resumes surface cd :
  respects (resumes FlowExtendedSurface) (extend_surface args surface cd).
Proof.
  unfold extend_surface. destruct (add_flow_extensions args);
    [|apply respects_ret, _].
  eapply (checkpointed_resumes FlowExtendedSurface), add_extensions_checkpointed.
Qed.

Lemma flow_centerlines_resumes surface_extended capped_surface cd resampling_step :
  respects (resumes FlowExtensionCenterlines)
           (flow_centerlines args surface_extended capped_surface cd
                             resampling_step).
Proof.
  unfold flow_centerlines. destruct (add_flow_extensions args);
    [|apply respects_ret, _].
  eapply (checkpointed_resumes FlowExtensionCenterlines),
    extended_centerlines_checkpointed.
Qed.

Lemma solid_thickness_field_resumes distance_to_sphere :
  respects (resumes SolidThickness) (solid_thickness_field args distance_to_sphere).
Proof.
  unfold solid_thickness_field. destruct (String.eqb _ "variable").
  - apply respects_bind; [apply _| |intros [? ?]; apply respects_ret, _].
    eapply (checkpointed_resumes SolidThickness), variable_thickness_checkpointed.
  - apply (respects_progress_resumes DistanceField []); [done|]. progress_auto.
Qed.

Lemma compute_mesh_resumes distance_to_sphere solid_thickness_parameters
    parameters :
  respects (resumes VolumetricMesh)
           (compute_mesh args distance_to_sphere solid_thickness_parameters
                         parameters).
Proof.
  eapply (checkpointed_resumes VolumetricMesh), compute_mesh_checkpointed.
Qed.

(** The four mesh-density fields: each is read back when its file is there,
    and left alone by the other three. *)

Lemma distance_constant_resumes c surface_extended centerlines rd :
  respects (resumes c) (distance_constant args surface_extended centerlines rd).
Proof.
  destruct c;
    first [ eapply (checkpointed_resumes DistanceConstant),
              distance_constant_checkpointed
          | apply (respects_progress_resumes DistanceField ["dist_sphere_constant"]);
            [done|unfold distance_constant; progress_auto] ].
Qed.

Lemma distance_curvature_resumes c surface_extended centerlines rd :
  respects (resumes c) (distance_curvature args surface_extended centerlines rd).
Proof.
  destruct c;
    first [ eapply (checkpointed_resumes DistanceCurvature),
              distance_curvature_checkpointed
          | apply (respects_progress_resumes DistanceField ["dist_sphere_curvature"]);
            [done|unfold distance_curvature; progress_auto] ].
Qed.

Lemma distance_diameter_resumes c surface_extended centerlines rd :
  respects (resumes c) (distance_diameter args surface_extended centerlines rd).
Proof.
  destruct c;
    first [ eapply (checkpointed_resumes DistanceDiameter),
              distance_diameter_checkpointed
          | apply (respects_progress_resumes DistanceField ["dist_sphere_diam"]);
            [done|unfold distance_diameter; progress_auto] ].
Qed.

Lemma distance_spheres_resumes c surface_extended :
  respects (resumes c) (distance_spheres args surface_extended).
Proof.
  destruct c;
    first [ eapply (checkpointed_resumes DistanceSpheres),
              distance_spheres_checkpointed
          | apply (respects_progress_resumes DistanceField ["dist_sphere_spheres"]);
            [done|unfold distance_spheres; progress_auto] ].
Qed.

Lemma compute_distance_to_sphere_resumes c surface_extended centerlines rd :
  respects (resumes c)
           (compute_distance_to_sphere args surface_extended centerlines rd).
Proof.
  unfold compute_distance_to_sphere.
  destruct (String.eqb _ "constant").
  { apply respects_bind; [apply _|apply distance_constant_resumes|].
    intros d. apply respects_ret, _. }
  destruct (String.eqb _ "curvature").
  { apply respects_bind; [apply _|apply distance_curvature_resumes|].
    intros d. apply respects_ret, _. }
  destruct (String.eqb _ "diameter").
  { apply respects_bind; [apply _|apply distance_diameter_resumes|].
    intros d. apply respects_ret, _. }
  destruct (String.eqb _ "distancetospheres"); [|apply respects_ret, _].
  apply respects_bind; [apply _|apply distance_spheres_resumes|].
  intros d. apply respects_ret, _.
Qed.

End Resume.

(** One of the blocks of [run_stages] leaves a checkpoint alone: the block
    that owns it reads it back, the others do not call what computes it. *)
Ltac block_resumes :=
  first
    [ apply respects_ret, _
    | apply clip_model_resumes
    | apply smooth_surface_resumes
    | apply extend_surface_resumes
    | apply flow_centerlines_resumes
    | apply compute_distance_to_sphere_resumes
    | apply solid_thickness_field_resumes
    | apply compute_mesh_resumes
    | eapply respects_progress_resumes;
      [|first
          [ apply load_model_progress
          | apply clip_model_progress
          | apply check_surface_progress
          | apply cap_surface_progress
          | apply get_centerlines_progress
          | apply refine_regions_progress
          | apply smooth_surface_progress
          | apply extend_surface_progress
          | apply flow_centerlines_progress
          | apply clip_centerline_progress
          | apply solid_thickness_field_progress
          | apply compute_mesh_progress
          | apply convert_mesh_progress
          | apply set_boundary_ids_progress
          | apply visualize_and_simulate_progress ]];
      reflexivity ].

Section Rerun.
Context `{Externals}.
Variable args : arguments.
Hypothesis keep_files : remove_all args = false.

Lemma run_stages_resumes c : respects (resumes args c) (run_stages args).
Proof.
  unfold run_stages, remove_all_files. rewrite keep_files.
  destruct c;
    repeat (apply respects_bind; [apply _|block_resumes|intro_result]);
    block_resumes.
Qed.

(** With its file there at the start, a checkpoint is computed nowhere in
    the run. *)
Lemma run_pre_processing_resumes c w o w' :
  run_pre_processing args w = (o, w') →
  is_Some (files w !! checkpoint_file args c) →
  ∃ evs, log w' = log w ++ evs ∧ Forall (fun e => computes c e = false) evs.
Proof.
  intros Hrun Hfile.
  assert (Hskips : emitted (skips c) w w').
  { revert Hrun. unfold run_pre_processing, bind.
    destruct (run_stages args w) as [[[]|status|e] w1] eqn:Estages;
      pose proof (run_stages_resumes c _ _ _ Estages Hfile) as [_ He];
      [|by intros [= _ <-]..].
    intros Hrun. transitivity w1; [done|].
    eapply emitted_mono; [|eapply remove_existing_emitted, Hrun].
    intros [st op]. unfold removals, skips, computes. simpl.
    intros [_ Hop]%andb_true_iff. destruct op; try done.
    all: by rewrite andb_false_r. }
  destruct Hskips as (evs & Hlog & Hall). exists evs. split; [done|].
  eapply Forall_impl; [exact Hall|]. intros e. unfold skips.
  apply negb_true_iff.
Qed.

End Rerun.

(** ** The stages of a completed run (C2) *)

Section Stages.
Context `{Externals}.
Variable args : arguments.









(** *** Surface cleaning *)





(** *** Capping *)


(** *** Results that are computed or read back *)



(** *** Centerline extraction *)





(** *** Smoothing *)



(** *** Flow extension *)



(** *** Distance field *)



(** *** Mesh generation *)




(** *** Boundary ids *)



(** *** The field of the variable thickness *)


(** *** Operations of the smoothing and of the flow extensions *)


(** *** The whole run *)



End Stages.


(** ** The four properties of [run_pre_processing] *)

Section Claims.
Context `{Externals}.
Variable args : arguments.

(** C1. When the VTU mesh file is missing, the mesh block of
    [run_pre_processing] starts with the attempts: [generate_mesh] is called
    up to [mesh_generation_retries + 1] times, a [RuntimeError] counting as a
    failed attempt, and the first attempt that returns ends the loop. When
    all of them fail, [mesh_alternative] transforms the field and
    [generate_mesh] is called exactly once more; when that call fails too the
    run exits with status -1 and the mesh file is still missing. A mesh and
    a remeshed surface that are returned have passed the two assertions:
    both have more than zero points. *)
Theorem generate_mesh_retries_then_fallback d p parameters w :
  files w !! file_name_vtu_mesh args = None →
  let n := Z.to_nat (mesh_generation_retries args + 1) in
  compute_mesh args (Some d) p parameters w
  = bind (generate_mesh_with_fallback args d p)
         (fun '(mesh, remeshed_surface) =>
            store_mesh args mesh remeshed_surface parameters) w ∧
  ((0 ≤ mesh_generation_retries args)%Z →
   Z.of_nat n = (mesh_generation_retries args + 1)%Z) ∧
  (∀ j mesh_and_surface,
     j < n →
     (∀ i, i < j → attempt args (mesh_attempts w + i) d p = Raised RuntimeError) →
     attempt args (mesh_attempts w + j) d p = Returned mesh_and_surface →
     generate_mesh_with_fallback args d p w
     = (asserted mesh_and_surface, after_attempts (S j) w)) ∧
  ((∀ i, i < n → attempt args (mesh_attempts w + i) d p = Raised RuntimeError) →
   (∀ mesh_and_surface,
      attempt args (mesh_attempts w + n) (mesh_alternative d) p
      = Returned mesh_and_surface →
      generate_mesh_with_fallback args d p w
      = (asserted mesh_and_surface, after_fallback n w)) ∧
   (attempt args (mesh_attempts w + n) (mesh_alternative d) p
    = Raised RuntimeError →
    compute_mesh args (Some d) p parameters w = (Exited (-1), after_fallback n w) ∧
    files (after_fallback n w) !! file_name_vtu_mesh args = None)) ∧
  (∀ mesh remeshed_surface w',
     generate_mesh_with_fallback args d p w
     = (Returned (mesh, remeshed_surface), w') →
     (0 < GetNumberOfPoints mesh)%Z ∧ (0 < GetNumberOfPoints remeshed_surface)%Z).
Proof.
  intros Hnone n.
  assert (Hblock : compute_mesh args (Some d) p parameters w
                   = bind (generate_mesh_with_fallback args d p)
                          (fun '(mesh, remeshed_surface) =>
                             store_mesh args mesh remeshed_surface parameters) w).
  { unfold compute_mesh. rewrite bind_isfile_missing by done. simpl.
    by rewrite bind_ret. }
  split; [exact Hblock|]. split; [intros Hretries; subst n; lia|].
  split; [|split].
  - intros j ms Hj Hfail Hok.
    by apply (generate_mesh_with_fallback_succeed args d p w j ms).
  - intros Hfail.
    pose proof (generate_mesh_with_fallback_all_fail args d p w Hfail) as Hrun.
    fold n in Hrun. split.
    + intros ms Hok. by rewrite Hok in Hrun.
    + intros Hlast. rewrite Hlast in Hrun. split; [|done].
      rewrite Hblock. unfold bind. by rewrite Hrun.
  - intros mesh remeshed_surface w'.
    apply generate_mesh_with_fallback_asserted.
Qed.



(** C10. The removal of unused files at the end of [run_pre_processing]
    always returns; it removes files of its list only, each of which was
    there, and leaves every other file as it was. The mesh files ([.vtu],
    [.xml], [.h5], [.xdmf]), the parameter file and the probe points are not
    in the list, so at the end of a completed run they are what the stages
    left. *)
Theorem remove_unused_files_keeps_outputs :
  (∀ w, ∃ w',
     remove_unused_files args w = (Returned tt, w') ∧
     (∃ evs, log w' = log w ++ evs ∧
             Forall (fun e => ∃ path, e = Event Finish (Remove path) ∧
                                      path ∈ files_to_remove args ∧
                                      is_Some (files w !! path)) evs) ∧
     (∀ path, path ∈ files_to_remove args → files w' !! path = None) ∧
     (∀ path, path ∉ files_to_remove args → files w' !! path = files w !! path)) ∧
  Forall (fun path => path ∉ files_to_remove args) (output_files args) ∧
  (∀ w w',
     run_pre_processing args w = (Returned tt, w') →
     ∃ w1, run_stages args w = (Returned tt, w1) ∧
           ∀ path, path ∈ output_files args → files w' !! path = files w1 !! path).
Proof.
  split; [|split].
  - intros w.
    destruct (remove_existing_spec Finish (files_to_remove args) w)
      as (w' & Hrun & Hother & Hgone & _ & Hevs).
    exists w'. by repeat split.
  - apply (output_files_not_removed args).
  - intros w w' Hrun.
    apply bind_returned in Hrun as ([] & w1 & Hstages & Hclean).
    exists w1. split; [done|]. intros path Hpath.
    destruct (remove_existing_spec Finish (files_to_remove args) w1)
      as (w2 & Hrun2 & Hother & _).
    unfold remove_unused_files in Hclean. rewrite Hrun2 in Hclean.
    injection Hclean as <-. apply Hother.
    pose proof (output_files_not_removed args) as Hout.
    rewrite Forall_forall in Hout. by apply Hout.
Qed.

End Claims.

(** ** A run on a small instance *)

(** A toy instance of the libraries: a VTK object is a number, the number
    of its points; [generate_mesh] fails until it has been called as often
    as the field has points. *)
Definition sample_externals : Externals := {|
  polydata := nat;
  network := unit;
  base_path_of := fun model => "case";
  scale_surface := fun surface _ => surface;
  check_if_closed_surface := fun _ => true;
  get_uncapped_surface := fun surface => surface;
  vtk_clean_polydata := fun surface => surface;
  vtk_triangulate_surface := fun surface => surface;
  find_and_delete_nan_triangles := fun surface => (surface, false);
  clean_surface := fun surface => surface;
  vmtk_cap_polydata := fun surface => surface;
  get_centers_for_meshing := fun _ _ stored _ => ([0%float], [1%float], stored);
  get_furtest_surface_point := fun inlet _ => inlet;
  vmtk_compute_centerlines := fun _ _ surface _ => surface;
  get_centerline_tolerance := fun _ => 0.5%float;
  get_regions_to_refine := fun _ _ stored => ([], stored);
  extract_single_line := fun centerlines _ _ _ => centerlines;
  GetNumberOfPoints := Z.of_nat;
  GetNumberOfLines := fun _ => 1%Z;
  distance_to_closest_point := fun _ _ _ => 0%float;
  vtk_merge_polydata := fun lines => length lines;
  region_point := fun _ _ => [];
  max_radius := fun _ => 1%float;
  vmtk_compute_voronoi_diagram := fun surface => surface;
  smooth_voronoi_diagram := fun voronoi _ _ _ => voronoi;
  create_new_surface := fun voronoi => voronoi;
  prepare_output_surface := fun surface _ _ => surface;
  compute_centers := fun _ => ([0%float], [1%float]);
  vmtk_smooth_surface := fun surface _ _ => surface;
  add_flow_extension := fun surface _ _ _ _ => surface;
  vmtk_compute_geometric_features := fun line => line;
  frenet_tangent_id := fun _ => 0%Z;
  dist_sphere_constant := fun _ _ _ _ _ => 1;
  dist_sphere_curvature := fun _ _ _ _ _ => 1;
  dist_sphere_diam := fun _ _ _ _ _ => 1;
  dist_sphere_spheres := fun _ _ => 1;
  distance_to_spheres_solid_thickness := fun surface _ => surface;
  generate_mesh := fun k field _ _ _ _ =>
    if k <? field then Raised RuntimeError else Returned (field, field);
  mesh_alternative := fun field => field;
  setup_model_network := fun _ _ _ => (tt, []);
  compute_flow_rate := fun _ _ _ factor => factor;
  find_boundaries := fun _ _ _ _ => ∅
|}.

Definition sample_arguments : arguments := {|
  input_model := "case.vtp";
  smoothing_method := "taubin";
  smoothing_factor := 0.25%float;
  smoothing_iterations := 800;
  meshing_method := "constant";
  refine_region := false;
  has_multiple_inlets := false;
  add_flow_extensions := true;
  visualize := false;
  config_path := None;
  coarsening_factor := 1%float;
  inlet_flow_extension_length := 5%float;
  outlet_flow_extension_length := 5%float;
  number_of_sublayers_fluid := 2;
  number_of_sublayers_solid := 2;
  edge_length := Some 0.5%float;
  region_points := None;
  compress_mesh := true;
  scale_factor := None;
  scale_factor_h5 := 1%float;
  resampling_step := 0.125%float;
  meshing_parameters := [];
  remove_all := false;
  solid_thickness := "constant";
  solid_thickness_parameters := [0.25%float];
  mesh_format := "hdf5";
  flow_rate_factor := 0.25%float;
  solid_side_wall_id := 11;
  interface_fsi_id := 22;
  solid_outer_wall_id := 33;
  fluid_volume_id := 0;
  solid_volume_id := 1;
  mesh_generation_retries := 2;
  no_solid := false
|}.

(** Only the input model is there. *)
Definition sample_world : @world sample_externals :=
  {| files := {[ "case.vtp" := @Polydata sample_externals 7 ]};
     log := []; mesh_attempts := 0 |}.

(** The files of an earlier run: the input model and the mesh. *)
Definition sample_world_with_mesh : @world sample_externals :=
  {| files := <[ "case.vtu" := @Polydata sample_externals 1 ]>
                {[ "case.vtp" := @Polydata sample_externals 7 ]};
     log := []; mesh_attempts := 0 |}.

Definition sample_run : outcome unit * @world sample_externals :=
  @run_pre_processing sample_externals sample_arguments sample_world.


(** With a field of five points and two retries, the three attempts and
    the attempt after [mesh_alternative] all fail: the run exits. *)
Lemma generate_mesh_retries_then_fallback_witness :
  @compute_mesh sample_externals sample_arguments (Some 5) [] ∅ sample_world
  = (Exited (-1), after_fallback 3 sample_world).
Proof.
  destruct (generate_mesh_retries_then_fallback
              (H := sample_externals) sample_arguments 5 [] ∅ sample_world)
    as (_ & _ & _ & Hfail & _); [by vm_compute|].
  apply Hfail; [|by vm_compute].
  intros i Hi. change (i < 3) in Hi.
  unfold attempt. simpl.
  destruct (Nat.ltb_spec i 5); [reflexivity|lia].
Defined.






Lemma remove_unused_files_keeps_outputs_witness :
  ∃ w1, @run_stages sample_externals sample_arguments sample_world
        = (Returned tt, w1) ∧
        ∀ path, path ∈ @output_files sample_externals sample_arguments →
                files sample_run.2 !! path = files w1 !! path.
Proof.
  destruct (remove_unused_files_keeps_outputs
              (H := sample_externals) sample_arguments) as (_ & _ & Hrun).
  apply Hrun. by vm_compute.
Defined.

End PreprocessingFacts.

(* ===================================================================== *)
(** * More on separate_domain: index errors and separating twice         *)
(* ===================================================================== *)

Module SeparateDomainMore.
Import SeparateDomain SeparateDomainFacts.

(** ** Row selection that fails *)

Lemma take_rows_None {A} (a : list A) index :
  take_rows a index = None ↔ Exists (fun i => length a ≤ i) index.
Proof.
  unfold take_rows. induction index as [|i index IH]; simpl.
  - split; [done|]. intros H. inversion H.
  - rewrite Exists_cons, <- IH. destruct (a !! i) as [x|] eqn:Hi; simpl.
    + apply lookup_lt_Some in Hi.
      destruct (mapM _ index); simpl.
      * split; [done|]. intros [Hge|Hrest]; [lia|done].
      * split; [by right|done].
    + apply lookup_ge_None in Hi. split; [by left|done].
Qed.

(** ** Ranks *)

Lemma rank_lt (ids : list nat) v : In v ids → rank ids v < length ids.
Proof.
  induction ids as [|y ids IH]; simpl; [done|]. intros [->|Hin].
  - rewrite Nat.eqb_refl. lia.
  - destruct (Nat.eqb v y); [lia|]. specialize (IH Hin). lia.
Qed.

Lemma rank_seq_from m : ∀ k v, v < m → rank (seq k m) (k + v) = v.
Proof.
  induction m as [|m IH]; intros k v Hv; [lia|]. simpl.
  destruct v as [|v].
  - by rewrite Nat.add_0_r, Nat.eqb_refl.
  - destruct (Nat.eqb_spec (k + S v) k); [lia|].
    replace (k + S v) with (S k + v) by lia. rewrite IH by lia. done.
Qed.

Lemma rank_seq n v : v < n → rank (seq 0 n) v = v.
Proof. apply (rank_seq_from n 0 v). Qed.

(** A strictly increasing list that holds exactly the [n] numbers from
    [k] on. *)
Lemma sorted_segment n :
  ∀ k (l : list nat),
    StronglySorted lt l → (∀ v, In v l ↔ k ≤ v < k + n) → l = seq k n.
Proof.
  induction n as [|n IH]; intros k l Hs Hin.
  - destruct l as [|a l]; [done|].
    assert (k ≤ a < k + 0) by (apply Hin; by left). lia.
  - destruct l as [|a l].
    { assert (In k []) by (apply Hin; lia). done. }
    apply StronglySorted_inv in Hs as [Hs Hall].
    rewrite List.Forall_forall in Hall.
    assert (a = k) as ->.
    { assert (Hk : In k (a :: l)) by (apply Hin; lia).
      assert (k ≤ a < k + S n) by (apply Hin; by left).
      destruct Hk as [->|Hk]; [done|]. specialize (Hall _ Hk). lia. }
    simpl. f_equal. apply IH; [done|]. intros v. split.
    + intros Hv. specialize (Hall _ Hv).
      assert (k ≤ v < k + S n) by (apply Hin; by right). lia.
    + intros Hv. assert (Hv' : In v (k :: l)) by (apply Hin; lia).
      destruct Hv' as [->|Hv']; [lia|done].
Qed.

Lemma seq_sorted n : ∀ k, StronglySorted lt (seq k n).
Proof.
  induction n as [|n IH]; intros k; simpl; constructor; [apply IH|].
  rewrite List.Forall_forall. intros v Hv. apply in_seq in Hv. lia.
Qed.

Lemma cells_of_all domain_id (topology : list (list nat)) :
  cells_of (repeat domain_id (length topology)) topology domain_id = topology.
Proof.
  induction topology as [|cell cells IH]; simpl; [done|].
  by rewrite Nat.eqb_refl, IH.
Qed.

Lemma take_rows_all {A} (a : list A) : take_rows a (seq 0 (length a)) = Some a.
Proof.
  assert (Hfrom : ∀ (pre rest : list A),
            take_rows (pre ++ rest) (seq (length pre) (length rest)) = Some rest).
  { intros pre rest. revert pre. induction rest as [|x rest IH]; intros pre; [done|].
    unfold take_rows in *. simpl. rewrite list_lookup_middle by done. simpl.
    specialize (IH (pre ++ [x])). rewrite <- app_assoc, length_app in IH.
    simpl in IH. rewrite Nat.add_1_r in IH. by rewrite IH. }
  apply (Hfrom [] a).
Qed.

Section Results.
Context {coordinate : Type}.
Implicit Types (domain_coordinates : list coordinate) (m : domain_mesh coordinate).

(** What [renumbered_submesh] says about the indices of the result. *)
Lemma renumbered_submesh_indices domains_values domain_topology domain_coordinates
    domain_id m :
  renumbered_submesh domains_values domain_topology domain_coordinates domain_id m →
  ∀ i, i < length (mesh_coordinates m) ↔
       ∃ cell, In cell (mesh_topology m) ∧ In i cell.
Proof.
  intros (ids & Hs & Hin & Htopo & Hlen & Hrows & _) i. rewrite Htopo, Hlen. split.
  - intros Hi. destruct (lookup_lt_is_Some_2 ids i Hi) as [v Hv].
    destruct (Hrows i v Hv) as [Hrank _].
    assert (Hvin : In v ids) by (apply list_elem_of_In; by eapply list_elem_of_lookup_2).
    apply Hin in Hvin as (cell & Hcell & Hvcell).
    exists (map (rank ids) cell). split; [by apply in_map|].
    rewrite <- Hrank. by apply in_map.
  - intros (cell' & Hcell' & Hi).
    apply in_map_iff in Hcell' as (cell & <- & Hcell).
    apply in_map_iff in Hi as (v & <- & Hv).
    apply rank_lt, Hin. eauto.
Qed.

(** X1. The mesh written for a domain is a mesh of its own: every node index of
    its cells points into its coordinate rows, and every coordinate row is
    a node of one of its cells. *)
Theorem separate_one_self_contained domains_values domain_topology
    domain_coordinates domain_id :
  well_formed domains_values domain_topology domain_coordinates →
  ∃ m, separate_one domains_values domain_topology domain_coordinates domain_id
       = Some m ∧
       well_formed (repeat domain_id (length (mesh_topology m)))
                   (mesh_topology m) (mesh_coordinates m) ∧
       ∀ i, i < length (mesh_coordinates m) →
            ∃ cell, In cell (mesh_topology m) ∧ In i cell.
Proof.
  intros Hwf.
  destruct (separate_one_spec domains_values domain_topology domain_coordinates
              domain_id Hwf) as (m & Hm & Hsub).
  pose proof (renumbered_submesh_indices _ _ _ _ _ Hsub) as Hidx.
  exists m. split; [done|]. split; [|intros i; apply Hidx].
  split; [by rewrite repeat_length|].
  rewrite List.Forall_forall. intros cell Hcell.
  rewrite List.Forall_forall. intros v Hv. apply Hidx. eauto.
Qed.

(** X2. Separating the mesh of one domain again, all of its cells carrying the
    marker, gives the same mesh: the node ids are [0 .. n-1] already and no
    node is dropped. *)
Theorem separate_one_idempotent domains_values domain_topology domain_coordinates
    domain_id m :
  well_formed domains_values domain_topology domain_coordinates →
  separate_one domains_values domain_topology domain_coordinates domain_id = Some m →
  separate_one (repeat domain_id (length (mesh_topology m)))
               (mesh_topology m) (mesh_coordinates m) domain_id
  = Some m.
Proof.
  intros Hwf Hm.
  destruct (separate_one_spec domains_values domain_topology domain_coordinates
              domain_id Hwf) as (m' & Hm' & Hsub).
  assert (m' = m) as -> by congruence.
  pose proof (renumbered_submesh_indices _ _ _ _ _ Hsub) as Hidx.
  set (n := length (mesh_coordinates m)) in *.
  assert (Hids : np_unique (mesh_topology m) = seq 0 n).
  { apply sorted_segment; [apply np_unique_sorted|]. intros v.
    rewrite np_unique_In, <- Hidx. lia. }
  unfold separate_one.
  rewrite take_rows_cells by (by rewrite repeat_length). simpl.
  rewrite cells_of_all, Hids. unfold n. rewrite take_rows_all. simpl.
  rewrite fix_topology_rank; [|apply seq_sorted|].
  - destruct m as [coords topo]. simpl in *. f_equal. f_equal.
    rewrite <- (map_id topo) at 2. apply map_ext_in. intros cell Hcell.
    rewrite <- (map_id cell) at 2. apply map_ext_in. intros v Hv.
    apply rank_seq, Hidx. eauto.
  - intros cell v Hcell Hv. apply in_seq. split; [lia|]. simpl.
    apply Hidx. eauto.
Qed.

(** X3. [separate_one] raises an [IndexError] exactly when a cell with the
    marker has no row in the topology, or such a cell names a node that has
    no coordinate row. What the cells of the other domains hold does not
    matter. *)
Theorem separate_one_index_error domains_values domain_topology
    domain_coordinates domain_id :
  separate_one domains_values domain_topology domain_coordinates domain_id = None
  ↔ Exists (fun i => length domain_topology ≤ i)
           (nonzero_eq domains_values domain_id)
    ∨ ∃ cells cell v,
        take_rows domain_topology (nonzero_eq domains_values domain_id)
        = Some cells ∧
        In cell cells ∧ In v cell ∧ length domain_coordinates ≤ v.
Proof.
  unfold separate_one.
  destruct (take_rows domain_topology _) as [cells|] eqn:Hcells; simpl.
  - destruct (take_rows domain_coordinates (np_unique cells)) as [rows|] eqn:Hrows;
      simpl.
    + split; [done|]. intros [Hex|(cells' & cell & v & [= <-] & Hcell & Hv & Hge)].
      * apply take_rows_None in Hex. congruence.
      * assert (Hex : Exists (fun i => length domain_coordinates ≤ i)
                             (np_unique cells)).
        { apply List.Exists_exists. exists v. split; [|done].
          apply np_unique_In. eauto. }
        apply take_rows_None in Hex. congruence.
    + split; [|done]. intros _. right.
      apply take_rows_None, List.Exists_exists in Hrows as (v & Hv & Hge).
      apply np_unique_In in Hv as (cell & Hcell & Hv). by exists cells, cell, v.
  - split; [|done]. intros _. left. by apply take_rows_None.
Qed.

End Results.

(** The fluid domain of the mesh of three tetrahedra. *)
Lemma separate_one_self_contained_witness :
  ∃ m, separate_one example_values example_topology example_coordinates 0
       = Some m ∧
       well_formed (repeat 0 (length (mesh_topology m)))
                   (mesh_topology m) (mesh_coordinates m) ∧
       ∀ i, i < length (mesh_coordinates m) →
            ∃ cell, In cell (mesh_topology m) ∧ In i cell.
Proof.
  apply (separate_one_self_contained example_values example_topology
           example_coordinates 0).
  split; [reflexivity|]. repeat constructor.
Defined.

Lemma separate_one_idempotent_witness :
  separate_one [0; 0] [[0; 1; 2; 3]; [2; 3; 4; 5]] [10; 11; 12; 14; 15; 16] 0
  = Some {| mesh_coordinates := [10; 11; 12; 14; 15; 16];
            mesh_topology := [[0; 1; 2; 3]; [2; 3; 4; 5]] |}.
Proof.
  apply (separate_one_idempotent example_values example_topology
           example_coordinates 0
           {| mesh_coordinates := [10; 11; 12; 14; 15; 16];
              mesh_topology := [[0; 1; 2; 3]; [2; 3; 4; 5]] |}).
  - split; [reflexivity|]. repeat constructor.
  - reflexivity.
Defined.

End SeparateDomainMore.

(* ===================================================================== *)
(** * More on avf.py                                                      *)
(* ===================================================================== *)

Module AvfMore.
Import Avf AvfFacts AvfSetup.

Local Open Scope R_scope.

(** ** Marking the boundaries twice *)

Section Remarking.

Variables (fsi_id rigid_id outer_id : list Z).
Variables (fsi0 fsi1 rigid0 rigid1 outer0 outer1 : Z).
Hypothesis Hfsi0 : fsi_id !! 0%nat = Some fsi0.
Hypothesis Hfsi1 : fsi_id !! 1%nat = Some fsi1.
Hypothesis Hrigid0 : rigid_id !! 0%nat = Some rigid0.
Hypothesis Hrigid1 : rigid_id !! 1%nat = Some rigid1.
Hypothesis Houter0 : outer_id !! 0%nat = Some outer0.
Hypothesis Houter1 : outer_id !! 1%nat = Some outer1.

(** A rigid-wall id is none of the ids that are reassigned. *)
Hypothesis rigid_apart :
  ∀ r, r ∈ [rigid0; rigid1] → r ∉ [fsi0; fsi1; outer0; outer1].

Lemma new_marker_idempotent idx_facet mid :
  new_marker fsi0 fsi1 rigid0 rigid1 outer0 outer1
    (new_marker fsi0 fsi1 rigid0 rigid1 outer0 outer1 idx_facet mid) mid
  = new_marker fsi0 fsi1 rigid0 rigid1 outer0 outer1 idx_facet mid.
Proof.
  assert (H0 : rigid0 ∉ [fsi0; fsi1; outer0; outer1])
    by (apply rigid_apart; set_solver).
  assert (H1 : rigid1 ∉ [fsi0; fsi1; outer0; outer1])
    by (apply rigid_apart; set_solver).
  rewrite !not_elem_of_cons in H0, H1.
  destruct H0 as (? & ? & ? & ? & _), H1 as (? & ? & ? & ? & _).
  unfold new_marker. destruct (outside_sphere mid); [|done].
  repeat match goal with
    | |- context [(?a =? ?b)%Z] => destruct (Z.eqb_spec a b); try done; try lia
    end.
Qed.

(** X4. Run on its own result, [get_mesh_domain_and_boundaries] changes
    nothing more, provided no rigid-wall id is an fsi or outer id. *)
Theorem get_mesh_domain_and_boundaries_idempotent (mesh : Mesh)
    (domains boundaries boundaries' : list Z) :
  length (facet_midpoints mesh) = length boundaries →
  get_mesh_domain_and_boundaries mesh domains boundaries fsi_id rigid_id outer_id
  = Some (mesh, domains, boundaries') →
  get_mesh_domain_and_boundaries mesh domains boundaries' fsi_id rigid_id outer_id
  = Some (mesh, domains, boundaries').
Proof.
  intros Hlen Hrun. unfold get_mesh_domain_and_boundaries in *.
  destruct (facet_loop_spec fsi_id rigid_id outer_id fsi0 fsi1 rigid0 rigid1
              outer0 outer1 Hfsi0 Hfsi1 Hrigid0 Hrigid1 Houter0 Houter1
              (facet_midpoints mesh) 0%nat boundaries)
    as (b1 & Hrun1 & Hl1 & _ & _ & Hat1); [simpl; lia|].
  rewrite Hrun1 in Hrun. simpl in Hrun. injection Hrun as <-.
  destruct (facet_loop_spec fsi_id rigid_id outer_id fsi0 fsi1 rigid0 rigid1
              outer0 outer1 Hfsi0 Hfsi1 Hrigid0 Hrigid1 Houter0 Houter1
              (facet_midpoints mesh) 0%nat b1)
    as (b2 & Hrun2 & Hl2 & _ & _ & Hat2); [simpl; lia|].
  rewrite Hrun2. simpl. do 2 f_equal.
  apply list_eq. intros k.
  destruct (facet_midpoints mesh !! k) as [mid|] eqn:Hmid.
  - destruct (lookup_lt_is_Some_2 boundaries k) as [idx Hidx].
    { apply lookup_lt_Some in Hmid. lia. }
    pose proof (Hat1 k mid idx Hmid Hidx) as Hb1. simpl in Hb1.
    pose proof (Hat2 k mid _ Hmid Hb1) as Hb2. simpl in Hb2.
    by rewrite Hb2, Hb1, new_marker_idempotent.
  - apply lookup_ge_None in Hmid.
    rewrite !(proj2 (lookup_ge_None _ _)) by lia. done.
Qed.

End Remarking.

Lemma get_mesh_domain_and_boundaries_idempotent_witness :
  get_mesh_domain_and_boundaries sample_mesh [1; 2]%Z [22; 11]%Z
    [22; 1022]%Z [11; 1011]%Z [33; 1033]%Z
  = Some (sample_mesh, [1; 2]%Z, [22; 11]%Z).
Proof.
  assert (Hapart : ∀ r : Z, r ∈ [11; 1011]%Z → r ∉ [22; 1022; 33; 1033]%Z).
  { intros r Hr. rewrite !elem_of_cons in Hr. rewrite !not_elem_of_cons.
    destruct Hr as [->|[->|Hr]]; [| |by apply elem_of_nil in Hr];
      repeat split; try lia; apply not_elem_of_nil. }
  apply (get_mesh_domain_and_boundaries_idempotent
           [22; 1022]%Z [11; 1011]%Z [33; 1033]%Z 22 1022 11 1011 33 1033
           eq_refl eq_refl eq_refl eq_refl eq_refl eq_refl Hapart
           sample_mesh [1; 2]%Z [22; 22]%Z [22; 11]%Z eq_refl).
  reflexivity.
Defined.

(** ** Id lists that are too short *)

(** X5. Every facet is compared with [fsi_id[0]], [fsi_id[1]], [outer_id[0]]
    and [outer_id[1]]: with fewer than two fsi ids or fewer than two outer
    ids the first facet raises an [IndexError], whatever its marker; a mesh
    without facets is returned as it is. *)
Theorem get_mesh_domain_and_boundaries_needs_two_ids (mesh : Mesh)
    (domains boundaries fsi_id rigid_id outer_id : list Z) :
  (facet_midpoints mesh = [] →
   get_mesh_domain_and_boundaries mesh domains boundaries fsi_id rigid_id outer_id
   = Some (mesh, domains, boundaries)) ∧
  (facet_midpoints mesh ≠ [] →
   (length fsi_id < 2)%nat ∨ (length outer_id < 2)%nat →
   get_mesh_domain_and_boundaries mesh domains boundaries fsi_id rigid_id outer_id
   = None).
Proof.
  unfold get_mesh_domain_and_boundaries. split.
  - by intros ->.
  - destruct (facet_midpoints mesh) as [|mid rest]; [done|]. intros _ Hshort.
    simpl. unfold loop_body.
    destruct (boundaries !! 0%nat) as [idx|]; [|done]. simpl.
    assert (Hstep : ∀ ids k k' (b : list Z),
              reassign_if idx ids k mid rigid_id k' 0 b = None ∨
              ∃ b', reassign_if idx ids k mid rigid_id k' 0 b = Some b' ∧
                    is_Some (ids !! k)).
    { intros ids k k' b. unfold reassign_if.
      destruct (ids !! k) as [id|]; simpl; [|by left].
      destruct (idx =? id)%Z; [|right; eauto].
      destruct (outside_sphere _); [|right; eauto].
      destruct (rigid_id !! k'); simpl; [right; eauto|by left]. }
    destruct (Hstep fsi_id 0%nat 0%nat boundaries) as [->|(b1 & -> & [? H1])];
      [done|]. simpl.
    destruct (Hstep fsi_id 1%nat 1%nat b1) as [->|(b2 & -> & [? H2])];
      [done|]. simpl.
    destruct (Hstep outer_id 0%nat 0%nat b2) as [->|(b3 & -> & [? H3])];
      [done|]. simpl.
    destruct (Hstep outer_id 1%nat 1%nat b3) as [->|(b4 & -> & [? H4])];
      [done|]. simpl.
    apply lookup_lt_Some in H2, H4. lia.
Qed.

Lemma get_mesh_domain_and_boundaries_needs_two_ids_witness :
  get_mesh_domain_and_boundaries
    {| coordinates := []; facet_midpoints := [(0, 0, 0)%float] |}
    [1]%Z [7]%Z [22]%Z [11; 1011]%Z [33; 1033]%Z
  = None.
Proof.
  apply (get_mesh_domain_and_boundaries_needs_two_ids
           {| coordinates := []; facet_midpoints := [(0, 0, 0)%float] |}).
  - done.
  - left. simpl. lia.
Defined.

(** ** The inlet normals and the speed at the barycenter *)

Definition norm2 (v : vec3) : R := let '(v0, v1, v2) := v in v0 ^ 2 + v1 ^ 2 + v2 ^ 2.

Definition scale (k : R) (v : vec3) : vec3 :=
  let '(v0, v1, v2) := v in (k * v0, k * v1, k * v2).

Lemma unit_normal_norm2 ni normal : unit_normal ni = Some normal → norm2 normal = 1.
Proof.
  destruct ni as [[a b] c]. unfold unit_normal.
  set (q := 0 + a ^ 2 + b ^ 2 + c ^ 2).
  destruct (Req_dec_T (sqrt q) 0) as [|Hne]; [done|]. intros [= <-]. simpl.
  assert (Hq : 0 <= q).
  { unfold q. pose proof (pow2_ge_0 a). pose proof (pow2_ge_0 b).
    pose proof (pow2_ge_0 c). lra. }
  assert (Hs : sqrt q * sqrt q = q) by (by apply sqrt_sqrt).
  assert (Hsum : a * a + b * b + c * c = sqrt q * sqrt q) by (rewrite Hs; unfold q; ring).
  field_simplify_eq; [|done]. lra.
Qed.

(** [update] only touches the time and the index. *)
Lemma VelIn1Para_update_frame s t s' :
  VelIn1Para.update s t = Some s' →
  VelIn1Para.n s' = VelIn1Para.n s ∧ VelIn1Para.c s' = VelIn1Para.c s ∧
  VelIn1Para.r s' = VelIn1Para.r s ∧ VelIn1Para.dt s' = VelIn1Para.dt s ∧
  VelIn1Para.interp_PA s' = VelIn1Para.interp_PA s ∧
  VelIn1Para.t_ramp s' = VelIn1Para.t_ramp s ∧ VelIn1Para.t s' = t.
Proof.
  unfold VelIn1Para.update. simpl. destruct (_ <? _)%Z.
  - destruct (Req_dec_T _ _); [done|]. by intros [= <-].
  - by intros [= <-].
Qed.

Lemma VelIn2Para_update_frame s t s' :
  VelIn2Para.update s t = Some s' →
  VelIn2Para.n s' = VelIn2Para.n s ∧ VelIn2Para.c s' = VelIn2Para.c s ∧
  VelIn2Para.r s' = VelIn2Para.r s ∧ VelIn2Para.dt s' = VelIn2Para.dt s ∧
  VelIn2Para.interp_DA s' = VelIn2Para.interp_DA s ∧
  VelIn2Para.t_ramp s' = VelIn2Para.t_ramp s ∧ VelIn2Para.t s' = t.
Proof.
  unfold VelIn2Para.update. simpl. destruct (_ <? _)%Z.
  - destruct (Req_dec_T _ _); [done|]. by intros [= <-].
  - by intros [= <-].
Qed.

Lemma InnerP_update_frame s t s' :
  InnerP.update s t = Some s' →
  InnerP.dt s' = InnerP.dt s ∧ InnerP.interp_P s' = InnerP.interp_P s ∧
  InnerP.p_t_ramp_start s' = InnerP.p_t_ramp_start s ∧
  InnerP.p_t_ramp_end s' = InnerP.p_t_ramp_end s ∧ InnerP.t s' = t.
Proof.
  unfold InnerP.update. simpl. destruct (_ <? _)%Z.
  - destruct (Req_dec_T _ _); [done|]. by intros [= <-].
  - by intros [= <-].
Qed.

Lemma pre_solve_steps_normals ts :
  ∀ u1 u2 p u1' u2' p',
    pre_solve_steps ts (u1, u2, p) = Some (u1', u2', p') →
    VelIn1Para.n u1' = VelIn1Para.n u1 ∧ VelIn2Para.n u2' = VelIn2Para.n u2.
Proof.
  induction ts as [|t ts IH]; intros u1 u2 p u1' u2' p'; simpl.
  - by intros [= <- <- <-].
  - unfold pre_solve.
    destruct (VelIn1Para.update u1 t) as [v1|] eqn:E1; [|done]. simpl.
    destruct (VelIn2Para.update u2 t) as [v2|] eqn:E2; [|done]. simpl.
    destruct (InnerP.update p t) as [q|] eqn:E3; [|done]. simpl.
    intros Hrest. apply IH in Hrest as [-> ->].
    apply VelIn1Para_update_frame in E1 as (-> & _).
    apply VelIn2Para_update_frame in E2 as (-> & _). done.
Qed.

Lemma parabolic_value_at_barycenter n c v R ramp :
  norm2 (parabolic_value n v (sqrt (dist2 c c)) R ramp) = norm2 n * (v * ramp) ^ 2.
Proof.
  rewrite dist2_same, sqrt_0. destruct n as [[n0 n1] n2]. simpl.
  unfold Rdiv. ring.
Qed.

(** X6. The normals [create_bcs] hands to the two inlet expressions have length
    one and [pre_solve] never changes them, so at the barycenter of an
    inlet the speed is the waveform sample times the ramp,
    [|interp[number]| * s(t)], at every time step. *)
Theorem create_bcs_unit_normals dt vel_t_ramp p_t_ramp_start p_t_ramp_end
    ni1 ni2 A1 A2 c1 c2 interp_PA interp_DA interp_P ts u1 u2 p u1' u2' p' :
  create_expressions dt vel_t_ramp p_t_ramp_start p_t_ramp_end ni1 ni2 A1 A2 c1 c2
                     interp_PA interp_DA interp_P
  = Some (u1, u2, p) →
  pre_solve_steps ts (u1, u2, p) = Some (u1', u2', p') →
  norm2 (VelIn1Para.n u1') = 1 ∧ norm2 (VelIn2Para.n u2') = 1 ∧
  (∀ v, VelIn1Para.r u1' ≠ 0 →
        py_index (VelIn1Para.interp_PA u1') (VelIn1Para.number u1') = Some v →
        ∃ value, VelIn1Para.eval u1' (VelIn1Para.c u1') = Some value ∧
                 norm2 value
                 = (v * velocity_ramp_code (VelIn1Para.t_ramp u1') (VelIn1Para.t u1')) ^ 2) ∧
  (∀ v, VelIn2Para.r u2' ≠ 0 →
        py_index (VelIn2Para.interp_DA u2') (VelIn2Para.number u2') = Some v →
        ∃ value, VelIn2Para.eval u2' (VelIn2Para.c u2') = Some value ∧
                 norm2 value
                 = (v * velocity_ramp_code (VelIn2Para.t_ramp u2') (VelIn2Para.t u2')) ^ 2).
Proof.
  intros Hcreate Hsteps. unfold create_expressions in Hcreate.
  destruct (unit_normal ni1) as [normal1|] eqn:En1; [|done].
  destruct (unit_normal ni2) as [normal2|] eqn:En2; [|done]. simpl in Hcreate.
  unfold VelIn1Para.init, VelIn2Para.init, InnerP.init in Hcreate.
  destruct (Req_dec_T dt 0); [done|]. simpl in Hcreate.
  injection Hcreate as <- <- <-.
  apply pre_solve_steps_normals in Hsteps as [Hn1 Hn2]. simpl in Hn1, Hn2.
  apply unit_normal_norm2 in En1, En2.
  assert (H1 : norm2 (VelIn1Para.n u1') = 1) by (by rewrite Hn1).
  assert (H2 : norm2 (VelIn2Para.n u2') = 1) by (by rewrite Hn2).
  split; [done|]. split; [done|]. split.
  - intros v _ Hv. eexists. split; [by apply VelIn1Para_eval_value|].
    rewrite parabolic_value_at_barycenter, H1. ring.
  - intros v _ Hv. eexists. split; [by apply VelIn2Para_eval_value|].
    rewrite parabolic_value_at_barycenter, H2. ring.
Qed.

(** ** Outside the inlet radius *)

(** How far the parabola has dropped at squared distance [d2] from the
    barycenter. *)
Definition fact_r (d2 radius : R) : R := 1 - d2 / radius ^ 2.

Lemma fact_r_sign d2 radius :
  0 < radius → 0 <= d2 →
  (d2 < radius ^ 2 → 0 < fact_r d2 radius <= 1) ∧
  (d2 = radius ^ 2 → fact_r d2 radius = 0) ∧
  (radius ^ 2 < d2 → fact_r d2 radius < 0).
Proof.
  intros Hr Hd. unfold fact_r.
  assert (Hr2 : 0 < radius ^ 2) by (apply pow_lt; lra).
  assert (Hq : d2 / radius ^ 2 * radius ^ 2 = d2) by (field; lra).
  assert (Hq0 : 0 <= d2 / radius ^ 2).
  { apply Rle_mult_inv_pos; [done|lra]. }
  split; [|split].
  - intros Hlt. assert (d2 / radius ^ 2 < 1); [|lra].
    apply (Rmult_lt_reg_r (radius ^ 2)); [done|]. rewrite Hq. lra.
  - intros ->. field. lra.
  - intros Hgt. assert (1 < d2 / radius ^ 2); [|lra].
    apply (Rmult_lt_reg_r (radius ^ 2)); [done|]. rewrite Hq. lra.
Qed.

Lemma parabolic_value_scale n v d radius ramp :
  parabolic_value n v d radius ramp = scale (- (v * ramp) * fact_r (d ^ 2) radius) n.
Proof.
  destruct n as [[n0 n1] n2]. unfold parabolic_value, scale, fact_r.
  vec3_eq; ring.
Qed.

(** X7. [eval] does not cut the parabola off at the radius [sqrt (A / pi)]: the
    velocity is [- interp[number] * s(t) * f] times the normal, with
    [0 < f <= 1] inside the radius, [f = 0] on it and [f < 0] beyond it,
    where the flow is therefore reversed. *)
Theorem velocity_inlet_reversed_outside_radius :
  (∀ (s : VelIn1Para.self) (x : vec3) (v : R),
      py_index (VelIn1Para.interp_PA s) (VelIn1Para.number s) = Some v →
      0 < VelIn1Para.r s →
      ∃ f,
        VelIn1Para.eval s x
        = Some (scale (- (v * velocity_ramp_code (VelIn1Para.t_ramp s)
                                                  (VelIn1Para.t s)) * f)
                      (VelIn1Para.n s)) ∧
        (dist2 x (VelIn1Para.c s) < VelIn1Para.r s ^ 2 → 0 < f <= 1) ∧
        (dist2 x (VelIn1Para.c s) = VelIn1Para.r s ^ 2 → f = 0) ∧
        (VelIn1Para.r s ^ 2 < dist2 x (VelIn1Para.c s) → f < 0)) ∧
  (∀ (s : VelIn2Para.self) (x : vec3) (v : R),
      py_index (VelIn2Para.interp_DA s) (VelIn2Para.number s) = Some v →
      0 < VelIn2Para.r s →
      ∃ f,
        VelIn2Para.eval s x
        = Some (scale (- (v * velocity_ramp_code (VelIn2Para.t_ramp s)
                                                  (VelIn2Para.t s)) * f)
                      (VelIn2Para.n s)) ∧
        (dist2 x (VelIn2Para.c s) < VelIn2Para.r s ^ 2 → 0 < f <= 1) ∧
        (dist2 x (VelIn2Para.c s) = VelIn2Para.r s ^ 2 → f = 0) ∧
        (VelIn2Para.r s ^ 2 < dist2 x (VelIn2Para.c s) → f < 0)).
Proof.
  split.
  - intros s x v Hv Hr.
    exists (fact_r (dist2 x (VelIn1Para.c s)) (VelIn1Para.r s)).
    split; [|apply fact_r_sign; [done|apply dist2_nonneg]].
    rewrite (VelIn1Para_eval_value s x v Hv), parabolic_value_scale.
    by rewrite sqrt_dist2_sqr.
  - intros s x v Hv Hr.
    exists (fact_r (dist2 x (VelIn2Para.c s)) (VelIn2Para.r s)).
    split; [|apply fact_r_sign; [done|apply dist2_nonneg]].
    rewrite (VelIn2Para_eval_value s x v Hv), parabolic_value_scale.
    by rewrite sqrt_dist2_sqr.
Qed.

(** ** The three indices move together *)

(** The three expressions read their waveforms at the same index. *)
Definition in_step (u1 : VelIn1Para.self) (u2 : VelIn2Para.self) (p : InnerP.self)
  : Prop :=
  VelIn1Para.number u1 = VelIn2Para.number u2 ∧
  VelIn2Para.number u2 = InnerP.number p ∧
  VelIn1Para.dt u1 = VelIn2Para.dt u2 ∧ VelIn2Para.dt u2 = InnerP.dt p ∧
  length (VelIn1Para.interp_PA u1) = length (VelIn2Para.interp_DA u2) ∧
  length (VelIn2Para.interp_DA u2) = length (InnerP.interp_P p).

Lemma pre_solve_in_step t u1 u2 p u1' u2' p' :
  in_step u1 u2 p → pre_solve t u1 u2 p = Some (u1', u2', p') →
  in_step u1' u2' p'.
Proof.
  destruct u1, u2, p. unfold in_step. simpl.
  intros (Hn12 & Hn2p & Hd12 & Hd2p & Hl12 & Hl2p). subst.
  unfold pre_solve, VelIn1Para.update, VelIn2Para.update, InnerP.update, len.
  simpl. rewrite Hl12, Hl2p.
  destruct (_ <? _)%Z; [destruct (Req_dec_T _ _); [done|]|];
    simpl; intros [= <- <- <-]; by simpl.
Qed.

(** X8. The velocity and the pressure waveforms stay synchronised: built by
    [create_bcs] from waveforms of one length, the three expressions hold
    the same index after every call of [pre_solve]. *)
Theorem pre_solve_keeps_in_step dt vel_t_ramp p_t_ramp_start p_t_ramp_end
    ni1 ni2 A1 A2 c1 c2 interp_PA interp_DA interp_P ts u1 u2 p u1' u2' p' :
  length interp_PA = length interp_DA → length interp_DA = length interp_P →
  create_expressions dt vel_t_ramp p_t_ramp_start p_t_ramp_end ni1 ni2 A1 A2 c1 c2
                     interp_PA interp_DA interp_P
  = Some (u1, u2, p) →
  pre_solve_steps ts (u1, u2, p) = Some (u1', u2', p') →
  VelIn1Para.number u1' = VelIn2Para.number u2' ∧
  VelIn2Para.number u2' = InnerP.number p'.
Proof.
  intros Hl12 Hl2p Hcreate Hsteps.
  assert (Hstart : in_step u1 u2 p).
  { unfold create_expressions in Hcreate.
    destruct (unit_normal ni1); [|done]. destruct (unit_normal ni2); [|done].
    simpl in Hcreate.
    unfold VelIn1Para.init, VelIn2Para.init, InnerP.init in Hcreate.
    destruct (Req_dec_T dt 0); [done|]. simpl in Hcreate.
    injection Hcreate as <- <- <-. by repeat split. }
  clear Hcreate. revert u1 u2 p Hstart Hsteps.
  induction ts as [|t ts IH]; intros u1 u2 p Hstart; simpl.
  - intros [= <- <- <-]. by destruct Hstart as (? & ? & _).
  - destruct (pre_solve t u1 u2 p) as [[[v1 v2] q]|] eqn:Estep; [|done]. simpl.
    apply IH. by eapply pre_solve_in_step.
Qed.

(** [pre_solve] only fails on [dt = 0]. *)
Lemma pre_solve_steps_total ts :
  ∀ u1 u2 p,
    VelIn1Para.dt u1 ≠ 0 → VelIn2Para.dt u2 ≠ 0 → InnerP.dt p ≠ 0 →
    is_Some (pre_solve_steps ts (u1, u2, p)).
Proof.
  induction ts as [|t ts IH]; intros u1 u2 p H1 H2 Hp; simpl; [done|].
  unfold pre_solve.
  destruct (VelIn1Para.update u1 t) as [v1|] eqn:E1.
  2:{ revert E1. unfold VelIn1Para.update. simpl.
      destruct (_ <? _)%Z; [|done]. by destruct (Req_dec_T _ _). }
  destruct (VelIn2Para.update u2 t) as [v2|] eqn:E2.
  2:{ revert E2. unfold VelIn2Para.update. simpl.
      destruct (_ <? _)%Z; [|done]. by destruct (Req_dec_T _ _). }
  destruct (InnerP.update p t) as [q|] eqn:E3.
  2:{ revert E3. unfold InnerP.update. simpl.
      destruct (_ <? _)%Z; [|done]. by destruct (Req_dec_T _ _). }
  simpl. apply IH.
  - apply VelIn1Para_update_frame in E1 as (_ & _ & _ & -> & _). done.
  - apply VelIn2Para_update_frame in E2 as (_ & _ & _ & -> & _). done.
  - apply InnerP_update_frame in E3 as (-> & _). done.
Qed.

(** Two inlets with integrated normals [(2, 0, 0)] and [(0, 0, 3)], and
    waveforms of three samples. *)
Definition sample_expressions
  : option (VelIn1Para.self * VelIn2Para.self * InnerP.self) :=
  create_expressions 1 2 1 2 (2, 0, 0) (0, 0, 3) PI PI (0, 0, 0) (1, 1, 1)
                     [1; 2; 3] [4; 5; 6] [7; 8; 9].

Lemma sample_expressions_created :
  ∃ u1 u2 p, sample_expressions = Some (u1, u2, p) ∧
             VelIn1Para.dt u1 = 1 ∧ VelIn2Para.dt u2 = 1 ∧ InnerP.dt p = 1.
Proof.
  unfold sample_expressions, create_expressions, unit_normal.
  assert (H2 : sqrt (0 + 2 ^ 2 + 0 ^ 2 + 0 ^ 2) = 2).
  { replace (0 + 2 ^ 2 + 0 ^ 2 + 0 ^ 2) with (2 * 2) by ring.
    apply sqrt_square. lra. }
  assert (H3 : sqrt (0 + 0 ^ 2 + 0 ^ 2 + 3 ^ 2) = 3).
  { replace (0 + 0 ^ 2 + 0 ^ 2 + 3 ^ 2) with (3 * 3) by ring.
    apply sqrt_square. lra. }
  rewrite H2, H3.
  destruct (Req_dec_T 2 0); [lra|]. destruct (Req_dec_T 3 0); [lra|]. simpl.
  unfold VelIn1Para.init, VelIn2Para.init, InnerP.init.
  destruct (Req_dec_T 1 0); [lra|]. simpl. by eexists _, _, _.
Defined.

Lemma create_bcs_unit_normals_witness :
  ∃ u1 u2 p, sample_expressions = Some (u1, u2, p) ∧
             norm2 (VelIn1Para.n u1) = 1 ∧ norm2 (VelIn2Para.n u2) = 1.
Proof.
  destruct sample_expressions_created as (u1 & u2 & p & Hcreate & _).
  exists u1, u2, p. split; [exact Hcreate|].
  destruct (create_bcs_unit_normals 1 2 1 2 (2, 0, 0) (0, 0, 3) PI PI (0, 0, 0)
              (1, 1, 1) [1; 2; 3] [4; 5; 6] [7; 8; 9] [] u1 u2 p u1 u2 p
              Hcreate eq_refl) as (H1 & H2 & _).
  by split.
Defined.

Lemma velocity_inlet_reversed_outside_radius_witness :
  ∃ f, VelIn1Para.eval (inlet_state 1 0) (2, 0, 0)
       = Some (scale (- (1 * velocity_ramp_code 0 1) * f) (1, 0, 0)) ∧
       f < 0.
Proof.
  destruct (proj1 velocity_inlet_reversed_outside_radius (inlet_state 1 0)
              (2, 0, 0) 1 eq_refl) as (f & Heval & _ & _ & Hneg).
  { simpl. lra. }
  exists f. split; [exact Heval|]. apply Hneg. simpl. lra.
Defined.

Lemma pre_solve_keeps_in_step_witness :
  ∃ u1 u2 p u1' u2' p',
    sample_expressions = Some (u1, u2, p) ∧
    pre_solve_steps [1; 2] (u1, u2, p) = Some (u1', u2', p') ∧
    VelIn1Para.number u1' = VelIn2Para.number u2' ∧
    VelIn2Para.number u2' = InnerP.number p'.
Proof.
  destruct sample_expressions_created as (u1 & u2 & p & Hcreate & Hd1 & Hd2 & Hdp).
  destruct (pre_solve_steps_total [1; 2] u1 u2 p) as [[[u1' u2'] p'] Hsteps];
    [lra..|].
  exists u1, u2, p, u1', u2', p'. split; [exact Hcreate|]. split; [exact Hsteps|].
  exact (pre_solve_keeps_in_step 1 2 1 2 (2, 0, 0) (0, 0, 3) PI PI (0, 0, 0)
           (1, 1, 1) [1; 2; 3] [4; 5; 6] [7; 8; 9] [1; 2] u1 u2 p u1' u2' p'
           eq_refl eq_refl Hcreate Hsteps).
Defined.

End AvfMore.

(* ===================================================================== *)
(** * Properties of the base path                                         *)
(* ===================================================================== *)

Module PreprocessingPathsFacts.
Import Stdlib.Strings.Ascii PreprocessingPaths.

Lemma append_cons c (s t : string) : String c s +:+ t = String c (s +:+ t).
Proof. reflexivity. Qed.

Lemma append_nil (t : string) : EmptyString +:+ t = t.
Proof. reflexivity. Qed.

Lemma append_nil_r (s : string) : s +:+ EmptyString = s.
Proof. induction s as [|c s IH]; [done|]. by rewrite append_cons, IH. Qed.

Lemma occurs_app c (s t : string) : occurs c (s +:+ t) = occurs c s || occurs c t.
Proof.
  induction s as [|c' s IH]; [done|]. rewrite append_cons. cbn [occurs].
  by rewrite IH, orb_assoc.
Qed.

Lemma rsplit_once_absent sep s : occurs sep s = false → rsplit_once sep s = None.
Proof.
  induction s as [|c s IH]; simpl; [done|].
  intros [Hc Hs]%orb_false_iff. by rewrite IH, Hc.
Qed.

Lemma rsplit_once_last sep (d f : string) :
  occurs sep f = false → rsplit_once sep (d +:+ String sep f) = Some (d, f).
Proof.
  intros Hf. induction d as [|c d IH].
  - rewrite append_nil. simpl. by rewrite rsplit_once_absent, Ascii.eqb_refl.
  - rewrite append_cons. simpl. by rewrite IH.
Qed.

Lemma before_first_absent sep s : occurs sep s = false → before_first sep s = s.
Proof.
  induction s as [|c s IH]; simpl; [done|].
  intros [Hc Hs]%orb_false_iff. by rewrite Hc, IH.
Qed.

Lemma before_first_cut sep (name rest : string) :
  occurs sep name = false → before_first sep (name +:+ String sep rest) = name.
Proof.
  intros Hname. induction name as [|c name IH].
  - rewrite append_nil. simpl. by rewrite Ascii.eqb_refl.
  - rewrite append_cons. simpl in *.
    apply orb_false_iff in Hname as [Hc Hname]. by rewrite Hc, IH.
Qed.

Lemma startswith_absent sep s : occurs sep s = false → startswith sep s = false.
Proof. destruct s as [|c s]; simpl; [done|]. by intros [Hc _]%orb_false_iff. Qed.

Lemma occurs_before_first sep sep' s :
  occurs sep s = false → occurs sep (before_first sep' s) = false.
Proof.
  induction s as [|c s IH]; simpl; [done|].
  intros [Hc Hs]%orb_false_iff. destruct (Ascii.eqb c sep'); simpl; [done|].
  by rewrite Hc, IH.
Qed.

Lemma endswith_absent sep s : occurs sep s = false → endswith sep s = false.
Proof.
  unfold endswith. induction s as [|c s IH]; simpl; [done|].
  intros [Hc Hs]%orb_false_iff. destruct s as [|c' s]; [done|]. by apply IH.
Qed.

Lemma append_assoc3 (s1 s2 s3 : string) : (s1 +:+ s2) +:+ s3 = s1 +:+ (s2 +:+ s3).
Proof.
  induction s1 as [|c s1 IH]; [done|]. by rewrite !append_cons, IH.
Qed.

(** X9. A model given by its file name alone, as in [-i case.vtp]: the whole
    name is taken for the directory, and the base path of all the files of
    the run is [<file name>/<stem>]. *)
Theorem base_path_without_directory (input_model : string) :
  occurs "/"%char input_model = false → input_model ≠ "" →
  dir_path input_model = input_model ∧
  base_path input_model
  = input_model +:+ "/" +:+ before_first "."%char input_model.
Proof.
  intros Hsep Hne. unfold base_path, dir_path, case_name, path_join.
  rewrite rsplit_once_absent by done. split; [done|].
  rewrite startswith_absent by (by apply occurs_before_first).
  rewrite endswith_absent by done.
  destruct input_model as [|c s]; [done|]. done.
Qed.

(** X10. A model [dir/name.ext]: the base path is [dir/name], so that the input
    is [base_path + "." + ext]; [ext] is everything after the first dot of
    the file name. A model in the root directory, [/name.ext], gets the
    relative base path [name]. *)
Theorem base_path_of_file (dir name ext : string) :
  occurs "/"%char name = false → occurs "."%char name = false → occurs "/"%char ext = false →
  let input_model := dir +:+ "/" +:+ name +:+ "." +:+ ext in
  case_name input_model = name ∧
  dir_path input_model = dir ∧
  (dir ≠ "" → endswith "/"%char dir = false →
   base_path input_model = dir +:+ "/" +:+ name ∧
   base_path input_model +:+ "." +:+ ext = input_model) ∧
  (dir = "" → base_path input_model = name).
Proof.
  intros Hname Hdot Hext input_model.
  assert (Hfile : occurs "/"%char (name +:+ "." +:+ ext) = false).
  { rewrite !occurs_app, Hname, Hext. done. }
  assert (Hsplit : rsplit_once "/"%char input_model = Some (dir, name +:+ "." +:+ ext)).
  { unfold input_model. apply (rsplit_once_last "/"%char dir _ Hfile). }
  assert (Hcase : case_name input_model = name).
  { unfold case_name. rewrite Hsplit. by apply (before_first_cut "."%char name ext). }
  assert (Hdir : dir_path input_model = dir) by (unfold dir_path; by rewrite Hsplit).
  split; [done|]. split; [done|].
  unfold base_path, path_join. rewrite Hcase, Hdir.
  rewrite startswith_absent by done. split.
  - intros Hne Hend. rewrite Hend.
    destruct dir as [|c dir]; [done|]. simpl String.eqb. simpl orb. cbv iota.
    split; [done|]. unfold input_model.
    by rewrite !append_assoc3.
  - by intros ->.
Qed.

Lemma base_path_without_directory_witness :
  base_path "case.vtp" = "case.vtp/case".
Proof.
  apply (base_path_without_directory "case.vtp"); [reflexivity|discriminate].
Defined.

Lemma base_path_of_file_witness :
  base_path "models/case.tar.gz" = "models/case" ∧
  base_path "models/case.tar.gz" +:+ "." +:+ "tar.gz" = "models/case.tar.gz".
Proof.
  apply (base_path_of_file "models" "case" "tar.gz");
    [reflexivity..|discriminate|reflexivity].
Defined.

End PreprocessingPathsFacts.

(* ===================================================================== *)
(** * More on run_pre_processing: files, errors and second runs           *)
(* ===================================================================== *)

Module PreprocessingMore.
Import Preprocessing PreprocessingFacts.

(** ** Pre- and postconditions *)

Section Hoare.
Context `{Externals}.

(** Started where [P] holds, [m] returns [a] in a world where [Q a] holds,
    or exits or raises in a world where [E] holds. *)
Definition hoare {X : Type} (P : world → Prop) (m : M X)
    (Q : X → world → Prop) (E : world → Prop) : Prop :=
  ∀ w o w', P w → m w = (o, w') →
            match o with
            | Returned a => Q a w'
            | _ => E w'
            end.

Lemma hoare_bind {X Y} P (m : M X) (k : X → M Y) Q Q' E :
  hoare P m Q E → (∀ a, hoare (Q a) (k a) Q' E) → hoare P (bind m k) Q' E.
Proof.
  intros Hm Hk w o w' HP. unfold bind.
  destruct (m w) as [[a|status|e] w1] eqn:Em; intros Hrun.
  - eapply (Hk a); [|exact Hrun]. apply (Hm w _ w1 HP Em).
  - injection Hrun as <- <-. apply (Hm w _ w1 HP Em).
  - injection Hrun as <- <-. apply (Hm w _ w1 HP Em).
Qed.

Lemma hoare_respects {X} (R : relation world) (P P' : world → Prop) (m : M X) :
  respects R m → (∀ w w', P w → R w w' → P' w') → hoare P m (fun _ => P') P'.
Proof.
  intros Hm HR w o w' HP Hrun. pose proof (HR w w' HP (Hm w o w' Hrun)).
  by destruct o.
Qed.

Lemma hoare_weaken {X} (P P' : world → Prop) (m : M X) Q Q' (E E' : world → Prop) :
  hoare P' m Q' E' → (∀ w, P w → P' w) → (∀ a w, Q' a w → Q a w) →
  (∀ w, E' w → E w) → hoare P m Q E.
Proof.
  intros Hm HP HQ HE w o w' Hw Hrun. specialize (Hm w o w' (HP w Hw) Hrun).
  destruct o; auto.
Qed.

Lemma hoare_false {X} (m : M X) Q E : hoare (fun _ => False) m Q E.
Proof. by intros w o w' []. Qed.

Lemma hoare_run {X} (P : world → Prop) (m : M X) Q E w o w' :
  hoare P m Q E → P w → m w = (o, w') →
  match o with
  | Returned a => Q a w'
  | _ => E w'
  end.
Proof. intros Hm HP Hrun. by apply (Hm w o w'). Qed.

Lemma respects_conj {X} (R1 R2 : relation world) (m : M X) :
  respects R1 m → respects R2 m → respects (fun w w' => R1 w w' ∧ R2 w w') m.
Proof. intros H1 H2 w o w' Hrun. split; [by eapply H1|by eapply H2]. Qed.

End Hoare.

(** ** What a block does to the files *)

Section Files.
Context `{Externals}.
Variable args : arguments.

(** Apart from the parameter file, only files accepted by [P] change, and
    the parameter file loses no key. *)
Definition modifies (P : string → Prop) (w w' : world) : Prop :=
  (∀ path, ¬ P path → path ≠ file_name_parameters args →
           files w' !! path = files w !! path) ∧
  (∀ key, is_Some (stored_parameters args w !! key) →
          is_Some (stored_parameters args w' !! key)).

#[export] Instance modifies_preorder P : PreOrder (modifies P).
Proof.
  split.
  - intros w. by split.
  - intros w1 w2 w3 [Hf12 Hk12] [Hf23 Hk23]. split.
    + intros path HP Hne. by rewrite Hf23, Hf12.
    + intros key Hkey. by apply Hk23, Hk12.
Qed.

Lemma modifies_same_files P w w' : files w' = files w → modifies P w w'.
Proof.
  intros Hfiles. split.
  - intros path _ _. by rewrite Hfiles.
  - intros key. unfold stored_parameters. by rewrite Hfiles.
Qed.

Lemma modifies_mono (P P' : string → Prop) w w' :
  (∀ path, P path → P' path) → modifies P w w' → modifies P' w w'.
Proof.
  intros HPP [Hf Hk]. split; [|done]. intros path HP Hne. apply Hf; [|done].
  intros HPpath. by apply HP, HPP.
Qed.

(** The operations that leave the files alone. *)
Definition reads_only {X : Type} (m : M X) : Prop :=
  ∀ w o w', m w = (o, w') → files w' = files w.

Lemma reads_only_modifies {X} P (m : M X) : reads_only m → respects (modifies P) m.
Proof. intros Hm w o w' Hrun. apply modifies_same_files. by eapply Hm. Qed.

Lemma emit_reads_only s op : reads_only (emit s op).
Proof. by intros w o w' [= _ <-]. Qed.

Lemma call_reads_only {X} s name (result : X) : reads_only (call s name result).
Proof. by intros w o w' [= _ <-]. Qed.

Lemma isfile_reads_only path : reads_only (isfile path).
Proof. by intros w o w' [= _ <-]. Qed.

Lemma read_polydata_reads_only s path : reads_only (read_polydata s path).
Proof.
  intros w o w'. rewrite read_polydata_eq.
  destruct (files w !! path) as [[p|d|]|]; by intros [= _ <-].
Qed.

Lemma get_parameters_reads_only s : reads_only (get_parameters args s).
Proof.
  intros w o w'. unfold get_parameters, bind, emit. simpl.
  destruct (files w !! _) as [[p|d|]|]; by intros [= _ <-].
Qed.

Lemma assert_reads_only condition : reads_only (assert condition).
Proof. unfold assert. destruct condition; by intros w o w' [= _ <-]. Qed.

Lemma bound_reads_only {X} (variable : option X) : reads_only (bound variable).
Proof. destruct variable; by intros w o w' [= _ <-]. Qed.

Lemma try_generate_mesh_reads_only d p : reads_only (try_generate_mesh args d p).
Proof.
  intros w o w'. rewrite try_generate_mesh_eq. by intros [= _ <-].
Qed.

Lemma store_modifies (P : string → Prop) path c :
  P path → path ≠ file_name_parameters args → respects (modifies P) (store path c).
Proof.
  intros HP Hne w o w' [= _ <-]. split; simpl.
  - intros path' HP' _. apply lookup_insert_ne. by intros ->.
  - intros key. unfold stored_parameters. simpl.
    by rewrite lookup_insert_ne.
Qed.

Lemma write_polydata_modifies (P : string → Prop) s p path :
  P path → path ≠ file_name_parameters args →
  respects (modifies P) (write_polydata s p path).
Proof.
  intros HP Hne. apply respects_bind; [apply _| |intros _].
  - apply reads_only_modifies, emit_reads_only.
  - by apply store_modifies.
Qed.

Lemma write_binary_modifies (P : string → Prop) s path :
  P path → path ≠ file_name_parameters args →
  respects (modifies P) (write_binary s path).
Proof.
  intros HP Hne. apply respects_bind; [apply _| |intros _].
  - apply reads_only_modifies, emit_reads_only.
  - by apply store_modifies.
Qed.

Lemma write_parameters_modifies P s data :
  respects (modifies P) (write_parameters args s data).
Proof.
  intros w o w' Hrun.
  pose proof (bind_write_parameters args s data ret w) as Heq.
  unfold bind at 1 in Heq. rewrite Hrun in Heq.
  assert (w' = stored (file_name_parameters args)
                 (Json (data ∪ stored_parameters args w))
                 (logged (Event s (Write (file_name_parameters args)))
                    (logged (Event s (Call "get_parameters")) w))) as ->.
  { destruct o; unfold ret in Heq; by injection Heq. }
  split; simpl.
  - intros path _ Hne. by rewrite lookup_insert_ne.
  - intros key Hkey. unfold stored_parameters at 1. simpl.
    rewrite lookup_insert_eq. apply lookup_union_is_Some. by right.
Qed.

Lemma centers_for_meshing_modifies P s surface use_flow_extensions :
  respects (modifies P) (centers_for_meshing args s surface use_flow_extensions).
Proof.
  unfold centers_for_meshing. apply respects_bind; [apply _| |intros stored].
  { apply reads_only_modifies, get_parameters_reads_only. }
  destruct (get_centers_for_meshing _ _ _ _) as [[inlet outlets] found].
  apply respects_bind; [apply _| |intros _].
  { apply reads_only_modifies, emit_reads_only. }
  apply respects_bind; [apply _| |intros _].
  { apply write_parameters_modifies. }
  apply respects_ret, _.
Qed.

Lemma compute_centerlines_modifies (P : string → Prop) s source target path
    capped_surface resampling :
  P path → path ≠ file_name_parameters args →
  respects (modifies P)
           (compute_centerlines s source target path capped_surface resampling).
Proof.
  intros HP Hne. unfold compute_centerlines.
  apply respects_bind; [apply _| |intros [|]].
  - apply reads_only_modifies, isfile_reads_only.
  - apply reads_only_modifies, read_polydata_reads_only.
  - apply respects_bind; [apply _| |intros centerlines].
    { apply reads_only_modifies, call_reads_only. }
    apply respects_bind; [apply _| |intros _].
    { by apply write_polydata_modifies. }
    apply respects_ret, _.
Qed.

Lemma distance_field_modifies (P : string → Prop) name field path :
  P path → path ≠ file_name_parameters args →
  respects (modifies P) (distance_field name field path).
Proof.
  intros HP Hne. unfold distance_field.
  apply respects_bind; [apply _| |intros _].
  { apply reads_only_modifies, emit_reads_only. }
  apply respects_bind; [apply _| |intros _].
  { by apply write_polydata_modifies. }
  apply respects_ret, _.
Qed.

Lemma generate_mesh_attempts_modifies P attempts d p :
  respects (modifies P) (generate_mesh_attempts args attempts d p).
Proof.
  induction attempts as [|attempts IH]; simpl.
  - apply respects_ret, _.
  - apply respects_bind; [apply _| |intros [ms|]].
    + apply reads_only_modifies, try_generate_mesh_reads_only.
    + apply respects_ret, _.
    + apply IH.
Qed.

End Files.

(** A file is among those a block may write. *)
Ltac written :=
  cbv beta;
  solve [ repeat first [ apply list_elem_of_here | apply list_elem_of_further ] ].

(** A file is one of those a block may write: one of a list, or any file
    but the one left alone. *)
Ltac may_write := first [ written | cbv beta; different_names ].

(** Decompose a block of the pipeline into the operations that read and
    those that write. *)
Ltac modifies_step :=
  lazymatch goal with
  | |- respects _ (bind _ _) => apply respects_bind; [apply _| |intros]
  | |- respects _ (ret _) => apply respects_ret, _
  | |- respects _ (sys_exit _) => apply respects_sys_exit, _
  | |- respects _ (raise _) => apply respects_raise, _
  | |- respects _ (emit _ _) => apply reads_only_modifies, emit_reads_only
  | |- respects _ (call _ _ _) => apply reads_only_modifies, call_reads_only
  | |- respects _ (isfile _) => apply reads_only_modifies, isfile_reads_only
  | |- respects _ (read_polydata _ _) =>
      apply reads_only_modifies, read_polydata_reads_only
  | |- respects _ (get_parameters _ _) =>
      apply reads_only_modifies, get_parameters_reads_only
  | |- respects _ (assert _) => apply reads_only_modifies, assert_reads_only
  | |- respects _ (bound _) => apply reads_only_modifies, bound_reads_only
  | |- respects _ (try_generate_mesh _ _ _) =>
      apply reads_only_modifies, try_generate_mesh_reads_only
  | |- respects _ (generate_mesh_attempts _ _ _ _) =>
      apply generate_mesh_attempts_modifies
  | |- respects _ (write_parameters _ _ _) => apply write_parameters_modifies
  | |- respects _ (centers_for_meshing _ _ _ _) => apply centers_for_meshing_modifies
  | |- respects _ (write_polydata _ _ _) =>
      apply write_polydata_modifies; [may_write|different_names]
  | |- respects _ (write_binary _ _) =>
      apply write_binary_modifies; [may_write|different_names]
  | |- respects _ (compute_centerlines _ _ _ _ _ _) =>
      apply compute_centerlines_modifies; [may_write|different_names]
  | |- respects _ (distance_field _ _ _) =>
      apply distance_field_modifies; [may_write|different_names]
  | |- respects _ (if ?b then _ else _) => destruct b
  | |- respects _ (match ?x with _ => _ end) => destruct x
  | |- respects _ (let '(_, _) := ?x in _) => destruct x
  end.

Ltac modifies_auto := repeat modifies_step.

Section FileBlocks.
Context `{Externals}.
Variable args : arguments.

Lemma load_model_modifies :
  respects (modifies args (.∈ [])) (load_model args).
Proof. unfold load_model. modifies_auto. Qed.

Lemma clip_model_modifies surface :
  respects (modifies args (.∈ [file_name_clipped_model args]))
           (clip_model args surface).
Proof. unfold clip_model, uncap_surface. modifies_auto. Qed.

Lemma check_surface_modifies surface :
  respects (modifies args (.∈ [])) (check_surface args surface).
Proof. unfold check_surface. modifies_auto. Qed.

Lemma cap_surface_modifies s surface :
  respects (modifies args (.∈ []))
           (call s "vmtk_cap_polydata" (vmtk_cap_polydata surface)).
Proof. modifies_auto. Qed.

Lemma get_centerlines_modifies surface capped_surface resampling_step :
  respects (modifies args (.∈ [file_name_centerlines args]))
           (get_centerlines args surface capped_surface resampling_step).
Proof. unfold get_centerlines. modifies_auto. Qed.

Lemma smooth_surface_modifies surface cd rd :
  respects (modifies args (.∈ [file_name_voronoi args; file_name_voronoi_smooth args;
                               file_name_surface_smooth args]))
           (smooth_surface args surface cd rd).
Proof.
  unfold smooth_surface, smooth_voronoi, smooth_laplace_taubin. modifies_auto.
Qed.

Lemma extend_surface_modifies surface cd :
  respects (modifies args (.∈ [file_name_model_flow_ext args]))
           (extend_surface args surface cd).
Proof. unfold extend_surface, add_extensions. modifies_auto. Qed.

Lemma flow_centerlines_modifies surface_extended capped_surface cd resampling_step :
  respects (modifies args (.∈ [file_name_flow_centerlines args]))
           (flow_centerlines args surface_extended capped_surface cd
                             resampling_step).
Proof. unfold flow_centerlines, extended_centerlines. modifies_auto. Qed.

Lemma clip_centerline_modifies centerlines cd :
  respects (modifies args (.∈ [])) (clip_centerline centerlines cd).
Proof. unfold clip_centerline. modifies_auto. Qed.

Lemma compute_distance_to_sphere_modifies surface_extended centerlines rd :
  respects (modifies args (.∈ [file_name_distance_to_sphere_const args;
                               file_name_distance_to_sphere_curv args;
                               file_name_distance_to_sphere_diam args;
                               file_name_distance_to_sphere_spheres args]))
           (compute_distance_to_sphere args surface_extended centerlines rd).
Proof.
  unfold compute_distance_to_sphere, distance_constant, distance_curvature,
    distance_diameter, distance_spheres.
  modifies_auto.
Qed.

Lemma solid_thickness_field_modifies distance_to_sphere :
  respects (modifies args
              (.∈ [file_name_distance_to_sphere_solid_thickness args]))
           (solid_thickness_field args distance_to_sphere).
Proof. unfold solid_thickness_field, variable_thickness. modifies_auto. Qed.

Lemma set_boundary_ids_modifies centerlines mesh inlet rd :
  respects (modifies args (.∈ [file_name_probe_points args]))
           (set_boundary_ids args centerlines mesh inlet rd).
Proof. unfold set_boundary_ids. modifies_auto. Qed.

Lemma visualize_and_simulate_modifies :
  respects (modifies args (.∈ [])) (visualize_and_simulate args).
Proof. unfold visualize_and_simulate. modifies_auto. Qed.

Lemma convert_mesh_modifies file_name_xml_mesh :
  respects (modifies args (.∈ [file_name_hdf5_mesh args;
                               file_name_edge_length_xdmf args;
                               file_name_xdmf_mesh args]))
           (convert_mesh args file_name_xml_mesh).
Proof. unfold convert_mesh. modifies_auto. Qed.

End FileBlocks.

(** ** Exceptions of the mesh generation *)

Section MeshErrors.
Context `{Externals}.
Variable args : arguments.

Lemma generate_mesh_attempts_raised d p n j e :
  ∀ w, j < n →
       (∀ i, i < j → attempt args (mesh_attempts w + i) d p = Raised RuntimeError) →
       attempt args (mesh_attempts w + j) d p = Raised e → e ≠ RuntimeError →
       generate_mesh_attempts args n d p w = (Raised e, after_attempts (S j) w).
Proof.
  revert j. induction n as [|n IH]; intros j w Hj Hfail Hraise He; [lia|]. simpl.
  unfold bind. rewrite try_generate_mesh_eq. destruct j as [|j].
  - rewrite Nat.add_0_r in Hraise. rewrite Hraise. by destruct e.
  - pose proof (Hfail 0 ltac:(lia)) as H0. rewrite Nat.add_0_r in H0.
    rewrite H0. rewrite (IH j); [by rewrite after_attempts_S|lia| | |done].
    + intros i Hi. simpl.
      replace (mesh_attempts w + 1 + i) with (mesh_attempts w + S i) by lia.
      apply Hfail. lia.
    + simpl. replace (mesh_attempts w + 1 + j) with (mesh_attempts w + S j) by lia.
      done.
Qed.

(** X11. Only a [RuntimeError] of [generate_mesh] is caught. Any other
    exception ends the mesh block at once with that exception: when it is
    raised by an attempt of the loop, no further attempt is made and
    [mesh_alternative] is not called; when it is raised by the attempt that
    follows [mesh_alternative], the run does not exit with status -1. In
    both cases no file has been written. *)
Theorem generate_mesh_other_exception_escapes d p parameters w e :
  files w !! file_name_vtu_mesh args = None → e ≠ RuntimeError →
  let n := Z.to_nat (mesh_generation_retries args + 1) in
  (∀ j, j < n →
        (∀ i, i < j → attempt args (mesh_attempts w + i) d p = Raised RuntimeError) →
        attempt args (mesh_attempts w + j) d p = Raised e →
        compute_mesh args (Some d) p parameters w
        = (Raised e, after_attempts (S j) w) ∧
        files (after_attempts (S j) w) = files w) ∧
  ((∀ i, i < n → attempt args (mesh_attempts w + i) d p = Raised RuntimeError) →
   attempt args (mesh_attempts w + n) (mesh_alternative d) p = Raised e →
   compute_mesh args (Some d) p parameters w = (Raised e, after_fallback n w) ∧
   files (after_fallback n w) = files w).
Proof.
  intros Hnone He n.
  assert (Hblock : compute_mesh args (Some d) p parameters w
                   = bind (generate_mesh_with_fallback args d p)
                          (fun '(mesh, remeshed_surface) =>
                             store_mesh args mesh remeshed_surface parameters) w).
  { unfold compute_mesh. rewrite bind_isfile_missing by done. simpl.
    by rewrite bind_ret. }
  split.
  - intros j Hj Hfail Hraise. split; [|done]. rewrite Hblock.
    unfold generate_mesh_with_fallback. fold n. unfold bind.
    by rewrite (generate_mesh_attempts_raised d p n j e w Hj Hfail Hraise He).
  - intros Hfail Hraise. split; [|done]. rewrite Hblock. unfold bind at 1.
    rewrite (generate_mesh_with_fallback_all_fail args d p w Hfail). fold n.
    rewrite Hraise. by destruct e.
Qed.

(** The five ids of the arguments, as [store_mesh] records them. *)
Definition mesh_ids : list (string * Z) :=
  [("solid_side_wall_id", solid_side_wall_id args);
   ("interface_fsi_id", interface_fsi_id args);
   ("solid_outer_wall_id", solid_outer_wall_id args);
   ("fluid_volume_id", fluid_volume_id args);
   ("solid_volume_id", solid_volume_id args)].

(** X12. The mesh block, when it returns, has either generated the mesh or read
    it. When the mesh file was missing, the five ids of the arguments are
    in the parameter file afterwards, and the name of the XML mesh handed
    to the conversion ends in [.gz] exactly when the mesh was written
    compressed (format [xml] or [hdf5] with [compress_mesh]). When the mesh
    file was there, no file is changed, so that the ids of this run are not
    recorded, and the name handed on is [<case>.xml] whatever
    [compress_mesh] says. *)
Theorem compute_mesh_generated_or_resumed d p parameters w mesh name w' :
  compute_mesh args d p parameters w = (Returned (mesh, name), w') →
  match files w !! file_name_vtu_mesh args with
  | None =>
      Forall (fun '(key, id) => stored_parameters args w' !! key = Some id)
             mesh_ids ∧
      name = (if (String.eqb (mesh_format args) "xml"
                  || String.eqb (mesh_format args) "hdf5") && compress_mesh args
              then file_name_xml_mesh args +:+ ".gz"
              else file_name_xml_mesh args)
  | Some _ => files w' = files w ∧ name = file_name_xml_mesh args
  end.
Proof.
  intros Hrun. destruct (files w !! file_name_vtu_mesh args) as [c|] eqn:Efile.
  - revert Hrun. unfold compute_mesh.
    rewrite bind_isfile_found by (by rewrite Efile). cbn [negb].
    unfold bind. rewrite read_polydata_eq, Efile.
    destruct c as [mesh0| |]; [|done..]. by intros [= _ <- <-].
  - revert Hrun. unfold compute_mesh.
    rewrite bind_isfile_missing by done. cbn [negb]. intros Hrun.
    apply bind_returned in Hrun as (d0 & w1 & _ & Hrun).
    apply bind_returned in Hrun as ([mesh0 surface] & w2 & _ & Hrun).
    revert Hrun. unfold store_mesh, write_mesh.
    destruct (String.eqb (mesh_format args) "xml"
              || String.eqb (mesh_format args) "hdf5");
      run_steps; rewrite bind_write_parameters; intros [= _ <- <-];
      (split; [|by destruct (compress_mesh args)]);
      unfold mesh_ids, stored_parameters; simpl; rewrite lookup_insert_eq;
      repeat constructor; apply lookup_union_Some_l;
      repeat first [ by rewrite lookup_insert_eq
                   | rewrite lookup_insert_ne by done ].
Qed.

End MeshErrors.

(** ** The start of a region centerline *)

Section Regions.
Context `{Externals}.
Variable args : arguments.

(** X13. The inner loop of the regions (lines 210-216) over a line of [k + 1]
    points, [k] at least one, ends with [j] bound to an index between [1]
    and [k], whatever [j] was before: the largest index whose point lies
    within [tol] of the centerlines, and [1] when there is no such index.
    The index [0] is never tested. *)
Theorem find_start_id_found line centerlines tol k j :
  0 < k →
  ∃ r, find_start_id line centerlines tol k j = Some (Z.of_nat r) ∧
       1 ≤ r ≤ k ∧
       (∀ i, r < i ≤ k →
             PrimFloat.leb (distance_to_closest_point line centerlines (Z.of_nat i))
                           tol = false) ∧
       (PrimFloat.leb (distance_to_closest_point line centerlines (Z.of_nat r)) tol
        = true ∨ r = 1).
Proof.
  revert j. induction k as [|k IH]; intros j Hk; [lia|].
  cbn [find_start_id].
  destruct (PrimFloat.leb _ tol) eqn:Eclose.
  - exists (S k). split; [done|]. split; [lia|]. split; [intros i Hi; lia|by left].
  - destruct k as [|k].
    + exists 1. split; [done|]. split; [lia|]. split; [intros i Hi; lia|by right].
    + destruct (IH (Some (Z.of_nat (S (S k)))) ltac:(lia)) as (r & Hr & Hrange & Hfar & Hlast).
      exists r. split; [done|]. split; [lia|]. split; [|done].
      intros i Hi. destruct (decide (i = S (S k))) as [->|Hne]; [done|].
      apply Hfar. lia.
Qed.

(** X14. A region whose line has fewer than two points leaves the loop variable
    as it was: for the first region of a run it is unbound, and the
    extraction of the line raises a [NameError] before any region file is
    written; for a later region the index found for the region before is
    used again. *)
Theorem region_lines_short_line centerline_region centerlines tol i rest j
    refine_region_centerline w :
  files w !! file_name_region_centerline args i = None →
  (GetNumberOfPoints
     (extract_single_line centerline_region (Z.of_nat i) None None) ≤ 1)%Z →
  let line := extract_single_line centerline_region (Z.of_nat i) None None in
  let w1 := logged (Event CenterlineExtraction (Call "extract_single_line")) w in
  region_lines args centerline_region centerlines tol (i :: rest) j
               refine_region_centerline w
  = match j with
    | None => (Raised NameError, w1)
    | Some start_id =>
        let tmp := extract_single_line line 0 (Some start_id) None in
        region_lines args centerline_region centerlines tol rest j
          (refine_region_centerline ++ [tmp])
          (stored (file_name_region_centerline args i) (Polydata tmp)
             (logged (Event CenterlineExtraction
                            (Write (file_name_region_centerline args i)))
                     (logged (Event CenterlineExtraction
                                    (Call "extract_single_line")) w1)))
    end.
Proof.
  intros Hnone Hshort line w1. cbn [region_lines].
  rewrite bind_isfile_missing by done. cbn [negb]. rewrite bind_call.
  fold line. fold w1.
  replace (Z.to_nat (GetNumberOfPoints line - 1)) with 0 by (subst line; lia).
  cbn [find_start_id]. destruct j as [start_id|]; [|done].
  by rewrite bind_call, bind_write_polydata.
Qed.

End Regions.

(** ** A Voronoi smoothing that fails *)

Section Voronoi.
Context `{Externals}.
Variable args : arguments.

Lemma bind_read_polydata_exited {X} s path (k : polydata → M X) w status w' :
  bind (read_polydata s path) k w = (Exited status, w') →
  ∃ p, files w !! path = Some (Polydata p) ∧
       k p (logged (Event s (Read path)) w) = (Exited status, w').
Proof.
  unfold bind at 1. rewrite read_polydata_eq.
  destruct (files w !! path) as [[p|d|]|]; try done. intros Hk. by exists p.
Qed.

(** X15. When the Voronoi smoothing finds no smoothed surface and exits, the
    status is -1 and the file of the smoothed surface has been written
    with the surface as it was before the smoothing. A later smoothing
    stage, of any method, finds that file and returns this surface without
    smoothing anything. *)
Theorem smooth_voronoi_failure_stores_input surface cd rd w status w' :
  files w !! file_name_surface_smooth args = None →
  smooth_voronoi args surface cd rd w = (Exited status, w') →
  status = (-1)%Z ∧
  files w' !! file_name_surface_smooth args = Some (Polydata surface) ∧
  (∀ surface2 cd2 rd2,
     smooth_voronoi args surface2 cd2 rd2 w'
     = (Returned surface,
        logged (Event Smoothing (Read (file_name_surface_smooth args))) w')) ∧
  (∀ surface2,
     smooth_laplace_taubin args surface2 w'
     = (Returned surface,
        logged (Event Smoothing (Read (file_name_surface_smooth args))) w')).
Proof.
  intros Hnone Hrun.
  assert (Hfile : status = (-1)%Z ∧
                  files w' !! file_name_surface_smooth args
                  = Some (Polydata surface)).
  { revert Hrun. unfold smooth_voronoi.
    rewrite bind_isfile_missing by done. cbn [negb].
    rewrite bind_isfile.
    destruct (bool_decide _); cbn [negb];
      [intros (voronoi & _ & Hrun)%bind_read_polydata_exited; revert Hrun
      |run_steps];
      (rewrite bind_isfile;
       destruct (bool_decide _); cbn [negb];
       [intros (voronoi_smoothed & _ & Hrun)%bind_read_polydata_exited;
        revert Hrun
       |run_steps]);
      run_steps; cbv zeta;
      destruct (compute_centers _) as [inlets outlets];
      (destruct (Z.eqb _ _); cbn [negb]; run_steps; [done|]);
      intros [= <- <-]; (split; [done|]); simpl; apply lookup_insert_eq. }
  destruct Hfile as [Hstatus Hfile]. split; [done|]. split; [done|]. split.
  - intros surface2 cd2 rd2.
    destruct (cp_read _ _ _ _ _ _ (smooth_voronoi_checkpointed args surface2 cd2 rd2)
                      w' surface Hfile) as (a & Hread & ->).
    exact Hread.
  - intros surface2.
    destruct (cp_read _ _ _ _ _ _ (smooth_laplace_taubin_checkpointed args surface2)
                      w' surface Hfile) as (a & Hread & ->).
    exact Hread.
Qed.

End Voronoi.

(** ** The region centerlines and the mesh block *)

Section MoreBlocks.
Context `{Externals}.
Variable args : arguments.

(** The files of the region refinement. *)
Definition region_file (path : string) : Prop :=
  path = file_name_refine_region_centerlines args ∨
  ∃ i, path = file_name_region_centerline args i.

Lemma region_centerline_not_parameters i :
  file_name_region_centerline args i ≠ file_name_parameters args.
Proof. unfold file_name_region_centerline, file_name_parameters. different_names. Qed.

Lemma region_lines_modifies centerline_region centerlines tol regions :
  ∀ j refine_region_centerline,
    respects (modifies args region_file)
             (region_lines args centerline_region centerlines tol regions j
                           refine_region_centerline).
Proof.
  induction regions as [|i rest IH]; intros j acc; simpl.
  - apply respects_ret, _.
  - apply respects_bind; [apply _| |intros [|]; simpl].
    + apply reads_only_modifies, isfile_reads_only.
    + apply respects_bind; [apply _| |intros tmp; apply IH].
      apply reads_only_modifies, read_polydata_reads_only.
    + apply respects_bind; [apply _| |intros line].
      { apply reads_only_modifies, call_reads_only. }
      destruct (find_start_id _ _ _ _ _) as [start_id|];
        [|apply respects_raise, _].
      apply respects_bind; [apply _| |intros tmp].
      { apply reads_only_modifies, call_reads_only. }
      apply respects_bind; [apply _| |intros _; apply IH].
      apply write_polydata_modifies;
        [right; by exists i|apply region_centerline_not_parameters].
Qed.

Lemma refine_regions_modifies cd resampling_step :
  respects (modifies args region_file) (refine_regions args cd resampling_step).
Proof.
  unfold refine_regions.
  destruct (refine_region args); [|apply respects_ret, _].
  apply respects_bind; [apply _| |intros stored].
  { apply reads_only_modifies, get_parameters_reads_only. }
  destruct (get_regions_to_refine _ _ _) as [regions found].
  apply respects_bind; [apply _| |intros _].
  { apply reads_only_modifies, emit_reads_only. }
  apply respects_bind; [apply _| |intros _].
  { apply write_parameters_modifies. }
  apply respects_bind; [apply _| |intros centerline_region].
  { apply compute_centerlines_modifies; [by left|different_names]. }
  apply respects_bind; [apply _| |intros info].
  { apply reads_only_modifies, get_parameters_reads_only. }
  destruct (info !! _) as [num_anu|]; [|apply respects_raise, _].
  apply respects_bind; [apply _| |intros lines].
  { apply region_lines_modifies. }
  apply respects_bind; [apply _| |intros merged].
  { apply reads_only_modifies, call_reads_only. }
  apply respects_ret, _.
Qed.

(** The files of the mesh. *)
Definition mesh_files : list string :=
  [file_name_surface_name args; file_name_vtu_mesh args;
   file_name_xml_mesh args; file_name_xml_mesh args +:+ ".gz"].

Lemma xml_gz_not_parameters :
  file_name_xml_mesh args +:+ ".gz" ≠ file_name_parameters args.
Proof.
  unfold file_name_xml_mesh, file_name_parameters.
  rewrite append_assoc. different_names.
Qed.

Lemma generate_mesh_with_fallback_modifies P d p :
  respects (modifies args P) (generate_mesh_with_fallback args d p).
Proof. unfold generate_mesh_with_fallback. modifies_auto. Qed.

Lemma store_mesh_modifies mesh remeshed_surface parameters :
  respects (modifies args (.∈ mesh_files))
           (store_mesh args mesh remeshed_surface parameters).
Proof.
  unfold store_mesh, write_mesh, mesh_files.
  destruct (String.eqb (mesh_format args) "xml" || String.eqb (mesh_format args) "hdf5").
  - apply respects_bind; [apply _| |intros; modifies_auto].
    apply respects_bind; [apply _| |intros; modifies_auto].
    apply respects_bind; [apply _|modifies_auto|intros].
    apply respects_bind; [apply _|modifies_auto|intros].
    apply respects_bind; [apply _|modifies_auto|intros].
    apply write_binary_modifies.
    + destruct (compress_mesh args); written.
    + destruct (compress_mesh args);
        [apply xml_gz_not_parameters|different_names].
  - modifies_auto.
Qed.

Lemma compute_mesh_modifies distance_to_sphere solid_thickness_parameters
    parameters :
  respects (modifies args (.∈ mesh_files))
           (compute_mesh args distance_to_sphere solid_thickness_parameters
                         parameters).
Proof.
  unfold compute_mesh.
  apply respects_bind; [apply _| |intros [|]; simpl].
  - apply reads_only_modifies, isfile_reads_only.
  - modifies_auto.
  - apply respects_bind; [apply _| |intros d].
    { apply reads_only_modifies, bound_reads_only. }
    apply respects_bind; [apply _| |intros [mesh remeshed_surface]].
    { apply generate_mesh_with_fallback_modifies. }
    apply store_mesh_modifies.
Qed.

End MoreBlocks.

(** The events of a block of [run_stages]. *)
Ltac block_progress :=
  first
    [ apply load_model_progress
    | apply clip_model_progress
    | apply check_surface_progress
    | apply cap_surface_progress
    | apply get_centerlines_progress
    | apply refine_regions_progress
    | apply smooth_surface_progress
    | apply extend_surface_progress
    | apply flow_centerlines_progress
    | apply clip_centerline_progress
    | apply compute_distance_to_sphere_progress
    | apply solid_thickness_field_progress
    | apply compute_mesh_progress
    | apply convert_mesh_progress
    | apply set_boundary_ids_progress
    | apply visualize_and_simulate_progress ].

(** The files of a block of [run_stages]. *)
Ltac block_modifies :=
  first
    [ apply load_model_modifies
    | apply clip_model_modifies
    | apply check_surface_modifies
    | apply cap_surface_modifies
    | apply get_centerlines_modifies
    | apply refine_regions_modifies
    | apply smooth_surface_modifies
    | apply extend_surface_modifies
    | apply flow_centerlines_modifies
    | apply clip_centerline_modifies
    | apply compute_distance_to_sphere_modifies
    | apply solid_thickness_field_modifies
    | apply compute_mesh_modifies
    | apply convert_mesh_modifies
    | apply set_boundary_ids_modifies
    | apply visualize_and_simulate_modifies ].

(** ** What a completed run leaves *)

Section Completed.
Context `{Externals}.
Variable args : arguments.

Lemma hoare_any {X} (P : world → Prop) (m : M X) :
  hoare P m (fun _ _ => True) (fun _ => True).
Proof. intros w o w' _ _. by destruct o. Qed.

Lemma hoare_keeps {X} A path (m : M X) :
  respects (progress A) m →
  hoare (fun w => is_Some (files w !! path)) m
        (fun _ w => is_Some (files w !! path)) (fun _ => True).
Proof.
  intros Hm w o w' Hfile Hrun. destruct (Hm _ _ _ Hrun) as [Hkeeps _].
  destruct o; [by apply Hkeeps|done..].
Qed.

Lemma compute_mesh_returned_file d p parameters :
  hoare (fun _ => True) (compute_mesh args d p parameters)
        (fun _ w => is_Some (files w !! file_name_vtu_mesh args)) (fun _ => True).
Proof.
  intros w o w' _ Hrun. destruct o as [a| |]; [|done..].
  pose proof (compute_mesh_checkpointed args d p parameters) as Hcp.
  destruct (files w !! file_name_vtu_mesh args) as [c|] eqn:Efile.
  - destruct (cp_skip _ _ _ _ _ _ Hcp w) as [o Hskip]; [by rewrite Efile|].
    rewrite Hskip in Hrun. injection Hrun as _ <-. simpl. by rewrite Efile.
  - destruct (cp_compute _ _ _ _ _ _ Hcp w a w' Efile Hrun) as [Hfile _].
    by rewrite Hfile.
Qed.

Lemma set_boundary_ids_returned_files centerlines mesh inlet rd :
  hoare (fun _ => True) (set_boundary_ids args centerlines mesh inlet rd)
        (fun _ w => is_Some (files w !! file_name_parameters args) ∧
                    is_Some (files w !! file_name_probe_points args))
        (fun _ => True).
Proof.
  intros w o w' _. unfold set_boundary_ids.
  destruct (setup_model_network _ _ _) as [network probe_points].
  run_steps. rewrite bind_get_parameters. run_steps.
  rewrite bind_write_parameters. intros [= <- <-]. simpl. split.
  - by rewrite lookup_insert_eq.
  - rewrite lookup_insert_ne by different_names. by rewrite lookup_insert_eq.
Qed.

Lemma hoare_conj {X} (P : world → Prop) (m : M X) Q1 Q2 E1 E2 :
  hoare P m Q1 E1 → hoare P m Q2 E2 →
  hoare P m (fun a w => Q1 a w ∧ Q2 a w) (fun w => E1 w ∧ E2 w).
Proof.
  intros H1 H2 w o w' HP Hrun. specialize (H1 w o w' HP Hrun).
  specialize (H2 w o w' HP Hrun). by destruct o.
Qed.

(** The files [run_stages] has on its return. *)
Definition outputs_present (w : world) : Prop :=
  is_Some (files w !! file_name_vtu_mesh args) ∧
  is_Some (files w !! file_name_parameters args) ∧
  is_Some (files w !! file_name_probe_points args).

Lemma run_stages_outputs :
  hoare (fun _ => True) (run_stages args) (fun _ => outputs_present)
        (fun _ => True).
Proof.
  unfold run_stages.
  do 14 (eapply hoare_bind; [apply hoare_any|intro_result; cbv beta]).
  eapply hoare_bind; [apply compute_mesh_returned_file|intro_result; cbv beta].
  eapply hoare_bind;
    [eapply hoare_keeps, convert_mesh_progress|intro_result; cbv beta].
  eapply hoare_bind.
  { intros w1 o1 w2 Hvtu Hrun.
    destruct (set_boundary_ids_progress args _ _ _ _ _ _ _ Hrun) as [Hkeeps _].
    pose proof (set_boundary_ids_returned_files _ _ _ _ w1 o1 w2 I Hrun) as Hnew.
    destruct o1; [|exact I..]. destruct Hnew as [Hinfo Hprobe].
    exact (conj (Hkeeps _ Hvtu) (conj Hinfo Hprobe)). }
  intros ?. cbv beta. intros w1 o1 w2 (Hvtu & Hinfo & Hprobe) Hrun.
  destruct (visualize_and_simulate_progress args _ _ _ Hrun) as [Hkeeps _].
  destruct o1; [|done..]. repeat split; by apply Hkeeps.
Qed.

Lemma run_pre_processing_outputs w w' :
  run_pre_processing args w = (Returned tt, w') →
  outputs_present w' ∧ ∀ path, path ∈ files_to_remove args → files w' !! path = None.
Proof.
  intros Hrun. apply bind_returned in Hrun as ([] & w1 & Hstages & Hclean).
  pose proof (run_stages_outputs w _ _ I Hstages) as (Hvtu & Hinfo & Hprobe).
  destruct (remove_existing_spec Finish (files_to_remove args) w1)
    as (w2 & Hrun2 & Hother & Hgone & _).
  unfold remove_unused_files in Hclean. rewrite Hrun2 in Hclean.
  injection Hclean as <-. split; [|exact Hgone].
  pose proof (output_files_not_removed args) as Hout.
  rewrite Forall_forall in Hout. unfold outputs_present.
  rewrite !Hother; [done|apply Hout; unfold output_files..].
  - do 5 apply list_elem_of_further. apply list_elem_of_here.
  - do 4 apply list_elem_of_further. apply list_elem_of_here.
  - apply list_elem_of_here.
Qed.

(** X16. A run that completes leaves the VTU mesh, the parameter file and the
    probe points, and none of the intermediate files of the removal list:
    neither the centerlines nor the clipped, smoothed or extended surfaces
    nor the mesh-density fields of the constant, curvature and diameter
    methods are left for a later run. *)
Theorem completed_run_files w w' :
  run_pre_processing args w = (Returned tt, w') →
  Forall (fun path => is_Some (files w' !! path))
         [file_name_vtu_mesh args; file_name_parameters args;
          file_name_probe_points args] ∧
  Forall (fun path => files w' !! path = None) (files_to_remove args).
Proof.
  intros Hrun.
  destruct (run_pre_processing_outputs w w' Hrun)
    as ((Hvtu & Hinfo & Hprobe) & Hgone).
  split; [by repeat constructor|]. rewrite Forall_forall. exact Hgone.
Qed.

End Completed.

(** ** Files that a part of the run leaves alone *)

Section Steady.
Context `{Externals}.
Variable args : arguments.

(** The event [e] is among those added to the log. *)
Definition happens (e : event) (w w' : world) : Prop :=
  ∃ evs, log w' = log w ++ evs ∧ In e evs.

Lemma happens_before A e w w1 w2 :
  emitted A w w1 → happens e w1 w2 → happens e w w2.
Proof.
  intros (evs1 & E1 & _) (evs2 & E2 & Hin). exists (evs1 ++ evs2).
  split; [by rewrite E2, E1, app_assoc|]. apply in_or_app. by right.
Qed.

Lemma happens_after A e w w1 w2 :
  happens e w w1 → emitted A w1 w2 → happens e w w2.
Proof.
  intros (evs1 & E1 & Hin) (evs2 & E2 & _). exists (evs1 ++ evs2).
  split; [by rewrite E2, E1, app_assoc|]. apply in_or_app. by left.
Qed.

(** The file under [path] is as it was, and the log has grown by events
    accepted by [A]. *)
Definition steady (path : string) (A : event → bool) (w w' : world) : Prop :=
  files w' !! path = files w !! path ∧ emitted A w w'.

#[export] Instance steady_preorder path A : PreOrder (steady path A).
Proof.
  split.
  - intros w. split; [done|reflexivity].
  - intros w1 w2 w3 [F1 E1] [F2 E2]. split; [by rewrite F2|by transitivity w2].
Qed.

Lemma steady_intro {X} (P : string → Prop) s names path A (m : M X) :
  respects (modifies args P) m →
  respects (progress (allowed s names)) m →
  ¬ P path → path ≠ file_name_parameters args →
  (∀ e, ev_stage e = s → A e = true) →
  respects (steady path A) m.
Proof.
  intros Hfiles Hevents HP Hne HA w o w' Hrun. split.
  - destruct (Hfiles _ _ _ Hrun) as [Hsame _]. by apply Hsame.
  - destruct (Hevents _ _ _ Hrun) as [_ He].
    eapply emitted_mono; [|exact He]. intros e Ha. by apply HA, (allowed_stage _ names).
Qed.

Lemma hoare_step {X} (R : relation world) `{!Transitive R} w0 (m : M X)
    (E : world → Prop) :
  respects R m → (∀ w, R w0 w → E w) →
  hoare (R w0) m (fun _ => R w0) E.
Proof.
  intros Hm HE w o w' Hw Hrun.
  assert (R w0 w') by (transitivity w; [done|by eapply Hm]).
  destruct o; auto.
Qed.

(** The removal at the start of a run. *)
Lemma remove_all_files_spec w :
  ∃ w0, remove_all_files args w = (Returned tt, w0) ∧
        emitted (removals Setup) w w0 ∧
        (∀ path, files w !! path = None → files w0 !! path = None) ∧
        (∀ path, path ∉ files_to_remove_all args →
                 files w0 !! path = files w !! path) ∧
        (remove_all args = true →
         ∀ path, path ∈ files_to_remove_all args → files w0 !! path = None) ∧
        (remove_all args = false → w0 = w).
Proof.
  unfold remove_all_files. destruct (remove_all args).
  - destruct (remove_existing_spec Setup (files_to_remove_all args) w)
      as (w0 & Hrun & Hother & Hgone & Hsub & _).
    exists w0. split; [done|]. split; [by eapply remove_existing_emitted|].
    split; [|split; [done|split; [done|done]]].
    intros path Hnone. destruct (files w0 !! path) eqn:Efile; [|done].
    rewrite (Hsub path) in Efile by (by rewrite Efile). congruence.
  - exists w. split; [done|]. split; [reflexivity|]. by repeat split.
Qed.

End Steady.

Section Emitted.
Context `{Externals}.
Variable args : arguments.

Lemma remove_all_files_emitted :
  respects (emitted (removals Setup)) (remove_all_files args).
Proof.
  unfold remove_all_files. destruct (remove_all args).
  - apply remove_existing_emitted.
  - apply respects_ret, _.
Qed.

Lemma emitted_of_removals {X} s A (m : M X) :
  respects (emitted (removals s)) m →
  (∀ e, ev_stage e = s → A e = true) →
  respects (emitted A) m.
Proof.
  intros Hm HA. eapply respects_weaken; [|exact Hm]. intros w w'.
  apply emitted_mono. intros e He. by apply HA, removals_stage.
Qed.

Lemma emitted_of_progress {X} s names A (m : M X) :
  respects (progress (allowed s names)) m →
  (∀ e, ev_stage e = s → A e = true) →
  respects (emitted A) m.
Proof.
  intros Hm HA. eapply respects_weaken; [|exact Hm]. intros w w' [_ He].
  eapply emitted_mono; [|exact He]. intros e Ha.
  by apply HA, (allowed_stage _ names).
Qed.

End Emitted.

(** A file is not among those a block may write. *)
Ltac not_written :=
  cbv beta;
  first
    [ apply not_elem_of_nil
    | rewrite !not_elem_of_cons; repeat split; try apply not_elem_of_nil;
      different_names
    | let Heq := fresh "Heq" in
      let i := fresh "i" in
      intros [Heq|[i Heq]]; revert Heq; different_names ].

(** A block of [run_stages] leaves a file alone that it does not write. *)
Ltac block_steady :=
  eapply steady_intro;
  [ block_modifies | block_progress | not_written | different_names
  | let st := fresh "st" in
    let op := fresh "op" in
    let He := fresh "He" in
    intros [st op] He; simpl in He; subst st; reflexivity ].

Section Reruns.
Context `{Externals}.
Variable args : arguments.

Definition compute_centerlines_called : event :=
  Event CenterlineExtraction (Call "compute_centerlines").

(** Without the file of the centerlines, [get_centerlines] computes
    them. *)
Lemma get_centerlines_computes surface capped_surface resampling_step w0 :
  files w0 !! file_name_centerlines args = None →
  hoare (steady (file_name_centerlines args) anything w0)
        (get_centerlines args surface capped_surface resampling_step)
        (fun _ => happens compute_centerlines_called w0) (fun _ => True).
Proof.
  intros Hnone w o w' [Hfile Hlog]. unfold get_centerlines.
  rewrite bind_centers_for_meshing. cbv zeta.
  destruct (get_centers_for_meshing _ _ _ _) as [[inlet outlets] found]. simpl fst.
  simpl snd.
  assert (Hmissing : ∀ e,
    files (logged e (after_centers args CenterlineExtraction found w))
      !! file_name_centerlines args = None).
  { intros e. simpl. rewrite lookup_insert_ne by different_names.
    by rewrite Hfile. }
  destruct (negb (Nat.eqb (length outlets) 0)); cbn [negb]; run_steps.
  - rewrite compute_centerlines_missing.
    2:{ simpl. rewrite lookup_insert_ne by different_names. by rewrite Hfile. }
    cbv zeta. run_steps. intros [= <- <-].
    eapply happens_before; [exact Hlog|].
    eexists. split; [simpl; rewrite <- !app_assoc; simpl; reflexivity|].
    simpl. tauto.
  - rewrite compute_centerlines_missing by apply Hmissing.
    cbv zeta. run_steps. intros [= <- <-].
    eapply happens_before; [exact Hlog|].
    eexists. split; [simpl; rewrite <- !app_assoc; simpl; reflexivity|].
    simpl. tauto.
Qed.

Lemma hoare_happens {X} e w0 (m : M X) :
  respects (emitted anything) m →
  hoare (happens e w0) m (fun _ => happens e w0) (fun _ => True).
Proof.
  intros Hm w o w' Hw Hrun. destruct o; [|done..].
  eapply happens_after; [exact Hw|by eapply Hm].
Qed.

Lemma run_stages_computes_centerlines w0 :
  remove_all args = false →
  files w0 !! file_name_centerlines args = None →
  hoare (steady (file_name_centerlines args) anything w0) (run_stages args)
        (fun _ => happens compute_centerlines_called w0) (fun _ => True).
Proof.
  intros Hkeep Hnone. unfold run_stages, remove_all_files. rewrite Hkeep.
  eapply hoare_bind;
    [apply (hoare_step _ w0); [apply respects_ret, _|done]|intro_result].
  do 4 (eapply hoare_bind;
          [apply (hoare_step _ w0); [block_steady|done]|intro_result]).
  eapply hoare_bind; [by apply get_centerlines_computes|intro_result; cbv beta].
  do 11 (eapply hoare_bind; [apply hoare_happens; block_any|intro_result]).
  apply hoare_happens. block_any.
Qed.

(** X17. A second run on the files a completed run has left, with [remove_all]
    false, reuses the mesh: it performs no call of [generate_mesh],
    [mesh_alternative] or [write_mesh]. The centerlines, whose file the
    first run removed at its end, are computed again by a second run that
    completes. *)
Theorem second_run_reuses_mesh w w1 o w2 :
  remove_all args = false →
  run_pre_processing args w = (Returned tt, w1) →
  run_pre_processing args w1 = (o, w2) →
  ∃ evs, log w2 = log w1 ++ evs ∧
         Forall (fun e => computes VolumetricMesh e = false) evs ∧
         (o = Returned tt → In compute_centerlines_called evs).
Proof.
  intros Hkeep Hfirst Hsecond.
  destruct (run_pre_processing_outputs args w w1 Hfirst)
    as ((Hvtu & _ & _) & Hgone).
  destruct (run_pre_processing_resumes args Hkeep VolumetricMesh _ _ _ Hsecond Hvtu)
    as (evs & Hlog & Hskip).
  exists evs. split; [done|]. split; [done|]. intros ->.
  apply bind_returned in Hsecond as ([] & w3 & Hstages & Hclean).
  assert (Hnone : files w1 !! file_name_centerlines args = None).
  { apply Hgone. apply list_elem_of_here. }
  pose proof (run_stages_computes_centerlines w1 Hkeep Hnone w1 _ w3
                ltac:(reflexivity) Hstages) as Hcalled.
  apply remove_existing_emitted in Hclean.
  destruct (happens_after _ _ _ _ _ Hcalled Hclean) as (evs' & Hlog' & Hin).
  assert (evs = evs') as ->; [|done].
  apply (app_inv_head (log w1)). by rewrite <- Hlog, Hlog'.
Qed.

Lemma hoare_invariant {X} (R : relation world) (P E : world → Prop) (m : M X) :
  respects R m → (∀ w w', P w → R w w' → P w') → (∀ w, P w → E w) →
  hoare P m (fun _ => P) E.
Proof.
  intros Hm HR HE w o w' Hw Hrun.
  pose proof (HR w w' Hw (Hm w o w' Hrun)). destruct o; auto.
Qed.

Lemma vtu_mesh_removed : file_name_vtu_mesh args ∈ files_to_remove_all args.
Proof. unfold files_to_remove_all. written. Qed.

Lemma run_stages_generates_mesh w :
  remove_all args = true ∨ files w !! file_name_vtu_mesh args = None →
  hoare (eq w) (run_stages args)
        (fun _ w' =>
           happens (Event MeshGeneration (Call "generate_mesh")) w w' ∧
           happens (Event MeshGeneration (Write (file_name_vtu_mesh args))) w w')
        (fun _ => True).
Proof.
  intros Hfresh. unfold run_stages.
  set (missing := fun w' => files w' !! file_name_vtu_mesh args = None ∧
                            emitted anything w w').
  eapply (hoare_bind _ _ _ (fun _ => missing)).
  { intros w0 o w0' <- Hrun.
    destruct (remove_all_files_spec args w)
      as (w1 & Hremove & Hlog & Hnone & _ & Hgone & _).
    rewrite Hremove in Hrun. injection Hrun as <- <-. split.
    - destruct Hfresh as [Hall|Hmissing]; [|by apply Hnone].
      apply (Hgone Hall), vtu_mesh_removed.
    - eapply emitted_mono; [|exact Hlog]. done. }
  intros _.
  do 13 (eapply hoare_bind;
          [apply (hoare_invariant (steady (file_name_vtu_mesh args) anything)
                                  missing);
           [block_steady
           |intros w1 w2 [Hnone Hlog] [Hfile Hlog2]; split;
            [by rewrite Hfile|by transitivity w1]
           |done]
          |intro_result; cbv beta]).
  eapply hoare_bind.
  { intros w1 o1 w2 [Hnone Hlog] Hrun. destruct o1 as [result| |]; [|exact I..].
    destruct (cp_compute _ _ _ _ _ _ (compute_mesh_checkpointed args _ _ _)
                         w1 result w2 Hnone Hrun) as (_ & evs & Hlog2 & Hcall & Hwrite).
    instantiate (1 := fun _ w' =>
      happens (Event MeshGeneration (Call "generate_mesh")) w w' ∧
      happens (Event MeshGeneration (Write (file_name_vtu_mesh args))) w w').
    split; (eapply happens_before; [exact Hlog|]); by exists evs. }
  intro_result. cbv beta.
  assert (Hrest : ∀ X (m : M X),
    respects (emitted anything) m →
    hoare (fun w' =>
             happens (Event MeshGeneration (Call "generate_mesh")) w w' ∧
             happens (Event MeshGeneration (Write (file_name_vtu_mesh args))) w w')
          m
          (fun _ w' =>
             happens (Event MeshGeneration (Call "generate_mesh")) w w' ∧
             happens (Event MeshGeneration (Write (file_name_vtu_mesh args))) w w')
          (fun _ => True)).
  { intros X m Hm. apply (hoare_invariant (emitted anything)); [done| |done].
    intros w1 w2 [Hcall Hwrite] Hlog. split; by eapply happens_after. }
  do 2 (eapply hoare_bind; [apply Hrest; block_any|intro_result; cbv beta]).
  apply Hrest. block_any.
Qed.

(** X18. A run that completes has either found the VTU mesh when it came to
    the mesh block or generated it: with [remove_all] set, or without a
    mesh file at the start, it has called [generate_mesh] and written the
    mesh file. *)
Theorem completed_run_generates_mesh w w' :
  remove_all args = true ∨ files w !! file_name_vtu_mesh args = None →
  run_pre_processing args w = (Returned tt, w') →
  ∃ evs, log w' = log w ++ evs ∧
         In (Event MeshGeneration (Call "generate_mesh")) evs ∧
         In (Event MeshGeneration (Write (file_name_vtu_mesh args))) evs.
Proof.
  intros Hfresh Hrun.
  apply bind_returned in Hrun as ([] & w1 & Hstages & Hclean).
  apply remove_existing_emitted in Hclean.
  destruct (run_stages_generates_mesh w Hfresh w _ w1 eq_refl Hstages)
    as [Hcall Hwrite].
  destruct (happens_after _ _ _ _ _ Hcall Hclean) as (evs & Hlog & Hin).
  destruct (happens_after _ _ _ _ _ Hwrite Hclean) as (evs' & Hlog' & Hin').
  exists evs. split; [done|]. split; [done|].
  assert (evs = evs') as ->; [|done].
  apply (app_inv_head (log w)). by rewrite <- Hlog, Hlog'.
Qed.

End Reruns.

(** ** Arguments that are rejected *)

(** A block of [run_stages] adds events of its stage only. *)
Ltac block_emits :=
  first
    [ eapply emitted_of_removals; [apply remove_all_files_emitted|]
    | eapply emitted_of_progress; [block_progress|] ];
  let st := fresh "st" in
  let op := fresh "op" in
  let He := fresh "He" in
  intros [st op] He; simpl in He; subst st; reflexivity.

Section Validation.
Context `{Externals}.
Variable args : arguments.

(** The events of the stages before stage number [n]. *)
Definition earlier (n : nat) (e : event) : bool := stage_index (ev_stage e) <? n.

Lemma earlier_events n w w' :
  emitted (earlier n) w w' →
  ∃ evs, log w' = log w ++ evs ∧
         Forall (fun e => stage_index (ev_stage e) < n) evs.
Proof.
  intros (evs & Hlog & Hall). exists evs. split; [done|].
  eapply Forall_impl; [exact Hall|]. intros e. unfold earlier.
  apply Nat.ltb_lt.
Qed.

Lemma solid_thickness_field_invalid distance_to_sphere w :
  String.eqb (solid_thickness args) "variable" = false →
  (∀ thickness, solid_thickness_parameters args = [thickness] →
                PrimFloat.leb thickness 0 = true) →
  solid_thickness_field args distance_to_sphere w = (Exited (-1), w).
Proof.
  intros Hconstant Hinvalid. unfold solid_thickness_field. rewrite Hconstant.
  destruct (solid_thickness_parameters args) as [|thickness [|]]; try done.
  by rewrite (Hinvalid thickness eq_refl).
Qed.

(** X19. With a solid thickness other than [variable] and thickness
    parameters that are no single value, or a single value [v] for which
    [v <= 0] holds in binary64 (so not a NaN, which fails the comparison
    and passes the check), no run completes, and no run comes to the mesh
    generation: the parameters are checked only after the distance field,
    where the run exits, and every operation of the run belongs to a stage
    before the mesh generation. *)
Theorem invalid_constant_thickness_stops w o w' :
  String.eqb (solid_thickness args) "variable" = false →
  (∀ thickness, solid_thickness_parameters args = [thickness] →
                PrimFloat.leb thickness 0 = true) →
  run_pre_processing args w = (o, w') →
  o ≠ Returned tt ∧
  ∃ evs, log w' = log w ++ evs ∧
         Forall (fun e => stage_index (ev_stage e) < 7) evs.
Proof.
  intros Hconstant Hinvalid Hrun.
  assert (Hstops : hoare (emitted (earlier 7) w) (run_pre_processing args)
                         (fun _ _ => False) (emitted (earlier 7) w)).
  { unfold run_pre_processing.
    eapply hoare_bind; [|intros ?; apply hoare_false].
    unfold run_stages.
    do 13 (eapply hoare_bind;
             [apply (hoare_step (emitted (earlier 7)) w); [block_emits|done]
             |intro_result; cbv beta]).
    eapply hoare_bind; [|intros ?; apply hoare_false].
    intros w1 o1 w2 Hw Hblock.
    rewrite solid_thickness_field_invalid in Hblock by done.
    by injection Hblock as <- <-. }
  pose proof (hoare_run _ _ _ _ _ _ _ Hstops ltac:(reflexivity) Hrun) as Hend.
  destruct o as [[]|status|e]; [done|..];
    (split; [done|by apply earlier_events]).
Qed.

Lemma distance_spheres_invalid surface_extended centerlines rd w :
  meshing_method args = "distancetospheres" →
  length (meshing_parameters args) ≠ 4 →
  files w !! file_name_distance_to_sphere_spheres args = None →
  compute_distance_to_sphere args surface_extended centerlines rd w
  = (Exited (-1), w).
Proof.
  intros Hmethod Hlength Hnone.
  unfold compute_distance_to_sphere, distance_spheres. rewrite Hmethod. simpl.
  rewrite bind_bind, bind_isfile_missing by done. simpl.
  by destruct (Nat.eqb_spec (length (meshing_parameters args)) 4).
Qed.

Lemma spheres_removed :
  file_name_distance_to_sphere_spheres args ∈ files_to_remove_all args.
Proof. unfold files_to_remove_all. written. Qed.

(** X20. With the meshing method [distancetospheres], meshing parameters that
    are not four numbers, and no field left by an earlier run (or
    [remove_all] set), no run completes and no run comes to the distance
    field: the parameters are rejected only after the surface has been
    smoothed and extended, and every operation of the run belongs to the
    stages up to the flow extension. *)
Theorem invalid_distancetospheres_stops w o w' :
  meshing_method args = "distancetospheres" →
  length (meshing_parameters args) ≠ 4 →
  remove_all args = true ∨
  files w !! file_name_distance_to_sphere_spheres args = None →
  run_pre_processing args w = (o, w') →
  o ≠ Returned tt ∧
  ∃ evs, log w' = log w ++ evs ∧
         Forall (fun e => stage_index (ev_stage e) < 6) evs.
Proof.
  intros Hmethod Hlength Hfresh Hrun.
  set (missing := fun w1 =>
         files w1 !! file_name_distance_to_sphere_spheres args = None ∧
         emitted (earlier 6) w w1).
  assert (Hstops : hoare (eq w) (run_pre_processing args)
                         (fun _ _ => False) (emitted (earlier 6) w)).
  { unfold run_pre_processing.
    eapply hoare_bind; [|intros ?; apply hoare_false].
    unfold run_stages.
    eapply (hoare_bind _ _ _ (fun _ => missing)).
    { intros w0 o0 w1 <- Hblock.
      destruct (remove_all_files_spec args w)
        as (w2 & Hremove & Hlog & Hnone & _ & Hgone & _).
      rewrite Hremove in Hblock. injection Hblock as <- <-. split.
      - destruct Hfresh as [Hall|Hmissing]; [|by apply Hnone].
        apply (Hgone Hall), spheres_removed.
      - eapply emitted_mono; [|exact Hlog].
        intros e He. apply removals_stage in He. unfold earlier. by rewrite He. }
    intros _.
    do 11 (eapply hoare_bind;
             [apply (hoare_invariant
                       (steady (file_name_distance_to_sphere_spheres args)
                               (earlier 6)) missing);
              [block_steady
              |intros w1 w2 [Hnone Hlog] [Hfile Hlog2]; split;
               [by rewrite Hfile|by transitivity w1]
              |by intros w1 [_ Hlog]]
             |intro_result; cbv beta]).
    eapply hoare_bind; [|intros ?; apply hoare_false].
    intros w1 o1 w2 [Hnone Hlog] Hblock.
    rewrite distance_spheres_invalid in Hblock by done.
    by injection Hblock as <- <-. }
  pose proof (hoare_run _ _ _ _ _ _ _ Hstops eq_refl Hrun) as Hend.
  destruct o as [[]|status|e]; [done|..];
    (split; [done|by apply earlier_events]).
Qed.

End Validation.

(** ** The surface check *)

Section SurfaceCheck.
Context `{Externals}.
Variable args : arguments.

(** The parameter file records that the surface has been checked. *)
Definition surface_checked (w : world) : Prop :=
  is_Some (stored_parameters args w !! "check_surface").

(** Any event but a call of the cleaning stage that is not
    [get_parameters]. *)
Definition no_cleaning (e : event) : bool :=
  negb (stage_eqb (ev_stage e) Cleaning) ||
  match ev_op e with
  | Call name => String.eqb name "get_parameters"
  | _ => false
  end.

Lemma check_surface_records surface :
  hoare (fun _ => True) (check_surface args surface)
        (fun _ => surface_checked) (fun _ => True).
Proof.
  intros w o w' _. unfold check_surface. rewrite bind_get_parameters.
  destruct (bool_decide _) eqn:Echecked.
  - intros [= <- <-]. by apply bool_decide_eq_true_1 in Echecked.
  - run_steps.
    destruct (find_and_delete_nan_triangles _) as [surface1 found1].
    run_steps.
    destruct (find_and_delete_nan_triangles _) as [surface2 [|]];
      [by intros [= <- <-]|].
    rewrite bind_write_parameters. intros [= <- <-].
    unfold surface_checked, stored_parameters. simpl.
    rewrite lookup_insert_eq. apply lookup_union_is_Some. left.
    by rewrite lookup_insert_eq.
Qed.

Lemma check_surface_skipped surface w :
  surface_checked w →
  check_surface args surface w
  = (Returned (surface, stored_parameters args w),
     logged (Event Cleaning (Call "get_parameters")) w).
Proof.
  intros Hchecked. unfold check_surface. rewrite bind_get_parameters.
  by rewrite bool_decide_eq_true_2.
Qed.

Lemma modifies_checked P w w' :
  modifies args P w w' → surface_checked w → surface_checked w'.
Proof. intros [_ Hkeys]. apply Hkeys. Qed.

Lemma run_stages_checked :
  hoare (fun _ => True) (run_stages args) (fun _ => surface_checked)
        (fun _ => True).
Proof.
  unfold run_stages.
  do 3 (eapply hoare_bind; [apply hoare_any|intro_result; cbv beta]).
  eapply hoare_bind; [apply check_surface_records|intro_result; cbv beta].
  do 13 (eapply hoare_bind;
           [eapply (hoare_invariant _ surface_checked);
            [block_modifies|intros w1 w2 Hc Hm; exact (modifies_checked _ _ _ Hm Hc)
            |done]
           |intro_result; cbv beta]).
  eapply (hoare_invariant _ surface_checked);
    [block_modifies|intros w1 w2 Hc Hm; exact (modifies_checked _ _ _ Hm Hc)|done].
Qed.

Lemma run_pre_processing_checked w w' :
  run_pre_processing args w = (Returned tt, w') → surface_checked w'.
Proof.
  intros Hrun. apply bind_returned in Hrun as ([] & w1 & Hstages & Hclean).
  pose proof (run_stages_checked w _ _ I Hstages) as Hchecked.
  destruct (remove_existing_spec Finish (files_to_remove args) w1)
    as (w2 & Hrun2 & Hother & _).
  unfold remove_unused_files in Hclean. rewrite Hrun2 in Hclean.
  injection Hclean as <-.
  pose proof (output_files_not_removed args) as Hout.
  rewrite Forall_forall in Hout.
  unfold surface_checked, stored_parameters in *. rewrite Hother; [done|].
  apply Hout. unfold output_files.
  do 4 apply list_elem_of_further. apply list_elem_of_here.
Qed.

Lemma run_stages_no_cleaning w :
  remove_all args = false →
  hoare (fun w1 => surface_checked w1 ∧ emitted no_cleaning w w1)
        (run_stages args)
        (fun _ => emitted no_cleaning w) (emitted no_cleaning w).
Proof.
  intros Hkeep. unfold run_stages, remove_all_files. rewrite Hkeep.
  set (checked := fun w1 => surface_checked w1 ∧ emitted no_cleaning w w1).
  eapply (hoare_bind _ _ _ (fun _ => checked)).
  { intros w1 o1 w2 Hw [= <- <-]. exact Hw. }
  intros _.
  assert (Hsetup : ∀ X (names : list string) (m : M X),
    respects (modifies args (.∈ names)) m →
    (∃ calls, respects (progress (allowed Setup calls)) m) →
    hoare checked m (fun _ => checked) (emitted no_cleaning w)).
  { intros X names m Hfiles [calls Hevents] w1 o1 w2 [Hchecked Hlog] Hblock.
    assert (Hnext : checked w2);
      [|destruct o1; [exact Hnext|exact (proj2 Hnext)..]].
    split.
    - eapply modifies_checked; [|exact Hchecked]. by eapply Hfiles.
    - transitivity w1; [done|].
      eapply (emitted_of_progress Setup); [exact Hevents| |exact Hblock].
      by intros [st op] [= ->]. }
  eapply hoare_bind.
  { eapply Hsetup; [apply load_model_modifies|eexists; apply load_model_progress]. }
  intro_result. cbv beta.
  eapply hoare_bind.
  { eapply Hsetup; [apply clip_model_modifies|eexists; apply clip_model_progress]. }
  intro_result. cbv beta.
  eapply (hoare_bind _ _ _ (fun _ => emitted no_cleaning w)).
  { intros w1 o1 w2 [Hchecked Hlog] Hblock.
    rewrite check_surface_skipped in Hblock by done.
    injection Hblock as <- <-.
    transitivity w1; [done|].
    exists [Event Cleaning (Call "get_parameters")]. split; [done|].
    by repeat constructor. }
  intro_result. cbv beta.
  do 13 (eapply hoare_bind;
           [apply (hoare_step (emitted no_cleaning) w); [block_emits|done]
           |intro_result; cbv beta]).
  apply (hoare_step (emitted no_cleaning) w); [block_emits|done].
Qed.

(** X21. The surface is checked once per case: a run that completes has
    recorded the check in the parameter file, and a later run with
    [remove_all] false, whatever its outcome, performs no operation of the
    cleaning stage but the reading of the parameters; the surface is
    neither cleaned nor triangulated nor searched for NaN triangles
    again. *)
Theorem surface_checked_once w w1 o w2 :
  remove_all args = false →
  run_pre_processing args w = (Returned tt, w1) →
  run_pre_processing args w1 = (o, w2) →
  is_Some (stored_parameters args w1 !! "check_surface") ∧
  ∃ evs, log w2 = log w1 ++ evs ∧
         Forall (fun e => ev_stage e = Cleaning →
                          ev_op e = Call "get_parameters") evs.
Proof.
  intros Hkeep Hfirst Hsecond.
  pose proof (run_pre_processing_checked w w1 Hfirst) as Hchecked.
  split; [exact Hchecked|].
  assert (Hstart : emitted no_cleaning w1 w1) by reflexivity.
  assert (Hlog : emitted no_cleaning w1 w2).
  { revert Hsecond. unfold run_pre_processing, bind.
    destruct (run_stages args w1) as [[[]|status|e] w3] eqn:Estages;
      pose proof (run_stages_no_cleaning w1 Hkeep w1 _ w3
                    (conj Hchecked Hstart) Estages) as Hstages;
      [|by intros [= _ <-]..].
    intros Hclean. transitivity w3; [done|].
    eapply (emitted_of_removals Finish);
      [apply remove_existing_emitted| |exact Hclean].
    by intros [st op] [= ->]. }
  destruct Hlog as (evs & Hlog & Hall). exists evs. split; [done|].
  eapply Forall_impl; [exact Hall|]. intros [st op] Hno Hstage.
  simpl in Hstage. subst st. simpl. unfold no_cleaning in Hno. simpl in Hno.
  destruct op as [name| | |]; try done. by apply String.eqb_eq in Hno as ->.
Qed.

End SurfaceCheck.

(** ** The files of the region centerlines *)

Section Digits.
Import Stdlib.Strings.Ascii.

(** The string starts with a character other than an opening brace. *)
Definition no_brace (s : string) : Prop :=
  ∃ c t, s = String c t ∧ c ≠ "{"%char.

Lemma pretty_N_char_no_brace x : pretty_N_char x ≠ "{"%char.
Proof. unfold pretty_N_char. by repeat case_match. Qed.

Lemma pretty_N_go_no_brace x : ∀ s, no_brace s → no_brace (pretty_N_go x s).
Proof.
  induction (N.lt_wf_0 x) as [x _ IH]; intros s Hs.
  destruct (decide (x = 0)%N) as [->|Hpos]; [by rewrite pretty_N_go_0|].
  rewrite pretty_N_go_step by lia. apply IH; [apply N.div_lt; lia|].
  eexists _, _. split; [reflexivity|apply pretty_N_char_no_brace].
Qed.

Lemma pretty_nat_no_brace (i : nat) : no_brace (pretty i).
Proof.
  unfold pretty, pretty_nat, pretty, pretty_N. case_decide as Hzero.
  - by exists "0"%char, "".
  - rewrite pretty_N_go_step by lia. apply pretty_N_go_no_brace.
    eexists _, _. split; [reflexivity|apply pretty_N_char_no_brace].
Qed.

Lemma no_brace_template (s : string) : no_brace s → s +:+ ".vtp" ≠ "{}.vtp".
Proof. intros (c & t & -> & Hc) [= Heq _]. by apply Hc. Qed.

End Digits.

Section RegionFiles.
Context `{Externals}.
Variable args : arguments.

(** The name of a region centerline is not the name on the removal
    lists, where the index has not been filled in. *)
Lemma region_centerline_not_template i :
  file_name_region_centerline args i ≠ file_name_region_centerlines args.
Proof.
  unfold file_name_region_centerline, file_name_region_centerlines.
  intros Heq. apply String.app_inj in Heq.
  apply (String.app_inj "_sac_centerline_" _ "{}.vtp") in Heq.
  by apply (no_brace_template _ (pretty_nat_no_brace i)).
Qed.

Lemma region_centerline_not_removed i :
  (file_name_region_centerline args i ∉ files_to_remove_all args) ∧
  (file_name_region_centerline args i ∉ files_to_remove args).
Proof.
  unfold files_to_remove_all, files_to_remove.
  split; rewrite !not_elem_of_cons; repeat split;
    first [apply not_elem_of_nil|apply region_centerline_not_template
          |different_names].
Qed.

(** A file that is there stays as it is. *)
Definition stable (path : string) (w w' : world) : Prop :=
  ∀ c, files w !! path = Some c → files w' !! path = Some c.

#[export] Instance stable_preorder path : PreOrder (stable path).
Proof.
  split.
  - by intros w c.
  - intros w1 w2 w3 H12 H23 c Hc. by apply H23, H12.
Qed.

Lemma modifies_stable P path w w' :
  modifies args P w w' → ¬ P path → path ≠ file_name_parameters args →
  stable path w w'.
Proof. intros [Hsame _] HP Hne c Hc. by rewrite Hsame. Qed.

Lemma reads_only_stable {X} path (m : M X) :
  reads_only m → respects (stable path) m.
Proof. intros Hm w o w' Hrun c Hc. by rewrite (Hm _ _ _ Hrun). Qed.

(** Writing a file that was found missing. *)
Lemma write_missing_stable {X} path s p target (k : M X) :
  respects (stable path) k →
  ∀ w o w', files w !! target = None →
            bind (write_polydata s p target) (fun _ => k) w = (o, w') →
            stable path w w'.
Proof.
  intros Hk w o w' Hnone. rewrite bind_write_polydata. intros Hrun.
  transitivity (stored target (Polydata p) (logged (Event s (Write target)) w));
    [|by eapply Hk].
  intros c Hc. simpl. destruct (decide (target = path)) as [->|Hne];
    [congruence|by rewrite lookup_insert_ne].
Qed.

Lemma region_lines_stable path centerline_region centerlines tol regions :
  ∀ j refine_region_centerline,
    respects (stable path)
             (region_lines args centerline_region centerlines tol regions j
                           refine_region_centerline).
Proof.
  induction regions as [|i rest IH]; intros j acc; simpl.
  - apply respects_ret, _.
  - intros w o w'. rewrite bind_isfile.
    destruct (bool_decide _) eqn:Efound; cbn [negb].
    + apply respects_bind; [apply _| |intros tmp; apply IH].
      apply reads_only_stable, read_polydata_reads_only.
    + apply bool_decide_eq_false_1 in Efound.
      assert (Hnone : files w !! file_name_region_centerline args i = None).
      { destruct (files w !! _) eqn:E; [|done]. by destruct Efound. }
      rewrite bind_call.
      destruct (find_start_id _ _ _ _ _) as [start_id|];
        [|intros [= _ <-]; by intros c Hc].
      rewrite bind_call. intros Hrun.
      apply (write_missing_stable path _ _ _ _ (IH _ _)) in Hrun; [|done].
      intros c Hc. by apply Hrun.
Qed.

Lemma compute_centerlines_stable path s source target file capped_surface
    resampling :
  respects (stable path)
           (compute_centerlines s source target file capped_surface resampling).
Proof.
  intros w o w'. unfold compute_centerlines. rewrite bind_isfile.
  destruct (bool_decide _) eqn:Efound.
  - apply reads_only_stable, read_polydata_reads_only.
  - apply bool_decide_eq_false_1 in Efound.
    assert (Hnone : files w !! file = None).
    { destruct (files w !! _) eqn:E; [|done]. by destruct Efound. }
    rewrite bind_call. intros Hrun.
    apply (write_missing_stable path _ _ _ _ (respects_ret _ _)) in Hrun;
      [|done].
    intros c Hc. by apply Hrun.
Qed.

Lemma write_parameters_stable path s data :
  path ≠ file_name_parameters args →
  respects (stable path) (write_parameters args s data).
Proof.
  intros Hne w o w' Hrun.
  eapply (modifies_stable (fun _ => False)); [|by intros []|done].
  by eapply write_parameters_modifies.
Qed.

Lemma refine_regions_stable path cd resampling_step :
  path ≠ file_name_parameters args →
  respects (stable path) (refine_regions args cd resampling_step).
Proof.
  intros Hne. unfold refine_regions.
  destruct (refine_region args); [|apply respects_ret, _].
  apply respects_bind; [apply _| |intros stored].
  { apply reads_only_stable, get_parameters_reads_only. }
  destruct (get_regions_to_refine _ _ _) as [regions found].
  apply respects_bind; [apply _| |intros _].
  { apply reads_only_stable, emit_reads_only. }
  apply respects_bind; [apply _| |intros _].
  { by apply write_parameters_stable. }
  apply respects_bind; [apply _| |intros centerline_region].
  { apply compute_centerlines_stable. }
  apply respects_bind; [apply _| |intros info].
  { apply reads_only_stable, get_parameters_reads_only. }
  destruct (info !! _) as [num_anu|]; [|apply respects_raise, _].
  apply respects_bind; [apply _| |intros lines].
  { apply region_lines_stable. }
  apply respects_bind; [apply _| |intros merged].
  { apply reads_only_stable, call_reads_only. }
  apply respects_ret, _.
Qed.

Lemma remove_existing_stable path s files_to_remove :
  path ∉ files_to_remove →
  respects (stable path) (remove_existing s files_to_remove).
Proof.
  intros Hpath w o w' Hrun c Hc.
  destruct (remove_existing_spec s files_to_remove w)
    as (w1 & Hrun1 & Hother & _).
  rewrite Hrun1 in Hrun. injection Hrun as _ <-. by rewrite Hother.
Qed.

Lemma compute_mesh_region_stable i distance_to_sphere
    solid_thickness_parameters parameters :
  respects (stable (file_name_region_centerline args i))
           (compute_mesh args distance_to_sphere solid_thickness_parameters
                         parameters).
Proof.
  eapply respects_weaken; [|apply compute_mesh_modifies].
  intros w w' Hm. apply (modifies_stable _ _ _ _ Hm);
    [|apply region_centerline_not_parameters].
  unfold mesh_files. rewrite !not_elem_of_cons.
  repeat split; try apply not_elem_of_nil; try different_names.
  unfold file_name_region_centerline, file_name_xml_mesh.
  rewrite (append_assoc _ ".xml" ".gz"). different_names.
Qed.

End RegionFiles.

(** A block of [run_stages] leaves the files of the region centerlines
    as they are. *)
Ltac block_stable :=
  first
    [ apply refine_regions_stable; apply region_centerline_not_parameters
    | apply compute_mesh_region_stable
    | eapply respects_weaken;
      [|block_modifies];
      let Hm := fresh "Hm" in
      intros ? ? Hm; apply (modifies_stable _ _ _ _ _ Hm);
      [not_written|apply region_centerline_not_parameters] ].

Section RegionRuns.
Context `{Externals}.
Variable args : arguments.

Lemma run_stages_region_stable i :
  respects (stable (file_name_region_centerline args i)) (run_stages args).
Proof.
  unfold run_stages.
  apply respects_bind; [apply _| |intro_result].
  { unfold remove_all_files. destruct (remove_all args);
      [|apply respects_ret, _].
    apply remove_existing_stable, region_centerline_not_removed. }
  repeat (apply respects_bind; [apply _|block_stable|intro_result]).
  block_stable.
Qed.

(** X22. A region centerline file [<case>_sac_centerline_<i>.vtp] that is there
    when a run starts is there, with the same content, when the run ends,
    whatever the arguments and the outcome: the removal lists name the file
    with the index not filled in, so that neither [remove_all] nor the
    final removal deletes it, and no stage writes a region centerline that
    it has found. *)
Theorem region_centerlines_survive i c w o w' :
  files w !! file_name_region_centerline args i = Some c →
  run_pre_processing args w = (o, w') →
  files w' !! file_name_region_centerline args i = Some c.
Proof.
  intros Hfile Hrun.
  assert (Hstable : respects (stable (file_name_region_centerline args i))
                             (run_pre_processing args)).
  { unfold run_pre_processing. apply respects_bind; [apply _| |intros _].
    - apply run_stages_region_stable.
    - apply remove_existing_stable, region_centerline_not_removed. }
  by apply (Hstable _ _ _ Hrun).
Qed.

End RegionRuns.

(** ** The files of a run *)

Section Frame.
Context `{Externals}.
Variable args : arguments.

(** Every file name a run may write or remove, the region centerlines
    apart. *)
Definition run_files : list string :=
  files_to_remove_all args
  ++ [file_name_edge_length_xdmf args; file_name_xml_mesh args +:+ ".gz"].

(** The file under [path] is as it was. *)
Definition untouched (path : string) (w w' : world) : Prop :=
  files w' !! path = files w !! path.

#[export] Instance untouched_preorder path : PreOrder (untouched path).
Proof.
  split.
  - by intros w.
  - intros w1 w2 w3 H12 H23. unfold untouched in *. by rewrite H23.
Qed.

Lemma parameters_in_run_files : file_name_parameters args ∈ run_files.
Proof. unfold run_files, files_to_remove_all. apply elem_of_app. left. written. Qed.

Lemma untouched_block {X} (names : list string) path (m : M X) :
  respects (modifies args (.∈ names)) m →
  (∀ name, name ∈ names → name ∈ run_files) →
  path ∉ run_files →
  respects (untouched path) m.
Proof.
  intros Hm Hnames Hpath w o w' Hrun. destruct (Hm _ _ _ Hrun) as [Hsame _].
  apply Hsame.
  - intros Hin. by apply Hpath, Hnames.
  - intros ->. apply Hpath, parameters_in_run_files.
Qed.

Lemma refine_regions_untouched path cd resampling_step :
  path ∉ run_files → (∀ i, path ≠ file_name_region_centerline args i) →
  respects (untouched path) (refine_regions args cd resampling_step).
Proof.
  intros Hpath Hregion w o w' Hrun.
  destruct (refine_regions_modifies args _ _ _ _ _ Hrun) as [Hsame _].
  apply Hsame.
  - intros [->|[i ->]]; [|by apply (Hregion i)].
    apply Hpath. unfold run_files, files_to_remove_all. apply elem_of_app.
    left. written.
  - intros ->. apply Hpath, parameters_in_run_files.
Qed.

Lemma remove_existing_untouched path s files_to_remove :
  path ∉ files_to_remove →
  respects (untouched path) (remove_existing s files_to_remove).
Proof.
  intros Hpath w o w' Hrun.
  destruct (remove_existing_spec s files_to_remove w)
    as (w1 & Hrun1 & Hother & _).
  rewrite Hrun1 in Hrun. injection Hrun as _ <-. by apply Hother.
Qed.

Lemma files_to_remove_in_run_files name :
  name ∈ files_to_remove args → name ∈ run_files.
Proof.
  unfold files_to_remove, run_files, files_to_remove_all. intros Hin.
  apply elem_of_app. left.
  repeat (apply elem_of_cons in Hin as [->|Hin]; [written|]).
  by apply elem_of_nil in Hin.
Qed.

End Frame.

(** The files of a block are files of the run. *)
Ltac in_run_files :=
  let name := fresh "name" in
  let Hin := fresh "Hin" in
  intros name Hin; unfold mesh_files in Hin;
  unfold run_files, files_to_remove_all; apply elem_of_app;
  repeat (apply elem_of_cons in Hin as [->|Hin];
          [first [left; written|right; written]|]);
  by apply elem_of_nil in Hin.

(** A block of [run_stages] leaves alone what is no file of the run. *)
Ltac block_untouched :=
  first
    [ apply refine_regions_untouched; assumption
    | eapply untouched_block; [block_modifies| |eassumption]; in_run_files ].

Section FrameRuns.
Context `{Externals}.
Variable args : arguments.

Lemma run_pre_processing_untouched path :
  path ∉ run_files args → (∀ i, path ≠ file_name_region_centerline args i) →
  respects (untouched path) (run_pre_processing args).
Proof.
  intros Hpath Hregion. unfold run_pre_processing.
  apply respects_bind; [apply _| |intros _].
  - unfold run_stages.
    apply respects_bind; [apply _| |intro_result].
    { unfold remove_all_files. destruct (remove_all args);
        [|apply respects_ret, _].
      apply remove_existing_untouched. intros Hin. apply Hpath.
      unfold run_files. apply elem_of_app. by left. }
    repeat (apply respects_bind; [apply _|block_untouched|intro_result]).
    block_untouched.
  - apply remove_existing_untouched. intros Hin.
    by apply Hpath, files_to_remove_in_run_files.
Qed.

Lemma prefix_append (s t : string) : String.prefix s (s +:+ t) = true.
Proof.
  induction s as [|a s IH]; simpl; [by destruct t|].
  by destruct (Ascii.ascii_dec a a).
Qed.

Lemma prefix_base (name suffix : string) :
  name = base_path args +:+ suffix → String.prefix (base_path args) name = true.
Proof. intros ->. apply prefix_append. Qed.

Lemma outside_base_path path :
  String.prefix (base_path args) path = false →
  (path ∉ run_files args) ∧ (∀ i, path ≠ file_name_region_centerline args i).
Proof.
  intros Hpath. split.
  - intros Hin. unfold run_files, files_to_remove_all in Hin.
    apply elem_of_app in Hin as [Hin|Hin].
    all: repeat (apply elem_of_cons in Hin as [->|Hin];
                 [match type of Hpath with
                  | String.prefix _ ?name = false =>
                      first
                        [ by rewrite (prefix_base name _ eq_refl) in Hpath
                        | by rewrite (prefix_base
                                        name _ (append_assoc _ ".xml" ".gz"))
                            in Hpath ]
                  end|]).
    all: by apply elem_of_nil in Hin.
  - intros i ->.
    by rewrite (prefix_base (file_name_region_centerline args i) _ eq_refl)
      in Hpath.
Qed.

(** X23. A run touches only files whose names begin with the base path: a path
    that does not begin with it holds after the run, whatever the outcome,
    what it held before; a file that was missing there is still missing. *)
Theorem run_touches_only_its_files path w o w' :
  String.prefix (base_path args) path = false →
  run_pre_processing args w = (o, w') →
  files w' !! path = files w !! path.
Proof.
  intros [Hpath Hregion]%outside_base_path Hrun.
  exact (run_pre_processing_untouched path Hpath Hregion _ _ _ Hrun).
Qed.

(** X24. The input model is safe when its name is the base path followed by a
    dot and an extension that is none of the mesh formats: no run deletes
    or rewrites it, [remove_all] or not. *)
Theorem input_model_untouched ext w o w' :
  input_model args = base_path args +:+ "." +:+ ext →
  ext ∉ ["xml"; "vtu"; "h5"; "xdmf"; "xml.gz"] →
  run_pre_processing args w = (o, w') →
  files w' !! input_model args = files w !! input_model args.
Proof.
  intros Hinput Hext Hrun.
  refine (run_pre_processing_untouched _ _ _ _ _ _ Hrun).
  - rewrite Hinput. unfold run_files, files_to_remove_all.
    rewrite !not_elem_of_app, !not_elem_of_cons.
    repeat split; try apply not_elem_of_nil; try different_names.
    all: intros Heq; unfold file_name_xml_mesh in Heq;
      try rewrite (append_assoc _ ".xml" ".gz") in Heq;
      apply String.app_inj in Heq; injection Heq as Heq;
      match type of Heq with _ = ?name => change (ext = name) in Heq end;
      apply Hext; rewrite Heq; written.
  - intros i. rewrite Hinput. unfold file_name_region_centerline.
    different_names.
Qed.

End FrameRuns.

(** ** What a run with [remove_all] reads *)

Create HintDb blocks.

#[export] Hint Unfold
  load_model clip_model uncap_surface check_surface get_centerlines
  compute_centerlines refine_regions smooth_surface smooth_voronoi
  smooth_laplace_taubin extend_surface add_extensions flow_centerlines
  extended_centerlines clip_centerline compute_distance_to_sphere
  distance_constant distance_curvature distance_diameter distance_spheres
  solid_thickness_field variable_thickness compute_mesh store_mesh write_mesh
  generate_mesh_with_fallback convert_mesh set_boundary_ids
  visualize_and_simulate : blocks.

Section Fresh.
Context `{Externals}.
Variable args : arguments.

(** Any event but the reading of the file [f]. *)
Definition unread (f : string) (e : event) : bool :=
  match ev_op e with
  | Read path => negb (String.eqb path f)
  | _ => true
  end.

Lemma unread_read f s path : path ≠ f → unread f (Event s (Read path)) = true.
Proof.
  intros Hne. unfold unread. cbn [ev_op].
  by apply negb_true_iff, String.eqb_neq.
Qed.

Lemma unread_not_read f evs :
  Forall (fun e => unread f e = true) evs → ∀ s, ¬ In (Event s (Read f)) evs.
Proof.
  intros Hall s Hin. rewrite List.Forall_forall in Hall.
  specialize (Hall _ Hin). unfold unread in Hall. cbn [ev_op] in Hall.
  by rewrite String.eqb_refl in Hall.
Qed.

(** The file [f] is missing and has not been read since [w0]. *)
Definition fresh (f : string) (w0 w : world) : Prop :=
  files w !! f = None ∧ emitted (unread f) w0 w.

Lemma hoare_fresh_isfile {X} f w0 (k : bool → M X) Q E :
  hoare (fresh f w0) (k false) Q E → hoare (fresh f w0) (bind (isfile f) k) Q E.
Proof.
  intros Hk w o w' Hw. rewrite bind_isfile_missing by apply Hw. by apply Hk.
Qed.

Lemma hoare_bind_assoc {X Y Z} P (m : M X) (k : X → M Y) (k' : Y → M Z) Q E :
  hoare P (bind m (fun a => bind (k a) k')) Q E →
  hoare P (bind (bind m k) k') Q E.
Proof. intros Hm w o w' Hw. rewrite bind_bind. by apply Hm. Qed.

Lemma steady_of {X} (P : string → Prop) f A (m : M X) :
  respects (modifies args P) m → respects (progress A) m →
  ¬ P f → f ≠ file_name_parameters args →
  respects (steady f A) m.
Proof.
  intros Hfiles Hevents HP Hne w o w' Hrun. split.
  - destruct (Hfiles _ _ _ Hrun) as [Hsame _]. by apply Hsame.
  - by destruct (Hevents _ _ _ Hrun) as [_ He].
Qed.

Lemma hoare_fresh_steady {X} f w0 (m : M X) :
  respects (steady f (unread f)) m →
  hoare (fresh f w0) m (fun _ => fresh f w0) (emitted (unread f) w0).
Proof.
  intros Hm w o w' [Hnone Hlog] Hrun. destruct (Hm _ _ _ Hrun) as [Hfile Hlog2].
  assert (Hnext : fresh f w0 w').
  { split; [by rewrite Hfile|by transitivity w]. }
  destruct o; [exact Hnext|exact (proj2 Hnext)..].
Qed.

Lemma hoare_fresh_static {X} f w0 (m : M X) :
  respects (progress (unread f)) m →
  hoare (fresh f w0) m (fun _ => emitted (unread f) w0) (emitted (unread f) w0).
Proof.
  intros Hm w o w' [_ Hlog] Hrun. destruct (Hm _ _ _ Hrun) as [_ Hlog2].
  assert (emitted (unread f) w0 w') by (by transitivity w). by destruct o.
Qed.

Lemma hoare_unread_static {X} f w0 (m : M X) :
  respects (progress (unread f)) m →
  hoare (emitted (unread f) w0) m (fun _ => emitted (unread f) w0)
        (emitted (unread f) w0).
Proof.
  intros Hm w o w' Hlog Hrun. destruct (Hm _ _ _ Hrun) as [_ Hlog2].
  assert (emitted (unread f) w0 w') by (by transitivity w). by destruct o.
Qed.

Lemma generate_mesh_attempts_events A attempts d p :
  A (Event MeshGeneration (Call "generate_mesh")) = true →
  respects (progress A) (generate_mesh_attempts args attempts d p).
Proof.
  intros HA. induction attempts as [|attempts IH]; simpl.
  - apply progress_ret.
  - apply progress_bind; [by apply try_generate_mesh_progress|].
    intros [ms|]; [apply progress_ret|apply IH].
Qed.

Lemma region_lines_unread f centerline_region centerlines tol regions :
  (∀ i, file_name_region_centerline args i ≠ f) →
  ∀ j refine_region_centerline,
    respects (progress (unread f))
             (region_lines args centerline_region centerlines tol regions j
                           refine_region_centerline).
Proof.
  intros Hregion. induction regions as [|i rest IH]; intros j acc; simpl.
  - apply progress_ret.
  - apply progress_bind; [apply isfile_progress|]. intros [|]; simpl.
    + apply progress_bind; [|intros tmp; apply IH].
      apply read_polydata_progress, unread_read, Hregion.
    + apply progress_bind; [by apply call_progress|]. intros line.
      destruct (find_start_id _ _ _ _ _) as [start_id|]; [|apply progress_raise].
      apply progress_bind; [by apply call_progress|]. intros tmp.
      apply progress_bind; [by apply write_polydata_progress|]. intros _. apply IH.
Qed.

(** The removal at the start leaves a file of its list fresh. *)
Lemma remove_all_files_fresh f w :
  remove_all args = true → f ∈ files_to_remove_all args →
  hoare (eq w) (remove_all_files args) (fun _ => fresh f w)
        (emitted (unread f) w).
Proof.
  intros Hall Hin w0 o w' <- Hrun.
  destruct (remove_all_files_spec args w)
    as (w1 & Hremove & Hlog & _ & _ & Hgone & _).
  rewrite Hremove in Hrun. injection Hrun as <- <-. split.
  - by apply (Hgone Hall).
  - eapply emitted_mono; [|exact Hlog].
    intros [st op]. unfold removals. simpl. intros [_ Hop]%andb_true_iff.
    by destruct op.
Qed.

End Fresh.

(** An event is not the reading of the file. *)
Ltac unread_side :=
  first [ reflexivity
        | apply unread_read; first [ different_names | eassumption ] ].

(** The events of a program in which the file is not read. *)
Ltac unread_step :=
  lazymatch goal with
  | |- respects _ (bind _ _) => apply progress_bind; [|intros]
  | |- respects _ (ret _) => apply progress_ret
  | |- respects _ (sys_exit _) => apply progress_sys_exit
  | |- respects _ (raise _) => apply progress_raise
  | |- respects _ (emit _ _) => apply emit_progress; unread_side
  | |- respects _ (call _ _ _) => apply call_progress; unread_side
  | |- respects _ (isfile _) => apply isfile_progress
  | |- respects _ (read_polydata _ _) => apply read_polydata_progress; unread_side
  | |- respects _ (write_polydata _ _ _) =>
      apply write_polydata_progress; unread_side
  | |- respects _ (write_binary _ _) => apply write_binary_progress; unread_side
  | |- respects _ (get_parameters _ _) =>
      apply get_parameters_progress; unread_side
  | |- respects _ (write_parameters _ _ _) =>
      apply write_parameters_progress; unread_side
  | |- respects _ (centers_for_meshing _ _ _ _) =>
      apply centers_for_meshing_progress; unread_side
  | |- respects _ (distance_field _ _ _) =>
      apply distance_field_progress; unread_side
  | |- respects _ (try_generate_mesh _ _ _) =>
      apply try_generate_mesh_progress; unread_side
  | |- respects _ (generate_mesh_attempts _ _ _ _) =>
      apply generate_mesh_attempts_events; unread_side
  | |- respects _ (region_lines _ _ _ _ _ _ _) =>
      apply region_lines_unread; intros; different_names
  | |- respects _ (assert _) => apply assert_progress
  | |- respects _ (bound _) => apply bound_progress
  | |- respects _ (if ?b then _ else _) => destruct b
  | |- respects _ (match ?x with _ => _ end) => destruct x
  | |- respects _ (let '(_, _) := ?x in _) => destruct x
  end.

Ltac unread_auto := repeat unread_step.

(** A program that neither writes nor reads the file. *)
Ltac steady_prefix args :=
  lazymatch goal with
  | |- respects (steady ?f _) _ =>
      eapply (steady_of args (fun path => path ≠ f));
      [ solve [modifies_auto]
      | solve [unread_auto]
      | let Hc := fresh "Hc" in intros Hc; by apply Hc
      | different_names ]
  end.

(** Through the block that computes the file, up to the test that finds
    it missing. *)
Ltac fresh_go args :=
  lazymatch goal with
  | |- hoare (fresh _ _) (bind (bind _ _) _) _ _ =>
      apply hoare_bind_assoc; fresh_go args
  | |- hoare (fresh _ _) (bind (if ?b then _ else _) _) _ _ =>
      destruct b; fresh_go args
  | |- hoare (fresh _ _) (bind (isfile _) _) _ _ =>
      first
        [ apply hoare_fresh_isfile; cbn [negb]; fresh_go args
        | eapply hoare_bind;
          [ apply hoare_fresh_steady; steady_prefix args
          | intros [|]; cbv beta; cbn [negb]; fresh_go args ] ]
  | |- hoare (fresh _ _) (bind _ _) _ _ =>
      first
        [ eapply hoare_bind;
          [ apply hoare_fresh_steady; steady_prefix args
          | intro_result; cbv beta; fresh_go args ]
        | apply hoare_fresh_static; solve [unread_auto] ]
  | |- hoare (fresh _ _) (if ?b then _ else _) _ _ => destruct b; fresh_go args
  | |- hoare (fresh _ _) (match ?x with _ => _ end) _ _ =>
      destruct x; fresh_go args
  | |- hoare (fresh _ _) (let '(_, _) := ?x in _) _ _ =>
      destruct x; fresh_go args
  | |- hoare (fresh _ _) _ _ _ => apply hoare_fresh_static; solve [unread_auto]
  end.

(** A block of [run_stages]: before the file is computed, where it is
    computed, and after. *)
Ltac fresh_block args :=
  first
    [ apply hoare_fresh_steady;
      lazymatch goal with
      | |- respects (steady ?f _) _ =>
          eapply (steady_of args);
          [ block_modifies
          | repeat autounfold with blocks; solve [unread_auto]
          | not_written
          | different_names ]
      end
    | repeat autounfold with blocks; fresh_go args
    | apply hoare_unread_static; repeat autounfold with blocks;
      solve [unread_auto] ].

Section FreshRuns.
Context `{Externals}.
Variable args : arguments.

(** The files the stages of the geometry read back when they find them.
    The VTU mesh is not among them: the converters of the mesh block are
    handed its name. *)
Definition geometry_checkpoints : list string :=
  [file_name_clipped_model args; file_name_centerlines args;
   file_name_refine_region_centerlines args;
   file_name_voronoi args; file_name_voronoi_smooth args;
   file_name_surface_smooth args; file_name_model_flow_ext args;
   file_name_flow_centerlines args;
   file_name_distance_to_sphere_const args;
   file_name_distance_to_sphere_curv args;
   file_name_distance_to_sphere_diam args;
   file_name_distance_to_sphere_spheres args;
   file_name_distance_to_sphere_solid_thickness args].

Lemma run_stages_unread f w :
  remove_all args = true → f ∈ geometry_checkpoints → input_model args ≠ f →
  hoare (eq w) (run_stages args) (fun _ => emitted (unread f) w)
        (emitted (unread f) w).
Proof.
  intros Hall Hin. unfold geometry_checkpoints in Hin.
  repeat (apply elem_of_cons in Hin as [->|Hin]);
    [..|by apply elem_of_nil in Hin].
  all: intros Hinput; unfold run_stages.
  all: eapply hoare_bind;
    [apply (remove_all_files_fresh args _ w Hall);
     unfold files_to_remove_all; written|intro_result; cbv beta].
  all: repeat (eapply hoare_bind; [fresh_block args|intro_result; cbv beta]).
  all: fresh_block args.
Qed.

(** X25. With [remove_all] no stage of the geometry resumes from a file of an
    earlier run: the events a run adds to the log hold no reading of any of
    the thirteen checkpoint files from the clipped model to the field of
    the variable thickness, whatever the files held before and whatever the
    outcome, as long as the input model is not that file itself. *)
Theorem remove_all_reads_no_geometry_checkpoint f w o w' :
  remove_all args = true → f ∈ geometry_checkpoints → input_model args ≠ f →
  run_pre_processing args w = (o, w') →
  ∃ evs, log w' = log w ++ evs ∧ ∀ s, ¬ In (Event s (Read f)) evs.
Proof.
  intros Hall Hin Hinput Hrun.
  assert (Hlog : emitted (unread f) w w').
  { assert (Hwhole : hoare (eq w) (run_pre_processing args)
                           (fun _ => emitted (unread f) w)
                           (emitted (unread f) w)).
    { unfold run_pre_processing.
      eapply hoare_bind; [by apply run_stages_unread|intro_result; cbv beta].
      intros w1 o1 w2 Hfirst Hremove.
      assert (emitted (unread f) w w2).
      { transitivity w1; [exact Hfirst|].
        eapply emitted_mono;
          [|exact (remove_existing_emitted _ _ _ _ _ Hremove)].
        intros [st op]. unfold removals. simpl. intros [_ Hop]%andb_true_iff.
        by destruct op. }
      by destruct o1. }
    pose proof (Hwhole w o w' eq_refl Hrun) as Hend. by destruct o. }
  destruct Hlog as (evs & Hevs & Hunread).
  exists evs. split; [exact Hevs|]. by apply unread_not_read.
Qed.

End FreshRuns.

(** ** The properties on the small instance *)

(** The toy libraries with another mesh generator. *)
Definition sample_externals_with
    (mesher : nat → nat → outcome (nat * nat)) : Externals := {|
  polydata := nat;
  network := unit;
  base_path_of := @base_path_of sample_externals;
  scale_surface := @scale_surface sample_externals;
  check_if_closed_surface := @check_if_closed_surface sample_externals;
  get_uncapped_surface := @get_uncapped_surface sample_externals;
  vtk_clean_polydata := @vtk_clean_polydata sample_externals;
  vtk_triangulate_surface := @vtk_triangulate_surface sample_externals;
  find_and_delete_nan_triangles := @find_and_delete_nan_triangles sample_externals;
  clean_surface := @clean_surface sample_externals;
  vmtk_cap_polydata := @vmtk_cap_polydata sample_externals;
  get_centers_for_meshing := @get_centers_for_meshing sample_externals;
  get_furtest_surface_point := @get_furtest_surface_point sample_externals;
  vmtk_compute_centerlines := @vmtk_compute_centerlines sample_externals;
  get_centerline_tolerance := @get_centerline_tolerance sample_externals;
  get_regions_to_refine := @get_regions_to_refine sample_externals;
  extract_single_line := @extract_single_line sample_externals;
  GetNumberOfPoints := @GetNumberOfPoints sample_externals;
  GetNumberOfLines := @GetNumberOfLines sample_externals;
  distance_to_closest_point := @distance_to_closest_point sample_externals;
  vtk_merge_polydata := @vtk_merge_polydata sample_externals;
  region_point := @region_point sample_externals;
  max_radius := @max_radius sample_externals;
  vmtk_compute_voronoi_diagram := @vmtk_compute_voronoi_diagram sample_externals;
  smooth_voronoi_diagram := @smooth_voronoi_diagram sample_externals;
  create_new_surface := @create_new_surface sample_externals;
  prepare_output_surface := @prepare_output_surface sample_externals;
  compute_centers := @compute_centers sample_externals;
  vmtk_smooth_surface := @vmtk_smooth_surface sample_externals;
  add_flow_extension := @add_flow_extension sample_externals;
  vmtk_compute_geometric_features := @vmtk_compute_geometric_features sample_externals;
  frenet_tangent_id := @frenet_tangent_id sample_externals;
  dist_sphere_constant := @dist_sphere_constant sample_externals;
  dist_sphere_curvature := @dist_sphere_curvature sample_externals;
  dist_sphere_diam := @dist_sphere_diam sample_externals;
  dist_sphere_spheres := @dist_sphere_spheres sample_externals;
  distance_to_spheres_solid_thickness := @distance_to_spheres_solid_thickness sample_externals;
  generate_mesh := fun k field _ _ _ _ => mesher k field;
  mesh_alternative := @mesh_alternative sample_externals;
  setup_model_network := @setup_model_network sample_externals;
  compute_flow_rate := @compute_flow_rate sample_externals;
  find_boundaries := @find_boundaries sample_externals
|}.

(** The sample arguments with another meshing method and other parameters. *)
Definition sample_arguments_with (method : string)
    (parameters thickness : list float) : arguments := {|
  input_model := input_model sample_arguments;
  smoothing_method := smoothing_method sample_arguments;
  smoothing_factor := smoothing_factor sample_arguments;
  smoothing_iterations := smoothing_iterations sample_arguments;
  meshing_method := method;
  refine_region := refine_region sample_arguments;
  has_multiple_inlets := has_multiple_inlets sample_arguments;
  add_flow_extensions := add_flow_extensions sample_arguments;
  visualize := visualize sample_arguments;
  config_path := config_path sample_arguments;
  coarsening_factor := coarsening_factor sample_arguments;
  inlet_flow_extension_length := inlet_flow_extension_length sample_arguments;
  outlet_flow_extension_length := outlet_flow_extension_length sample_arguments;
  number_of_sublayers_fluid := number_of_sublayers_fluid sample_arguments;
  number_of_sublayers_solid := number_of_sublayers_solid sample_arguments;
  edge_length := edge_length sample_arguments;
  region_points := region_points sample_arguments;
  compress_mesh := compress_mesh sample_arguments;
  scale_factor := scale_factor sample_arguments;
  scale_factor_h5 := scale_factor_h5 sample_arguments;
  resampling_step := resampling_step sample_arguments;
  meshing_parameters := parameters;
  remove_all := remove_all sample_arguments;
  solid_thickness := solid_thickness sample_arguments;
  solid_thickness_parameters := thickness;
  mesh_format := mesh_format sample_arguments;
  flow_rate_factor := flow_rate_factor sample_arguments;
  solid_side_wall_id := solid_side_wall_id sample_arguments;
  interface_fsi_id := interface_fsi_id sample_arguments;
  solid_outer_wall_id := solid_outer_wall_id sample_arguments;
  fluid_volume_id := fluid_volume_id sample_arguments;
  solid_volume_id := solid_volume_id sample_arguments;
  mesh_generation_retries := mesh_generation_retries sample_arguments;
  no_solid := no_solid sample_arguments
|}.

(** The sample arguments with [remove_all]. *)
Definition sample_arguments_removing : arguments := {|
  input_model := input_model sample_arguments;
  smoothing_method := smoothing_method sample_arguments;
  smoothing_factor := smoothing_factor sample_arguments;
  smoothing_iterations := smoothing_iterations sample_arguments;
  meshing_method := meshing_method sample_arguments;
  refine_region := refine_region sample_arguments;
  has_multiple_inlets := has_multiple_inlets sample_arguments;
  add_flow_extensions := add_flow_extensions sample_arguments;
  visualize := visualize sample_arguments;
  config_path := config_path sample_arguments;
  coarsening_factor := coarsening_factor sample_arguments;
  inlet_flow_extension_length := inlet_flow_extension_length sample_arguments;
  outlet_flow_extension_length := outlet_flow_extension_length sample_arguments;
  number_of_sublayers_fluid := number_of_sublayers_fluid sample_arguments;
  number_of_sublayers_solid := number_of_sublayers_solid sample_arguments;
  edge_length := edge_length sample_arguments;
  region_points := region_points sample_arguments;
  compress_mesh := compress_mesh sample_arguments;
  scale_factor := scale_factor sample_arguments;
  scale_factor_h5 := scale_factor_h5 sample_arguments;
  resampling_step := resampling_step sample_arguments;
  meshing_parameters := meshing_parameters sample_arguments;
  remove_all := true;
  solid_thickness := solid_thickness sample_arguments;
  solid_thickness_parameters := solid_thickness_parameters sample_arguments;
  mesh_format := mesh_format sample_arguments;
  flow_rate_factor := flow_rate_factor sample_arguments;
  solid_side_wall_id := solid_side_wall_id sample_arguments;
  interface_fsi_id := interface_fsi_id sample_arguments;
  solid_outer_wall_id := solid_outer_wall_id sample_arguments;
  fluid_volume_id := fluid_volume_id sample_arguments;
  solid_volume_id := solid_volume_id sample_arguments;
  mesh_generation_retries := mesh_generation_retries sample_arguments;
  no_solid := no_solid sample_arguments
|}.

(** A mesh generator whose first call fails with a [RuntimeError] and
    whose second call raises a [KeyError]. *)
Definition key_error_mesher (k field : nat) : outcome (nat * nat) :=
  if k <? 1 then Raised RuntimeError else Raised KeyError.

(** No file at all. *)
Definition empty_world (libraries : Externals) : @world libraries :=
  {| files := ∅; log := []; mesh_attempts := 0 |}.

Definition sample_centerline_data : @centerline_data sample_externals :=
  @Build_centerline_data sample_externals 7 [] [] true [] [] 7 0.5%float.

Definition sample_region_data : @region_data sample_externals :=
  @Build_region_data sample_externals None [] [].

(** The smoothed surface of the toy libraries has no outlet, the
    centerlines have one line: the Voronoi smoothing fails. *)
Definition sample_voronoi_failure : outcome nat * @world sample_externals :=
  @smooth_voronoi sample_externals sample_arguments 7 sample_centerline_data
                  sample_region_data sample_world.

Definition sample_second_run : outcome unit * @world sample_externals :=
  @run_pre_processing sample_externals sample_arguments sample_run.2.

(** The input model beside the centerlines of an earlier run. *)
Definition sample_world_with_centerlines : @world sample_externals :=
  {| files := <[ "case_centerlines.vtp" := @Polydata sample_externals 3 ]>
                (files sample_world);
     log := []; mesh_attempts := 0 |}.

Definition sample_removing_run : outcome unit * @world sample_externals :=
  @run_pre_processing sample_externals sample_arguments_removing
                      sample_world_with_centerlines.

(** A constant thickness of zero. *)
Definition sample_invalid_thickness_run : outcome unit * @world sample_externals :=
  @run_pre_processing sample_externals
    (sample_arguments_with "constant" [] [0%float]) sample_world.

(** The method [distancetospheres] without its four parameters. *)
Definition sample_invalid_spheres_run : outcome unit * @world sample_externals :=
  @run_pre_processing sample_externals
    (sample_arguments_with "distancetospheres" [] [0.25%float]) sample_world.

(** The input model and the centerline of region 0 of an earlier run. *)
Definition sample_world_with_region : @world sample_externals :=
  {| files := <[ "case_sac_centerline_0.vtp" := @Polydata sample_externals 3 ]>
                {[ "case.vtp" := @Polydata sample_externals 7 ]};
     log := []; mesh_attempts := 0 |}.

Definition sample_region_run : outcome unit * @world sample_externals :=
  @run_pre_processing sample_externals sample_arguments sample_world_with_region.

Lemma generate_mesh_other_exception_escapes_witness :
  @compute_mesh (sample_externals_with key_error_mesher) sample_arguments
                (Some 5) [] ∅ (empty_world _)
  = (Raised KeyError, after_attempts 2 (empty_world _)).
Proof.
  pose proof (generate_mesh_other_exception_escapes
                (H := sample_externals_with key_error_mesher) sample_arguments
                5 [] ∅ (empty_world _) KeyError eq_refl ltac:(discriminate))
    as Hescapes.
  cbv zeta in Hescapes. destruct Hescapes as [Hloop _].
  destruct (Hloop 1) as [Hrun _]; [vm_compute; lia| |reflexivity|exact Hrun].
  intros i Hi. assert (i = 0) as -> by lia. reflexivity.
Defined.

Lemma compute_mesh_generated_or_resumed_witness :
  @files sample_externals
         (logged (Event MeshGeneration
                        (Read (@file_name_vtu_mesh sample_externals sample_arguments)))
                 sample_world_with_mesh)
  = files sample_world_with_mesh ∧
  "case.xml" = @file_name_xml_mesh sample_externals sample_arguments.
Proof.
  apply (compute_mesh_generated_or_resumed
           (H := sample_externals) sample_arguments None [] ∅
           sample_world_with_mesh 1).
  by vm_compute.
Defined.

Lemma find_start_id_found_witness :
  ∃ r, @find_start_id sample_externals 3 3 0.5%float 4 None = Some (Z.of_nat r) ∧
       1 ≤ r ≤ 4 ∧
       (∀ i, r < i ≤ 4 →
             PrimFloat.leb (@distance_to_closest_point sample_externals 3 3
                                                       (Z.of_nat i))
                           0.5%float = false) ∧
       (PrimFloat.leb (@distance_to_closest_point sample_externals 3 3 (Z.of_nat r))
                      0.5%float = true ∨ r = 1).
Proof. apply (find_start_id_found (H := sample_externals)). lia. Defined.

(** A region line of one point in the first region. *)
Lemma region_lines_short_line_witness :
  @region_lines sample_externals sample_arguments 1 7 0.5%float [0] None []
                sample_world
  = (Raised NameError,
     logged (Event CenterlineExtraction (Call "extract_single_line")) sample_world).
Proof.
  apply (region_lines_short_line (H := sample_externals) sample_arguments
           1 7 0.5%float 0 [] None [] sample_world).
  - reflexivity.
  - simpl. lia.
Defined.

Lemma smooth_voronoi_failure_stores_input_witness :
  (-1)%Z = (-1)%Z ∧
  files sample_voronoi_failure.2 !! @file_name_surface_smooth sample_externals sample_arguments
  = Some (@Polydata sample_externals 7) ∧
  (∀ surface2 cd2 rd2,
     @smooth_voronoi sample_externals sample_arguments surface2 cd2 rd2
                     sample_voronoi_failure.2
     = (Returned 7,
        logged (Event Smoothing
                      (Read (@file_name_surface_smooth sample_externals
                                                       sample_arguments)))
               sample_voronoi_failure.2)) ∧
  (∀ surface2,
     @smooth_laplace_taubin sample_externals sample_arguments surface2
                            sample_voronoi_failure.2
     = (Returned 7,
        logged (Event Smoothing
                      (Read (@file_name_surface_smooth sample_externals
                                                       sample_arguments)))
               sample_voronoi_failure.2)).
Proof.
  apply (smooth_voronoi_failure_stores_input
           (H := sample_externals) sample_arguments 7 sample_centerline_data
           sample_region_data sample_world).
  - reflexivity.
  - by vm_compute.
Defined.

Lemma completed_run_files_witness :
  Forall (fun path => is_Some (files sample_run.2 !! path))
         [@file_name_vtu_mesh sample_externals sample_arguments;
          @file_name_parameters sample_externals sample_arguments;
          @file_name_probe_points sample_externals sample_arguments] ∧
  Forall (fun path => files sample_run.2 !! path = None)
         (@files_to_remove sample_externals sample_arguments).
Proof.
  apply (completed_run_files (H := sample_externals) sample_arguments sample_world).
  by vm_compute.
Defined.

Lemma second_run_reuses_mesh_witness :
  ∃ evs, log sample_second_run.2 = log sample_run.2 ++ evs ∧
         Forall (fun e => computes VolumetricMesh e = false) evs ∧
         (sample_second_run.1 = Returned tt →
          In (@compute_centerlines_called) evs).
Proof.
  apply (second_run_reuses_mesh
           (H := sample_externals) sample_arguments sample_world).
  - reflexivity.
  - by vm_compute.
  - apply surjective_pairing.
Defined.

Lemma completed_run_generates_mesh_witness :
  ∃ evs, log sample_run.2 = log sample_world ++ evs ∧
         In (Event MeshGeneration (Call "generate_mesh")) evs ∧
         In (Event MeshGeneration
                   (Write (@file_name_vtu_mesh sample_externals sample_arguments)))
            evs.
Proof.
  apply (completed_run_generates_mesh
           (H := sample_externals) sample_arguments sample_world).
  - right. reflexivity.
  - by vm_compute.
Defined.

Lemma invalid_constant_thickness_stops_witness :
  sample_invalid_thickness_run.1 ≠ Returned tt ∧
  ∃ evs, log sample_invalid_thickness_run.2 = log sample_world ++ evs ∧
         Forall (fun e => stage_index (ev_stage e) < 7) evs.
Proof.
  apply (invalid_constant_thickness_stops
           (H := sample_externals) (sample_arguments_with "constant" [] [0%float])
           sample_world sample_invalid_thickness_run.1
           sample_invalid_thickness_run.2).
  - reflexivity.
  - intros thickness [= <-]. reflexivity.
  - apply surjective_pairing.
Defined.

Lemma invalid_distancetospheres_stops_witness :
  sample_invalid_spheres_run.1 ≠ Returned tt ∧
  ∃ evs, log sample_invalid_spheres_run.2 = log sample_world ++ evs ∧
         Forall (fun e => stage_index (ev_stage e) < 6) evs.
Proof.
  apply (invalid_distancetospheres_stops
           (H := sample_externals)
           (sample_arguments_with "distancetospheres" [] [0.25%float])
           sample_world sample_invalid_spheres_run.1 sample_invalid_spheres_run.2).
  - reflexivity.
  - simpl. lia.
  - right. reflexivity.
  - apply surjective_pairing.
Defined.

Lemma surface_checked_once_witness :
  is_Some (@stored_parameters sample_externals sample_arguments sample_run.2
             !! "check_surface") ∧
  ∃ evs, log sample_second_run.2 = log sample_run.2 ++ evs ∧
         Forall (fun e => ev_stage e = Cleaning →
                          ev_op e = Call "get_parameters") evs.
Proof.
  apply (surface_checked_once
           (H := sample_externals) sample_arguments sample_world sample_run.2
           sample_second_run.1 sample_second_run.2).
  - reflexivity.
  - by vm_compute.
  - apply surjective_pairing.
Defined.

Lemma region_centerlines_survive_witness :
  files sample_region_run.2 !! @file_name_region_centerline sample_externals sample_arguments 0
  = Some (@Polydata sample_externals 3).
Proof.
  apply (region_centerlines_survive
           (H := sample_externals) sample_arguments 0 _ sample_world_with_region
           sample_region_run.1).
  - by vm_compute.
  - apply surjective_pairing.
Defined.

Lemma run_touches_only_its_files_witness :
  files sample_run.2 !! "notes/case.vtp" = files sample_world !! "notes/case.vtp".
Proof.
  apply (run_touches_only_its_files
           (H := sample_externals) sample_arguments "notes/case.vtp"
           sample_world sample_run.1).
  - reflexivity.
  - apply surjective_pairing.
Defined.

Lemma input_model_untouched_witness :
  files sample_run.2 !! input_model sample_arguments
  = files sample_world !! input_model sample_arguments.
Proof.
  apply (input_model_untouched
           (H := sample_externals) sample_arguments "vtp" sample_world
           sample_run.1).
  - reflexivity.
  - rewrite !not_elem_of_cons. repeat split; try discriminate.
    apply not_elem_of_nil.
  - apply surjective_pairing.
Defined.

Lemma remove_all_reads_no_geometry_checkpoint_witness :
  ∃ evs, log sample_removing_run.2 = log sample_world_with_centerlines ++ evs ∧
         ∀ s, ¬ In (Event s (Read "case_centerlines.vtp")) evs.
Proof.
  apply (remove_all_reads_no_geometry_checkpoint
           (H := sample_externals) sample_arguments_removing
           "case_centerlines.vtp" sample_world_with_centerlines
           sample_removing_run.1).
  - reflexivity.
  - unfold geometry_checkpoints. apply list_elem_of_further, list_elem_of_here.
  - discriminate.
  - apply surjective_pairing.
Defined.

End PreprocessingMore.
